(** * GitHub Stars Manager: the filter engine and the annotation store

    A shallow embedding of the JavaScript sources
    (js/ui/filters.js, js/ui/components.js, js/ui/cards.js, js/app.js,
    js/services/customData.js, js/services/storage.js) and the properties
    of the filtering pipeline and of the local annotation backend.

    Conventions of the embedding:
    - a JavaScript string is a [string]: a sequence of code units below
      256, the characters U+0000 to U+00FF.  On these [toLowerCase] and
      [trim] are the functions of the language: the capital letters are
      A to Z and U+00C0 to U+00DE without the multiplication sign U+00D7,
      the white space is TAB, LF, VT, FF, CR, SPACE and the no-break space
      U+00A0;
    - a value that may be [null] or [undefined] is an [option];
    - a computation that may throw returns an [option], [None] standing for
      the exception that leaves the function. *)

From Stdlib Require Import String Ascii List ZArith NArith Lia Bool.
From Stdlib Require Import Permutation Sorted.
Import ListNotations.
Open Scope string_scope.

(** ** The string built-ins the sources call *)

Module JS.

(** The code units [toLowerCase] changes: A to Z, and the capital letters
    of the range U+00C0 to U+00DE, which has the multiplication sign
    U+00D7 in it.  Each is 32 below its lowercase form. *)
Definition is_upper (c : ascii) : bool :=
  let n := N_of_ascii c in
  (((65 <=? n) && (n <=? 90))
   || ((192 <=? n) && (n <=? 222) && negb (n =? 215)))%N.

Definition lower_char (c : ascii) : ascii :=
  if is_upper c then ascii_of_N (N_of_ascii c + 32) else c.

(** [String.prototype.toLowerCase] *)
Fixpoint toLowerCase (s : string) : string :=
  match s with
  | EmptyString => EmptyString
  | String c s' => String (lower_char c) (toLowerCase s')
  end.

(** White space and line terminators as [trim] and [parseInt] see them,
    below 256: TAB, LF, VT, FF, CR, SPACE and the no-break space U+00A0. *)
Definition is_space (c : ascii) : bool :=
  let n := N_of_ascii c in
  (((9 <=? n) && (n <=? 13)) || (n =? 32) || (n =? 160))%N.

Fixpoint trimStart (s : string) : string :=
  match s with
  | EmptyString => EmptyString
  | String c s' => if is_space c then trimStart s' else s
  end.

Fixpoint trimEnd (s : string) : string :=
  match s with
  | EmptyString => EmptyString
  | String c s' =>
      match trimEnd s' with
      | EmptyString => if is_space c then EmptyString else String c EmptyString
      | t => String c t
      end
  end.

(** [String.prototype.trim] *)
Definition trim (s : string) : string := trimEnd (trimStart s).

(** The string is empty or starts with a code unit that is not white
    space. *)
Definition no_leading_space (t : string) : Prop :=
  match t with
  | EmptyString => True
  | String c _ => is_space c = false
  end.

(** [s.startsWith(p)] *)
Definition startsWith (s p : string) : bool := String.prefix p s.

(** [s.includes(sub)] *)
Fixpoint includes (s sub : string) : bool :=
  String.prefix sub s ||
  match s with
  | EmptyString => false
  | String _ s' => includes s' sub
  end.

(** A string used as a condition: the empty string is falsy. *)
Definition truthy (s : string) : bool :=
  match s with EmptyString => false | _ => true end.

(** [arr.includes(x)] on an array of strings. *)
Definition arr_includes (arr : list string) (x : string) : bool :=
  existsb (String.eqb x) arr.

(** [Array.prototype.sort(cmp)]: a stable sort; an element goes in front
    of the first later element it does not compare greater than. *)
Fixpoint insert {A} (cmp : A -> A -> Z) (x : A) (l : list A) : list A :=
  match l with
  | [] => [x]
  | y :: r => if (cmp x y <=? 0)%Z then x :: y :: r else y :: insert cmp x r
  end.

Fixpoint sort {A} (cmp : A -> A -> Z) (l : list A) : list A :=
  match l with
  | [] => []
  | x :: t => insert cmp x (sort cmp t)
  end.

(** The comparison [sort()] uses without an argument: strings by code
    units. *)
Definition default_compare (a b : string) : Z :=
  match String.compare a b with Lt => (-1)%Z | Eq => 0%Z | Gt => 1%Z end.

End JS.

(** ** Repository records (data/stars.json) *)

Module Repo.

Record owner_t := { login : string; avatar_url : string }.

(** [custom_tags] and [notes] are absent ([None]) on the records of the
    data file; the merge step sets them. *)
Record t := {
  id : Z;
  name : string;
  full_name : string;
  owner : owner_t;
  description : option string;
  language : option string;
  topics : option (list string);
  stargazers_count : Z;
  updated_at : string;
  starred_at : option string;
  html_url : string;
  custom_tags : option (list string);
  notes : option string
}.

End Repo.

(** ** js/utils/constants.js *)

Module SORT_OPTIONS.
Definition STARS_DESC := "stars-desc".
Definition STARS_ASC := "stars-asc".
Definition NAME_ASC := "name-asc".
Definition NAME_DESC := "name-desc".
Definition UPDATED_DESC := "updated-desc".
Definition UPDATED_ASC := "updated-asc".
End SORT_OPTIONS.

Module STORAGE_KEYS.
Definition CUSTOM_TAGS_PREFIX := "custom_tags_".
Definition NOTES_PREFIX := "notes_".
End STORAGE_KEYS.

Module CONFIG.
Definition USERNAME := "nicolasbagatello".
End CONFIG.

(** ** Numbers as repository ids use them *)

Module Num.

(** A JavaScript number that is an integer, or NaN.  Integers are exact:
    the rounding of doubles beyond 2^53 and the exponent notation of very
    large values are outside the model. *)
Inductive number := NaN | Int (z : Z).

Definition digit_char (d : N) : ascii := ascii_of_N (48 + d).

Fixpoint digits_fuel (fuel : nat) (n : N) (acc : string) : string :=
  match fuel with
  | O => acc
  | S f =>
      let acc' := String (digit_char (n mod 10)) acc in
      if (n <? 10)%N then acc' else digits_fuel f (n / 10) acc'
  end.

(** The decimal digits of a natural number, without leading zeros. *)
Definition digits (n : N) : string :=
  digits_fuel (S (N.to_nat (N.log2 n))) n "".

(** [String(x)], as in [prefix + repoId]. *)
Definition toString (x : number) : string :=
  match x with
  | NaN => "NaN"
  | Int z => if (z <? 0)%Z then String "-" (digits (Z.to_N (- z)))
             else digits (Z.to_N z)
  end.

Definition digit_value (c : ascii) : option N :=
  let n := N_of_ascii c in
  if ((48 <=? n) && (n <=? 57))%N then Some (n - 48)%N else None.

Definition hex_value (c : ascii) : option N :=
  let n := N_of_ascii c in
  if ((48 <=? n) && (n <=? 57))%N then Some (n - 48)%N
  else if ((97 <=? n) && (n <=? 102))%N then Some (n - 87)%N
  else if ((65 <=? n) && (n <=? 70))%N then Some (n - 55)%N
  else None.

(** The value accumulated so far. *)
Definition acc_val (acc : option N) : N :=
  match acc with Some a => a | None => 0%N end.

(** The value of the longest prefix of digits, [None] when there is
    none. *)
Fixpoint parse_radix (digit : ascii -> option N) (R : N) (s : string)
    (acc : option N) : option N :=
  match s with
  | EmptyString => acc
  | String c s' =>
      match digit c with
      | Some d =>
          parse_radix digit R s'
            (Some (match acc with Some a => a * R + d | None => d end)%N)
      | None => acc
      end
  end.

Definition parse_unsigned (s : string) : option N :=
  match s with
  | String "0" (String "x" s') => parse_radix hex_value 16 s' None
  | String "0" (String "X" s') => parse_radix hex_value 16 s' None
  | _ => parse_radix digit_value 10 s None
  end.

Definition signed (negative : bool) (m : option N) : number :=
  match m with
  | None => NaN
  | Some n => Int (if negative then - Z.of_N n else Z.of_N n)
  end.

(** [parseInt(text)] without a radix. *)
Definition parseInt (text : string) : number :=
  match JS.trimStart text with
  | String "-" s' => signed true (parse_unsigned s')
  | String "+" s' => signed false (parse_unsigned s')
  | s => signed false (parse_unsigned s)
  end.

End Num.


(** ** JSON text of tag lists *)

Module JSON.

Definition dquote : ascii := ascii_of_N 34.
Definition backslash : ascii := ascii_of_N 92.

Definition hex_digit (d : N) : ascii :=
  if (d <? 10)%N then ascii_of_N (48 + d) else ascii_of_N (87 + d).

(** The text [JSON.stringify] writes for one code unit of a string. *)
Definition escape_char (c : ascii) : string :=
  let n := N_of_ascii c in
  if (n =? 34)%N then String backslash (String dquote "")
  else if (n =? 92)%N then String backslash (String backslash "")
  else if (n =? 8)%N then String backslash "b"
  else if (n =? 9)%N then String backslash "t"
  else if (n =? 10)%N then String backslash "n"
  else if (n =? 12)%N then String backslash "f"
  else if (n =? 13)%N then String backslash "r"
  else if (n <? 32)%N then
    String backslash (String "u" (String "0" (String "0"
      (String (hex_digit (n / 16)) (String (hex_digit (n mod 16)) "")))))
  else String c "".

Fixpoint escape (s : string) : string :=
  match s with
  | EmptyString => EmptyString
  | String c s' => escape_char c ++ escape s'
  end.

Definition quote (s : string) : string :=
  String dquote (escape s ++ String dquote "").

Fixpoint join_quoted (l : list string) : string :=
  match l with
  | [] => ""
  | [x] => quote x
  | x :: t => quote x ++ String "," (join_quoted t)
  end.

(** [JSON.stringify(tags)] for an array of strings. *)
Definition stringify (tags : list string) : string :=
  String "[" (join_quoted tags ++ "]").

(** JSON white space. *)
Definition ws (c : ascii) : bool :=
  let n := N_of_ascii c in ((n =? 32) || (n =? 9) || (n =? 10) || (n =? 13))%N.

(** The character a one-letter escape stands for. *)
Definition unescape (e : ascii) : option ascii :=
  let n := N_of_ascii e in
  if (n =? 34)%N then Some dquote
  else if (n =? 92)%N then Some (ascii_of_N 92)
  else if (n =? 47)%N then Some (ascii_of_N 47)
  else if (n =? 98)%N then Some (ascii_of_N 8)
  else if (n =? 102)%N then Some (ascii_of_N 12)
  else if (n =? 110)%N then Some (ascii_of_N 10)
  else if (n =? 114)%N then Some (ascii_of_N 13)
  else if (n =? 116)%N then Some (ascii_of_N 9)
  else None.

(** The code unit of a [u] escape with four hexadecimal digits, when it fits the 8-bit code units of the
    model. *)
Definition hex4 (h1 h2 h3 h4 : ascii) : option ascii :=
  match Num.hex_value h1, Num.hex_value h2, Num.hex_value h3, Num.hex_value h4 with
  | Some a, Some b, Some c, Some d =>
      if ((a =? 0) && (b =? 0))%N then Some (ascii_of_N (c * 16 + d)) else None
  | _, _, _, _ => None
  end.

Inductive pstate :=
| PStart        (* before the opening bracket *)
| POpen         (* after the opening bracket *)
| PInStr        (* inside a string literal *)
| PAfterStr     (* after a string literal *)
| PAfterComma   (* after a comma *)
| PClosed.      (* after the closing bracket *)

(** One pass over the text; [done] holds the strings read so far and
    [cur] the code units of the literal being read, both latest first. *)
Fixpoint parse_run (q : pstate) (done : list string) (cur : list ascii)
    (s : string) : option (list string) :=
  match s with
  | EmptyString =>
      match q with PClosed => Some (rev done) | _ => None end
  | String c s' =>
      match q with
      | PStart =>
          if ws c then parse_run PStart done cur s'
          else if Ascii.eqb c "[" then parse_run POpen done cur s'
          else None
      | POpen =>
          if ws c then parse_run POpen done cur s'
          else if Ascii.eqb c "]" then parse_run PClosed done cur s'
          else if Ascii.eqb c dquote then parse_run PInStr done [] s'
          else None
      | PAfterComma =>
          if ws c then parse_run PAfterComma done cur s'
          else if Ascii.eqb c dquote then parse_run PInStr done [] s'
          else None
      | PAfterStr =>
          if ws c then parse_run PAfterStr done cur s'
          else if Ascii.eqb c "," then parse_run PAfterComma done cur s'
          else if Ascii.eqb c "]" then parse_run PClosed done cur s'
          else None
      | PClosed =>
          if ws c then parse_run PClosed done cur s' else None
      | PInStr =>
          if Ascii.eqb c dquote then
            parse_run PAfterStr (string_of_list_ascii (rev cur) :: done) [] s'
          else if Ascii.eqb c backslash then
            match s' with
            | EmptyString => None
            | String e s'' =>
                match unescape e with
                | Some ch => parse_run PInStr done (ch :: cur) s''
                | None =>
                    if Ascii.eqb e "u" then
                      match s'' with
                      | String h1 (String h2 (String h3 (String h4 s3))) =>
                          match hex4 h1 h2 h3 h4 with
                          | Some ch => parse_run PInStr done (ch :: cur) s3
                          | None => None
                          end
                      | _ => None
                      end
                    else None
                end
            end
          else if (N_of_ascii c <? 32)%N then None
          else parse_run PInStr done (c :: cur) s'
      end
  end.

(** [JSON.parse(text)] on the texts that denote an array of strings;
    [None] is the SyntaxError of a text that is not JSON.  A JSON text of
    another shape is outside the fragment and also gives [None]. *)
Definition parse (text : string) : option (list string) :=
  parse_run PStart [] [] text.

End JSON.

(** ** The browser's localStorage *)

Module LocalStorage.

(** The entries in the order [key(i)] enumerates them, and the capacity
    of the origin, counted in code units of keys and values. *)
Record t := { items : list (string * string); quota : nat }.

Fixpoint size (l : list (string * string)) : nat :=
  match l with
  | [] => 0
  | (k, v) :: r => String.length k + String.length v + size r
  end.

Fixpoint lookup (l : list (string * string)) (k : string) : option string :=
  match l with
  | [] => None
  | (k', v) :: r => if String.eqb k' k then Some v else lookup r k
  end.

Fixpoint put (k v : string) (l : list (string * string)) : list (string * string) :=
  match l with
  | [] => [(k, v)]
  | (k', v') :: r => if String.eqb k' k then (k, v) :: r else (k', v') :: put k v r
  end.

Definition remove (k : string) (l : list (string * string)) : list (string * string) :=
  filter (fun kv => negb (String.eqb (fst kv) k)) l.

(** [getItem(key)]: [None] is [null]. *)
Definition getItem (st : t) (key : string) : option string :=
  lookup (items st) key.

(** [setItem(key, value)]: [None] is the QuotaExceededError, which leaves
    the storage as it was. *)
Definition setItem (st : t) (key value : string) : option t :=
  let l := put key value (items st) in
  if (size l <=? quota st)%nat then Some {| items := l; quota := quota st |}
  else None.

Definition removeItem (st : t) (key : string) : t :=
  {| items := remove key (items st); quota := quota st |}.

(** A storage without entries. *)
Definition empty (q : nat) : t := {| items := []; quota := q |}.

End LocalStorage.

(** ** Plain objects used as maps *)

Module Obj.

(** The own properties in creation order. *)
Definition t (V : Type) := list (string * V).

(** [o[k] = v] *)
Fixpoint set {V} (o : t V) (k : string) (v : V) : t V :=
  match o with
  | [] => [(k, v)]
  | (k', v') :: r => if String.eqb k' k then (k, v) :: r else (k', v') :: set r k v
  end.

Fixpoint all_digits (s : string) : bool :=
  match s with
  | EmptyString => true
  | String c s' =>
      match Num.digit_value c with Some _ => all_digits s' | None => false end
  end.

(** The array index a property name denotes: a canonical decimal numeral
    up to 2^32 - 2. *)
Definition array_index (k : string) : option N :=
  if all_digits k then
    match Num.parse_radix Num.digit_value 10 k None with
    | Some n => if (String.eqb (Num.digits n) k && (n <=? 4294967294)%N)%bool
                then Some n else None
    | None => None
    end
  else None.

Definition is_index {V} (kv : string * V) : bool :=
  match array_index (fst kv) with Some _ => true | None => false end.

Definition index_of {V} (kv : string * V) : Z :=
  match array_index (fst kv) with Some n => Z.of_N n | None => 0%Z end.

(** [Object.entries(o)]: the array indices in ascending order, then
    the other names in creation order. *)
Definition entries {V} (o : t V) : list (string * V) :=
  (JS.sort (fun a b => (index_of a - index_of b)%Z) (filter is_index o)
   ++ filter (fun kv => negb (is_index kv)) o)%list.

(** [o[k]], [None] for a name the object does not have. *)
Fixpoint get {V} (o : t V) (k : string) : option V :=
  match o with
  | [] => None
  | (k', v) :: r => if String.eqb k' k then Some v else get r k
  end.

End Obj.

(** ** js/services/customData.js, on the localStorage backend

    [FEATURES.USE_SUPABASE] is false: [useSupabase] stays false and every
    function takes its localStorage branch, which runs to completion
    before the [async] function returns its promise. *)

Module CustomData.

Definition tags_key (repoId : Num.number) : string :=
  STORAGE_KEYS.CUSTOM_TAGS_PREFIX ++ Num.toString repoId.

Definition notes_key (repoId : Num.number) : string :=
  STORAGE_KEYS.NOTES_PREFIX ++ Num.toString repoId.

(** [getCustomTags(repoId)].  A stored text that is JSON of another
    shape than an array of strings is outside the model: the function
    would return that value. *)
Definition getCustomTags (st : LocalStorage.t) (repoId : Num.number) : list string :=
  match LocalStorage.getItem st (tags_key repoId) with
  | Some data =>
      if JS.truthy data then
        match JSON.parse data with
        | Some tags => tags
        | None => []          (* catch (error) *)
        end
      else []
  | None => []
  end.

(** [setCustomTags(repoId, tags)]: the success status and the storage
    afterwards. *)
Definition setCustomTags (st : LocalStorage.t) (repoId : Num.number)
    (tags : list string) : bool * LocalStorage.t :=
  match LocalStorage.setItem st (tags_key repoId) (JSON.stringify tags) with
  | Some st' => (true, st')
  | None => (false, st)       (* catch (error) *)
  end.

(** [getNotes(repoId)]: [localStorage.getItem(key) || ''] *)
Definition getNotes (st : LocalStorage.t) (repoId : Num.number) : string :=
  match LocalStorage.getItem st (notes_key repoId) with
  | Some text => text
  | None => ""
  end.

(** The [notes] argument as [setNotes] receives it: a string, or a value
    of another type, on which [notes.trim()] raises a TypeError. *)
Inductive notes_arg := Text (s : string) | NotText.

(** [setNotes(repoId, notes)] *)
Definition setNotes (st : LocalStorage.t) (repoId : Num.number)
    (notes : notes_arg) : bool * LocalStorage.t :=
  match notes with
  | NotText => (false, st)    (* catch (error) *)
  | Text s =>
      if JS.truthy (JS.trim s) then
        match LocalStorage.setItem st (notes_key repoId) s with
        | Some st' => (true, st')
        | None => (false, st) (* catch (error) *)
        end
      else (true, LocalStorage.removeItem st (notes_key repoId))
  end.

(** A promise that has been fulfilled with a value. *)
Inductive Promise (A : Type) := fulfilled (value : A).
Arguments fulfilled {A} value.

Definition set_custom_data (repo : Repo.t) (custom_tags : list string)
    (notes : string) : Repo.t :=
  {| Repo.id := Repo.id repo;
     Repo.name := Repo.name repo;
     Repo.full_name := Repo.full_name repo;
     Repo.owner := Repo.owner repo;
     Repo.description := Repo.description repo;
     Repo.language := Repo.language repo;
     Repo.topics := Repo.topics repo;
     Repo.stargazers_count := Repo.stargazers_count repo;
     Repo.updated_at := Repo.updated_at repo;
     Repo.starred_at := Repo.starred_at repo;
     Repo.html_url := Repo.html_url repo;
     Repo.custom_tags := Some custom_tags;
     Repo.notes := Some notes |}.

(** [mergeCustomData(repo)]: an [async] function, so the caller gets a
    promise of [{...repo, custom_tags, notes}]. *)
Definition mergeCustomData (st : LocalStorage.t) (repo : Repo.t) : Promise Repo.t :=
  fulfilled
    (set_custom_data repo
       (getCustomTags st (Num.Int (Repo.id repo)))
       (getNotes st (Num.Int (Repo.id repo)))).

(** The object [getAllCustomData] builds. *)
Record customData_t := {
  tags : Obj.t (list string);
  notes : Obj.t string;
  exportedAt : string
}.

(** [s.replace(pattern, '')]: the first occurrence of the pattern goes. *)
Fixpoint drop (n : nat) (s : string) : string :=
  match n, s with
  | O, _ => s
  | S n', String _ s' => drop n' s'
  | S _, EmptyString => EmptyString
  end.

Fixpoint remove_first (s pattern : string) : string :=
  if String.prefix pattern s then drop (String.length pattern) s
  else match s with
       | EmptyString => EmptyString
       | String c s' => String c (remove_first s' pattern)
       end.

(** The body of the loop of [getAllCustomData], for the entry
    [(key, value)]; [None] is the exception of [JSON.parse].  A tags entry
    that is JSON of another shape than an array of strings is outside the
    model: the function would export that value. *)
Definition export_entry (acc : option customData_t) (kv : string * string)
  : option customData_t :=
  match acc with
  | None => None
  | Some d =>
      let (key, value) := kv in
      if JS.startsWith key STORAGE_KEYS.CUSTOM_TAGS_PREFIX then
        match JSON.parse value with
        | Some l =>
            Some {| tags := Obj.set (tags d)
                              (remove_first key STORAGE_KEYS.CUSTOM_TAGS_PREFIX) l;
                    notes := notes d; exportedAt := exportedAt d |}
        | None => None
        end
      else if JS.startsWith key STORAGE_KEYS.NOTES_PREFIX then
        Some {| tags := tags d;
                notes := Obj.set (notes d)
                           (remove_first key STORAGE_KEYS.NOTES_PREFIX) value;
                exportedAt := exportedAt d |}
      else Some d
  end.

(** [getAllCustomData()], [now] being [new Date().toISOString()]. *)
Definition getAllCustomData (now : string) (st : LocalStorage.t)
  : option customData_t :=
  fold_left export_entry (LocalStorage.items st)
    (Some {| tags := []; notes := []; exportedAt := now |}).

(** The two branches of the loop, as tests on an entry. *)
Definition is_tags (kv : string * string) : bool :=
  JS.startsWith (fst kv) STORAGE_KEYS.CUSTOM_TAGS_PREFIX.

Definition is_notes (kv : string * string) : bool :=
  negb (is_tags kv) && JS.startsWith (fst kv) STORAGE_KEYS.NOTES_PREFIX.

(** What each branch adds to the export for an entry. *)
Definition tags_entry (kv : string * string) : string * list string :=
  (remove_first (fst kv) STORAGE_KEYS.CUSTOM_TAGS_PREFIX,
   match JSON.parse (snd kv) with Some l => l | None => [] end).

Definition notes_entry (kv : string * string) : string * string :=
  (remove_first (fst kv) STORAGE_KEYS.NOTES_PREFIX, snd kv).

(** The annotation entries are as [setCustomTags] and [setNotes] write
    them: the keys are distinct and end in a repository id, a tags entry
    holds the text of a tag list, a notes entry is not blank, and the
    entries fit the quota. *)
Definition well_formed_store (st : LocalStorage.t) : Prop :=
  NoDup (map fst (LocalStorage.items st)) /\
  LocalStorage.size (LocalStorage.items st) <= LocalStorage.quota st /\
  forall k v, In (k, v) (LocalStorage.items st) ->
    (JS.startsWith k STORAGE_KEYS.CUSTOM_TAGS_PREFIX = true ->
       (exists repoId, k = tags_key repoId) /\ exists l, v = JSON.stringify l) /\
    (JS.startsWith k STORAGE_KEYS.NOTES_PREFIX = true ->
       (exists repoId, k = notes_key repoId) /\ JS.trim v <> "").

(** The [tags] argument as [importCustomData] hands it to
    [setCustomTags]: an array of strings, or a value of another shape
    ([null], a number, a string, an object, an array with an element that
    is not a string), of which [setCustomTags] uses nothing but the text
    [JSON.stringify] writes for it. *)
Inductive tags_arg := Tags (l : list string) | NotTags (text : string).

(** [JSON.stringify(tags)] *)
Definition tags_text (tags : tags_arg) : string :=
  match tags with
  | Tags l => JSON.stringify l
  | NotTags text => text
  end.

(** [setCustomTags(repoId, tags)] on such an argument; on [Tags l] it is
    [setCustomTags] on the list [l]. *)
Definition setCustomTags_arg (st : LocalStorage.t) (repoId : Num.number)
    (tags : tags_arg) : bool * LocalStorage.t :=
  match LocalStorage.setItem st (tags_key repoId) (tags_text tags) with
  | Some st' => (true, st')
  | None => (false, st)       (* catch (error) *)
  end.

(** The argument of [importCustomData], as far as the function looks at
    it: [None] for a section that is missing or falsy; the values of the
    [tags] section and of the [notes] section are of any shape. *)
Record document := {
  doc_tags : option (Obj.t tags_arg);
  doc_notes : option (Obj.t notes_arg)
}.

Definition import_tags (st : LocalStorage.t) (entry : string * tags_arg)
  : LocalStorage.t :=
  snd (setCustomTags_arg st (Num.parseInt (fst entry)) (snd entry)).

Definition import_notes (st : LocalStorage.t) (entry : string * notes_arg)
  : LocalStorage.t :=
  snd (setNotes st (Num.parseInt (fst entry)) (snd entry)).

(** [importCustomData(data)]; [data = None] is a [null] or [undefined]
    argument, whose property access throws inside the [try]. *)
Definition importCustomData (st : LocalStorage.t) (data : option document)
  : bool * LocalStorage.t :=
  match data with
  | None => (false, st)
  | Some d =>
      match doc_tags d, doc_notes d with
      | Some t, Some n =>
          let st1 := fold_left import_tags (Obj.entries t) st in
          let st2 := fold_left import_notes (Obj.entries n) st1 in
          (true, st2)
      | _, _ => (false, st)   (* throw new Error('Invalid data format') *)
      end
  end.

(** The document has a [tags] and a [notes] section and every note in it
    is a string. *)
Definition well_formed (data : option document) : Prop :=
  match data with
  | None => False
  | Some d =>
      doc_tags d <> None /\
      match doc_notes d with
      | None => False
      | Some n => forall k v, In (k, v) n -> exists s, v = Text s
      end
  end.


(** The check at the top of [importCustomData] fails. *)
Definition lacks_section (data : option document) : Prop :=
  match data with
  | None => True
  | Some d => doc_tags d = None \/ doc_notes d = None
  end.





(** Every entry under the tags prefix holds the JSON text of a list of
    strings, as [setCustomTags] writes it. *)
Definition tag_entries_parse (st : LocalStorage.t) : Prop :=
  forall k v, In (k, v) (LocalStorage.items st) ->
    JS.startsWith k STORAGE_KEYS.CUSTOM_TAGS_PREFIX = true ->
    JSON.parse v <> None.

(** The tag [t] occurs in the stored tag list of some repository. *)
Definition stored_tag (st : LocalStorage.t) (t : string) : Prop :=
  exists k v l, In (k, v) (LocalStorage.items st) /\
    JS.startsWith k STORAGE_KEYS.CUSTOM_TAGS_PREFIX = true /\
    JSON.parse v = Some l /\ In t l.

(** [new Set()] keeps the first occurrence of each value. *)
Definition set_add (seen : list string) (x : string) : list string :=
  if JS.arr_includes seen x then seen else (seen ++ [x])%list.

Definition unique_entry (acc : option (list string)) (kv : string * string)
  : option (list string) :=
  match acc with
  | None => None
  | Some seen =>
      if JS.startsWith (fst kv) STORAGE_KEYS.CUSTOM_TAGS_PREFIX then
        match JSON.parse (snd kv) with
        | Some repoTags => Some (fold_left set_add repoTags seen)
        | None => None
        end
      else Some seen
  end.

(** [getAllUniqueTags()]: [None] when [JSON.parse] throws on an entry,
    or [forEach] on what it returns ([null], a number, an object), which
    rejects the promise.  An entry that holds an array with an element
    that is not a string is outside the model. *)
Definition getAllUniqueTags (st : LocalStorage.t) : option (list string) :=
  match fold_left unique_entry (LocalStorage.items st) (Some []) with
  | Some seen => Some (JS.sort JS.default_compare seen)
  | None => None
  end.



(** The test of the first loop of [clearAllCustomData]. *)
Definition is_custom_key (key : string) : bool :=
  JS.startsWith key STORAGE_KEYS.CUSTOM_TAGS_PREFIX
  || JS.startsWith key STORAGE_KEYS.NOTES_PREFIX.

(** [clearAllCustomData()]: the keys are collected first and removed
    afterwards. *)
Definition clearAllCustomData (st : LocalStorage.t) : bool * LocalStorage.t :=
  let keys := map fst (filter (fun kv => is_custom_key (fst kv)) (LocalStorage.items st)) in
  (true, fold_left LocalStorage.removeItem keys st).

End CustomData.

(** ** js/ui/cards.js: the cards, and editing the tags on a card *)

Module Cards.

Definition set_custom_tags (repo : Repo.t) (custom_tags : list string) : Repo.t :=
  {| Repo.id := Repo.id repo;
     Repo.name := Repo.name repo;
     Repo.full_name := Repo.full_name repo;
     Repo.owner := Repo.owner repo;
     Repo.description := Repo.description repo;
     Repo.language := Repo.language repo;
     Repo.topics := Repo.topics repo;
     Repo.stargazers_count := Repo.stargazers_count repo;
     Repo.updated_at := Repo.updated_at repo;
     Repo.starred_at := Repo.starred_at repo;
     Repo.html_url := Repo.html_url repo;
     Repo.custom_tags := Some custom_tags;
     Repo.notes := Repo.notes repo |}.

(** [repo.custom_tags || []] *)
Definition currentTags (repo : Repo.t) : list string :=
  match Repo.custom_tags repo with Some l => l | None => [] end.

(** The tag as the 'keydown' listener stores it:
    [tagInput.value.trim().toLowerCase()]. *)
Definition newTag (value : string) : string := JS.toLowerCase (JS.trim value).

(** A tag list as the listener builds it: no tag twice, every tag
    lowercase and trimmed. *)
Definition normalized_tags (l : list string) : Prop :=
  NoDup l /\ Forall (fun t => newTag t = t) l.

(** The 'keydown' listener of the tag input (lines 162-192), on the
    storage and the in-memory record. *)
Definition tag_keydown (key value : string) (s : LocalStorage.t * Repo.t)
  : LocalStorage.t * Repo.t :=
  let (st, repo) := s in
  if (String.eqb key "Enter" && JS.truthy (JS.trim value))%bool then
    if JS.arr_includes (currentTags repo) (newTag value) then (st, repo)
    else
      let updatedTags := (currentTags repo ++ [newTag value])%list in
      (snd (CustomData.setCustomTags st (Num.Int (Repo.id repo)) updatedTags),
       set_custom_tags repo updatedTags)
  else (st, repo).

(** [removeTag(repo, tag, element)]; [None] is the TypeError of a record
    without [custom_tags]. *)
Definition removeTag (tag : string) (s : LocalStorage.t * Repo.t)
  : option (LocalStorage.t * Repo.t) :=
  let (st, repo) := s in
  match Repo.custom_tags repo with
  | None => None
  | Some l =>
      let updatedTags := filter (fun t => negb (String.eqb t tag)) l in
      Some (snd (CustomData.setCustomTags st (Num.Int (Repo.id repo)) updatedTags),
            set_custom_tags repo updatedTags)
  end.

(** What [createRepoCard(repo)] puts on the card of a record: the first
    five topics, the custom tags and the notes. *)
Record card := {
  repoId : Z;
  topic_badges : list string;
  tag_badges : list string;
  notes_text : string
}.

(** [createRepoCard(repo)].  The template reads [repo.custom_tags.map]
    without a guard (line 85): [None] is the TypeError on a record without
    [custom_tags].  The topics and the notes are guarded, the description
    too, and the other fields the template reads are present in every
    record. *)
Definition createRepoCard (repo : Repo.t) : option card :=
  match Repo.custom_tags repo with
  | None => None
  | Some tags =>
      Some {| repoId := Repo.id repo;
              topic_badges :=
                match Repo.topics repo with Some tp => firstn 5 tp | None => [] end;
              tag_badges := tags;
              notes_text :=
                match Repo.notes repo with Some text => text | None => "" end |}
  end.

(** [renderRepositories(repositories)] on a page that has the container:
    the cards appended to it, [None] when [createRepoCard] throws on one
    of the records. *)
Fixpoint renderRepositories (repositories : list Repo.t) : option (list card) :=
  match repositories with
  | [] => Some []
  | repo :: rest =>
      match createRepoCard repo with
      | None => None
      | Some c =>
          match renderRepositories rest with
          | None => None
          | Some cards => Some (c :: cards)
          end
      end
  end.

End Cards.

(** ** js/ui/filters.js: the filter and sort engine *)

Module Filters.

(** The module-level [currentFilters] object. *)
Record currentFilters_t := {
  search : string;
  language : string;
  topics : list string;
  customTags : list string;
  sort : string
}.

(** Its initial value, and the value [clearFilters] resets it to. *)
Definition defaults : currentFilters_t :=
  {| search := ""; language := ""; topics := []; customTags := [];
     sort := SORT_OPTIONS.STARS_DESC |}.

(** What the host provides to the comparators: [String.prototype.localeCompare]
    and the time value of [new Date(text)] ([None] for an invalid date,
    whose difference is NaN). *)
Record host := {
  localeCompare : string -> string -> Z;
  Date_time : string -> option Z
}.

(** [filtered.filter(pred)] for a predicate that may throw: the first
    exception leaves the loop. *)
Fixpoint filter_throwing {A} (pred : A -> option bool) (l : list A)
  : option (list A) :=
  match l with
  | [] => Some []
  | x :: t =>
      match pred x with
      | None => None
      | Some b =>
          match filter_throwing pred t with
          | None => None
          | Some r => Some (if b then x :: r else r)
          end
      end
  end.

(** [field.toLowerCase().includes(search)] on a field that may be
    [null]: reading [toLowerCase] of [null] throws a TypeError. *)
Definition field_matches (field : option string) (s : string) : option bool :=
  match field with
  | None => None
  | Some v => Some (JS.includes (JS.toLowerCase v) s)
  end.

(** [a || b] with [b] evaluated only when [a] is false. *)
Definition or_else (a : option bool) (b : option bool) : option bool :=
  match a with
  | None => None
  | Some true => Some true
  | Some false => b
  end.

(** The arrow function of the search filter (lines 170-175). *)
Definition search_predicate (s : string) (repo : Repo.t) : option bool :=
  or_else (field_matches (Some (Repo.name repo)) s)
 (or_else (field_matches (Repo.description repo) s)
 (or_else (field_matches (Some (Repo.full_name repo)) s)
          (field_matches (Some (Repo.login (Repo.owner repo))) s))).

(** Step 1: [if (currentFilters.search) filtered = filtered.filter(...)]. *)
Definition search_step (f : currentFilters_t) (l : list Repo.t)
  : option (list Repo.t) :=
  if JS.truthy (search f) then filter_throwing (search_predicate (search f)) l
  else Some l.

Definition language_predicate (lang : string) (repo : Repo.t) : bool :=
  match Repo.language repo with
  | Some v => String.eqb v lang
  | None => false
  end.

(** Step 2: [if (currentFilters.language) ...]. *)
Definition language_step (f : currentFilters_t) (l : list Repo.t) : list Repo.t :=
  if JS.truthy (language f) then filter (language_predicate (language f)) l
  else l.

(** [selected.every(x => arr && arr.includes(x))] *)
Definition has_all (arr : option (list string)) (selected : list string) : bool :=
  forallb (fun x => match arr with
                    | Some a => JS.arr_includes a x
                    | None => false
                    end) selected.

(** Step 3: [if (currentFilters.topics.length > 0) ...]. *)
Definition topics_step (f : currentFilters_t) (l : list Repo.t) : list Repo.t :=
  match topics f with
  | [] => l
  | _ => filter (fun repo => has_all (Repo.topics repo) (topics f)) l
  end.

(** Step 4: [if (currentFilters.customTags.length > 0) ...]. *)
Definition customTags_step (f : currentFilters_t) (l : list Repo.t) : list Repo.t :=
  match customTags f with
  | [] => l
  | _ => filter (fun repo => has_all (Repo.custom_tags repo) (customTags f)) l
  end.

(** [new Date(x) - new Date(y)]; NaN counts as 0 for [sort]. *)
Definition date_diff (h : host) (x y : string) : Z :=
  match Date_time h x, Date_time h y with
  | Some a, Some b => (a - b)%Z
  | _, _ => 0%Z
  end.

Definition by_stars_desc (a b : Repo.t) : Z :=
  (Repo.stargazers_count b - Repo.stargazers_count a)%Z.

Definition sortRepositories (h : host) (repos : list Repo.t) (sortOption : string)
  : list Repo.t :=
  if String.eqb sortOption SORT_OPTIONS.STARS_DESC then
    JS.sort by_stars_desc repos
  else if String.eqb sortOption SORT_OPTIONS.STARS_ASC then
    JS.sort (fun a b => (Repo.stargazers_count a - Repo.stargazers_count b)%Z) repos
  else if String.eqb sortOption SORT_OPTIONS.NAME_ASC then
    JS.sort (fun a b => localeCompare h (Repo.name a) (Repo.name b)) repos
  else if String.eqb sortOption SORT_OPTIONS.NAME_DESC then
    JS.sort (fun a b => localeCompare h (Repo.name b) (Repo.name a)) repos
  else if String.eqb sortOption SORT_OPTIONS.UPDATED_DESC then
    JS.sort (fun a b => date_diff h (Repo.updated_at b) (Repo.updated_at a)) repos
  else if String.eqb sortOption SORT_OPTIONS.UPDATED_ASC then
    JS.sort (fun a b => date_diff h (Repo.updated_at a) (Repo.updated_at b)) repos
  else
    JS.sort by_stars_desc repos.

(** [applyFilters]: the records whose cards are on the page when the
    function returns, [None] when an exception leaves it: the TypeError of
    the search step, or the one of [createRepoCard] while the sorted list
    is rendered.  [updateActiveFilters] and [setEmptyState] do not throw;
    an empty list is not rendered. *)
Definition applyFilters (h : host) (f : currentFilters_t) (allRepositories : list Repo.t)
  : option (list Repo.t) :=
  match search_step f allRepositories with
  | None => None
  | Some l1 =>
      let l2 := language_step f l1 in
      let l3 := topics_step f l2 in
      let l4 := customTags_step f l3 in
      let filtered := sortRepositories h l4 (sort f) in
      match Cards.renderRepositories filtered with
      | None => None
      | Some _ => Some filtered
      end
  end.

(** *** The four predicates of the specification

    Each is stated on the fields of a record, for [applyFilters] to be
    compared with. *)

(** The search string occurs in the lowercase form of the name, the
    description, the full name or the owner login; the empty search
    string occurs in every name. *)
Definition matches_search (S : string) (r : Repo.t) : Prop :=
  exists field pre post,
    In field [Some (Repo.name r); Repo.description r;
              Some (Repo.full_name r); Some (Repo.login (Repo.owner r))] /\
    option_map JS.toLowerCase field = Some (pre ++ S ++ post).

(** No language is selected, or the language of the record is the
    selected one. *)
Definition matches_language (L : string) (r : Repo.t) : Prop :=
  L = "" \/ Repo.language r = Some L.

(** The topics of the record are a superset of the selected topics. *)
Definition matches_topics (T : list string) (r : Repo.t) : Prop :=
  forall t, In t T -> exists a, Repo.topics r = Some a /\ In t a.

(** The custom tags of the record are a superset of the selected tags. *)
Definition matches_tags (G : list string) (r : Repo.t) : Prop :=
  forall t, In t G -> exists a, Repo.custom_tags r = Some a /\ In t a.

(** *** The mutations of [currentFilters] *)

(** [updateFilters(filters)]: the fields present in the partial object
    replace the current ones. *)
Record partial := {
  p_search : option string;
  p_language : option string;
  p_topics : option (list string);
  p_customTags : option (list string);
  p_sort : option string
}.

Definition or_current {A} (o : option A) (cur : A) : A :=
  match o with Some v => v | None => cur end.

Definition updateFilters (p : partial) (f : currentFilters_t) : currentFilters_t :=
  {| search := or_current (p_search p) (search f);
     language := or_current (p_language p) (language f);
     topics := or_current (p_topics p) (topics f);
     customTags := or_current (p_customTags p) (customTags f);
     sort := or_current (p_sort p) (sort f) |}.

Definition clearFilters (_ : currentFilters_t) : currentFilters_t := defaults.

(** The events the listeners of [initFilters] react to. *)
Inductive filter_type := FSearch | FLanguage | FTopic | FCustomTag | FUnknown.

Inductive event :=
| SearchInput (value : string)         (* debounced 'input' on #search-input *)
| LanguageChange (value : string)      (* 'change' on #language-filter *)
| SortChange (value : string)          (* 'change' on #sort-select *)
| RemoveFilter (type : filter_type) (value : string)
| FilterByTopic (topic : string)
| FilterByCustomTag (customTag : string)
| UpdateFilters (p : partial)
| ClearFilters.

Definition set_search (v : string) (f : currentFilters_t) :=
  {| search := v; language := language f; topics := topics f;
     customTags := customTags f; sort := sort f |}.
Definition set_language (v : string) (f : currentFilters_t) :=
  {| search := search f; language := v; topics := topics f;
     customTags := customTags f; sort := sort f |}.
Definition set_topics (v : list string) (f : currentFilters_t) :=
  {| search := search f; language := language f; topics := v;
     customTags := customTags f; sort := sort f |}.
Definition set_customTags (v : list string) (f : currentFilters_t) :=
  {| search := search f; language := language f; topics := topics f;
     customTags := v; sort := sort f |}.
Definition set_sort (v : string) (f : currentFilters_t) :=
  {| search := search f; language := language f; topics := topics f;
     customTags := customTags f; sort := v |}.

Definition differs (value : string) (t : string) : bool := negb (String.eqb t value).

Definition handle (e : event) (f : currentFilters_t) : currentFilters_t :=
  match e with
  | SearchInput value => set_search (JS.trim (JS.toLowerCase value)) f
  | LanguageChange value => set_language value f
  | SortChange value => set_sort value f
  | RemoveFilter FSearch _ => set_search "" f
  | RemoveFilter FLanguage _ => set_language "" f
  | RemoveFilter FTopic value => set_topics (filter (differs value) (topics f)) f
  | RemoveFilter FCustomTag value =>
      set_customTags (filter (differs value) (customTags f)) f
  | RemoveFilter FUnknown _ => f
  | FilterByTopic topic =>
      if JS.arr_includes (topics f) topic then f
      else set_topics (topics f ++ [topic]) f
  | FilterByCustomTag customTag =>
      if JS.arr_includes (customTags f) customTag then f
      else set_customTags (customTags f ++ [customTag]) f
  | UpdateFilters p => updateFilters p f
  | ClearFilters => clearFilters f
  end.

(** [new URLSearchParams(window.location.search)]: the decoded pairs;
    [get] returns the first value of a name. *)
Definition URLSearchParams := list (string * string).

Fixpoint params_get (params : URLSearchParams) (k : string) : option string :=
  match params with
  | [] => None
  | (k', v) :: t => if String.eqb k' k then Some v else params_get t k
  end.

(** [text.split(',')] *)
Fixpoint split_comma_aux (s : string) (cur : string) : list string :=
  match s with
  | EmptyString => [cur]
  | String c s' =>
      if Ascii.eqb c ","%char then cur :: split_comma_aux s' ""
      else split_comma_aux s' (cur ++ String c "")
  end.
Definition split_comma (s : string) : list string := split_comma_aux s "".

Definition initURLFilters (params : URLSearchParams) (f : currentFilters_t)
  : currentFilters_t :=
  let f1 := match params_get params "search" with
            | Some v => set_search v f | None => f end in
  let f2 := match params_get params "language" with
            | Some v => set_language v f1 | None => f1 end in
  let f3 := match params_get params "topic" with
            | Some v => set_topics (split_comma v) f2 | None => f2 end in
  match params_get params "sort" with
  | Some v => set_sort v f3 | None => f3 end.

(** The filter states the page can be in: [init] in app.js calls
    [initURLFilters] on the initial object, then the listeners run. *)
Inductive reachable : currentFilters_t -> Prop :=
| reach_init params : reachable (initURLFilters params defaults)
| reach_step e f : reachable f -> reachable (handle e f).

(** The search string is lowercase and trimmed. *)
Definition normalized_search (s : string) : Prop :=
  JS.toLowerCase s = s /\ JS.trim s = s.

(** The sort options that reach a comparison of star counts: the two
    [stars-*] options and every unrecognized option. *)
Definition sorts_by_stars (sortOption : string) : Prop :=
  sortOption <> SORT_OPTIONS.NAME_ASC /\ sortOption <> SORT_OPTIONS.NAME_DESC /\
  sortOption <> SORT_OPTIONS.UPDATED_DESC /\ sortOption <> SORT_OPTIONS.UPDATED_ASC.

(** The time value of the [updated_at] of a record, 0 for an invalid
    date. *)
Definition updated_time (h : host) (repo : Repo.t) : Z :=
  match Date_time h (Repo.updated_at repo) with Some t => t | None => 0%Z end.

Definition valid_date (h : host) (repo : Repo.t) : Prop :=
  Date_time h (Repo.updated_at repo) <> None.

(** [arr.join(',')] *)
Fixpoint join_comma (l : list string) : string :=
  match l with
  | [] => ""
  | [x] => x
  | x :: t => x ++ String "," (join_comma t)
  end.

(** [updateURL()]: the parameters of the query the function puts in the
    address bar, in the order they are set; no parameter gives the bare
    path.  The address bar keeps them as [URLSearchParams] writes them and
    reads them back. *)
Definition updateURL (f : currentFilters_t) : URLSearchParams :=
  ((if JS.truthy (search f) then [("search", search f)] else [])
   ++ (if JS.truthy (language f) then [("language", language f)] else [])
   ++ (match topics f with
       | [] => []
       | _ => [("topic", join_comma (topics f))]
       end)
   ++ (if (JS.truthy (sort f) && negb (String.eqb (sort f) SORT_OPTIONS.STARS_DESC))%bool
       then [("sort", sort f)] else []))%list.

(** A topic that [split(',')] reads back as one piece. *)
Definition no_comma (s : string) : Prop := JS.includes s "," = false.

End Filters.

(** ** js/services/storage.js: the data loader *)

Module StorageService.

Record metadata_t := {
  lastUpdated : option string;
  username : string;
  totalStars : Z;
  version : string
}.

(** The parsed data file as far as the loader looks at it: [d_metadata]
    is [None] when the property is missing or falsy, [d_repositories] is
    [None] when the property is not an array. *)
Record document := {
  d_metadata : option metadata_t;
  d_repositories : option (list Repo.t)
}.

(** What [response.json()] gives: a rejection for a body that is not
    JSON, [null], or a document. *)
Inductive body := InvalidJSON | NullBody | Document (d : document).

(** What [fetch(CONFIG.DATA_FILE)] gives: a rejection (network error) or
    a response. *)
Inductive fetch_outcome :=
| Unreachable
| Response (ok : bool) (status : Z) (b : body).

(** The object the loader resolves to; [metadata = None] would be a
    [null] metadata. *)
Record starsData := {
  metadata : option metadata_t;
  repositories : list Repo.t
}.

(** The object of the [catch] branch. *)
Definition fallback : starsData :=
  {| metadata := Some {| lastUpdated := None;
                         username := CONFIG.USERNAME;
                         totalStars := 0;
                         version := "1.0" |};
     repositories := [] |}.

(** [loadStarsData()] *)
Definition loadStarsData (o : fetch_outcome) : starsData :=
  match o with
  | Unreachable => fallback
  | Response false _ _ => fallback          (* throw: HTTP error *)
  | Response true _ InvalidJSON => fallback
  | Response true _ NullBody => fallback    (* TypeError on data.metadata *)
  | Response true _ (Document d) =>
      match d_metadata d, d_repositories d with
      | Some m, Some repos => {| metadata := Some m; repositories := repos |}
      | _, _ => fallback                    (* throw: Invalid data structure *)
      end
  end.

(** The outcomes the loader treats as failures. *)
Definition unreachable (o : fetch_outcome) : Prop :=
  match o with
  | Unreachable => True
  | Response ok _ _ => ok = false
  end.

Definition malformed (o : fetch_outcome) : Prop :=
  match o with
  | Response true _ InvalidJSON => True
  | Response true _ NullBody => True
  | Response true _ (Document d) => d_metadata d = None \/ d_repositories d = None
  | _ => False
  end.

(** [getUniqueLanguages(repositories)] *)
Definition add_language (seen : list string) (repo : Repo.t) : list string :=
  match Repo.language repo with
  | Some lang =>
      if (JS.truthy lang && negb (String.eqb lang "Unknown"))%bool
      then CustomData.set_add seen lang else seen
  | None => seen
  end.

Definition getUniqueLanguages (repositories : list Repo.t) : list string :=
  JS.sort JS.default_compare (fold_left add_language repositories []).

(** [getUniqueTopics(repositories)]; [Array.isArray(repo.topics)] fails on
    a record without topics. *)
Definition add_topics (seen : list string) (repo : Repo.t) : list string :=
  match Repo.topics repo with
  | Some tp => fold_left CustomData.set_add tp seen
  | None => seen
  end.

Definition getUniqueTopics (repositories : list Repo.t) : list string :=
  JS.sort JS.default_compare (fold_left add_topics repositories []).

(** [formatDate(dateString)].  [now] is the time value of [new Date()] at
    the call, [Date_time h] gives the time value of [new Date(dateString)]
    in milliseconds ([None] for an invalid date, whose NaN fails every
    comparison), and [toLocaleDateString] is the rendering of the host.
    Time values are integers, and a difference below 365 days and its
    quotient by the length of a day are exact in double precision.
    Nothing in the [try] block throws, so the [catch] branch is not
    reached. *)
Definition MS_PER_DAY : Z := 1000 * 60 * 60 * 24.

Definition ago (n : Z) (unit : string) : string :=
  Num.toString (Num.Int n) ++ String " " (unit ++ " ago").

Definition formatDate (h : Filters.host) (toLocaleDateString : option Z -> string)
    (now : Z) (dateString : option string) : string :=
  match dateString with
  | None => "Never"
  | Some s =>
      if negb (JS.truthy s) then "Never"
      else
        match Filters.Date_time h s with
        | None => toLocaleDateString None
        | Some date =>
            let diffTime := Z.abs (now - date) in
            let diffDays := (diffTime / MS_PER_DAY)%Z in
            if (diffDays =? 0)%Z then "Today"
            else if (diffDays =? 1)%Z then "Yesterday"
            else if (diffDays <? 7)%Z then ago diffDays "days"
            else if (diffDays <? 30)%Z then ago (diffDays / 7) "weeks"
            else if (diffDays <? 365)%Z then ago (diffDays / 30) "months"
            else toLocaleDateString (Some date)
        end
  end.

End StorageService.

(** ** js/app.js: what [init] hands to the filter engine *)

Module App.

(** A value of the array given to [initFilters]: a repository record, or
    a promise object. *)
Inductive value :=
| Record_ (r : Repo.t)
| PromiseObject (p : CustomData.Promise Repo.t).

(** Reading [v.custom_tags] and [v.notes]: a promise object has no such
    property, the result is [undefined]. *)
Definition get_custom_tags (v : value) : option (list string) :=
  match v with
  | Record_ r => Repo.custom_tags r
  | PromiseObject _ => None
  end.

Definition get_notes (v : value) : option string :=
  match v with
  | Record_ r => Repo.notes r
  | PromiseObject _ => None
  end.

(** [data.repositories.map(repo => mergeCustomData(repo))]: the results
    of the [async] function, which [init] does not await. *)
Definition repositoriesWithCustomData (st : LocalStorage.t)
    (data : StorageService.starsData) : list value :=
  map (fun repo => PromiseObject (CustomData.mergeCustomData st repo))
      (StorageService.repositories data).

(** [init], up to the call of [initFilters]: the filter state after
    [initURLFilters] and the array [initFilters] receives. *)
Definition init (o : StorageService.fetch_outcome) (st : LocalStorage.t)
    (params : Filters.URLSearchParams) : Filters.currentFilters_t * list value :=
  let data := StorageService.loadStarsData o in
  (Filters.initURLFilters params Filters.defaults,
   repositoriesWithCustomData st data).

End App.

(** ** js/ui/components.js: the chips of the active filters *)

Module Components.

(** An element of [activeFilters]; [value] is [undefined] on the search
    and the language chip. *)
Record chip := {
  label : string;
  type : Filters.filter_type;
  value : option string
}.

(** The three kinds of chip [updateActiveFilters(filters)] pushes. *)
Definition search_chip (s : string) : chip :=
  {| label := "Search: " ++ String JSON.dquote (s ++ String JSON.dquote "");
     type := Filters.FSearch; value := None |}.

Definition language_chip (lang : string) : chip :=
  {| label := "Language: " ++ lang; type := Filters.FLanguage; value := None |}.

Definition topic_chip (topic : string) : chip :=
  {| label := "Topic: " ++ topic; type := Filters.FTopic; value := Some topic |}.

(** The array [activeFilters] the function builds, one chip each. *)
Definition activeFilters (f : Filters.currentFilters_t) : list chip :=
  ((if JS.truthy (Filters.search f) then [search_chip (Filters.search f)] else [])
   ++ (if JS.truthy (Filters.language f)
       then [language_chip (Filters.language f)] else [])
   ++ map topic_chip (Filters.topics f))%list.

(** The 'removeFilter' event the button of a chip dispatches; the listener
    reads [value] for a topic only. *)
Definition chip_click (c : chip) : Filters.event :=
  Filters.RemoveFilter (type c)
    (match value c with Some v => v | None => "" end).

(** Two chips have the same type, label and value. *)
Definition filter_type_eqb (a b : Filters.filter_type) : bool :=
  match a, b with
  | Filters.FSearch, Filters.FSearch
  | Filters.FLanguage, Filters.FLanguage
  | Filters.FTopic, Filters.FTopic
  | Filters.FCustomTag, Filters.FCustomTag
  | Filters.FUnknown, Filters.FUnknown => true
  | _, _ => false
  end.

Definition chip_eqb (c d : chip) : bool :=
  filter_type_eqb (type c) (type d)
  && match value c, value d with
     | Some v, Some w => String.eqb v w
     | None, None => true
     | _, _ => false
     end
  && String.eqb (label c) (label d).

End Components.

(** ** Concrete inputs *)

Module Samples.

(** A record of the data file whose description is [null]. *)
Definition undescribed : Repo.t :=
  {| Repo.id := 3; Repo.name := "alpha"; Repo.full_name := "octo/alpha";
     Repo.owner := {| Repo.login := "octo"; Repo.avatar_url := "" |};
     Repo.description := None; Repo.language := Some "Go";
     Repo.topics := Some ["cli"]; Repo.stargazers_count := 10;
     Repo.updated_at := "2024-01-01T00:00:00Z"; Repo.starred_at := None;
     Repo.html_url := ""; Repo.custom_tags := None; Repo.notes := None |}.

(** A record with a description that the merge step has not touched. *)
Definition unmerged : Repo.t :=
  {| Repo.id := 8; Repo.name := "delta"; Repo.full_name := "octo/delta";
     Repo.owner := {| Repo.login := "octo"; Repo.avatar_url := "" |};
     Repo.description := Some "a tool"; Repo.language := Some "Go";
     Repo.topics := Some ["web"]; Repo.stargazers_count := 7;
     Repo.updated_at := "2024-01-01T00:00:00Z"; Repo.starred_at := None;
     Repo.html_url := ""; Repo.custom_tags := None; Repo.notes := None |}.

(** The repositories of the scenarios. *)
Definition scenario_repo (i : Z) (n lang : string) (stars : Z) (tp : list string)
  : Repo.t :=
  {| Repo.id := i; Repo.name := n; Repo.full_name := "octo/" ++ n;
     Repo.owner := {| Repo.login := "octo"; Repo.avatar_url := "" |};
     Repo.description := Some ""; Repo.language := Some lang;
     Repo.topics := Some tp; Repo.stargazers_count := stars;
     Repo.updated_at := "2024-01-01T00:00:00Z"; Repo.starred_at := None;
     Repo.html_url := ""; Repo.custom_tags := Some []; Repo.notes := Some "" |}.

Definition alpha : Repo.t := scenario_repo 1 "alpha" "Go" 10 ["cli"].
Definition beta : Repo.t := scenario_repo 2 "beta" "Rust" 50 ["web"].
Definition gamma : Repo.t := scenario_repo 3 "gamma" "Go" 5 [].

Definition alpha_fork : Repo.t := scenario_repo 4 "alpha-fork" "Go" 10 ["cli"].

(** A host whose [localeCompare] orders by code units and whose dates
    are all invalid. *)
Definition plain_host : Filters.host :=
  {| Filters.localeCompare := JS.default_compare;
     Filters.Date_time := fun _ => None |}.

Definition meta : StorageService.metadata_t :=
  {| StorageService.lastUpdated := Some "2024-01-02T00:00:00Z";
     StorageService.username := "octo";
     StorageService.totalStars := 1;
     StorageService.version := "1.0" |}.

(** A data file with that one record, fetched with status 200. *)
Definition one_record : StorageService.fetch_outcome :=
  StorageService.Response true 200
    (StorageService.Document
       {| StorageService.d_metadata := Some meta;
          StorageService.d_repositories := Some [undescribed] |}).

(** A storage that holds a tag and a note for repository 3. *)
Definition annotated : LocalStorage.t :=
  {| LocalStorage.items :=
       [("custom_tags_3", JSON.stringify ["cool"]); ("notes_3", "nice")];
     LocalStorage.quota := 5000 |}.

(** A storage with the tags of two repositories and an entry of another
    feature. *)
Definition two_tagged : LocalStorage.t :=
  {| LocalStorage.items :=
       [("custom_tags_1", JSON.stringify ["web"; "cool"]);
        ("dark_mode", "true");
        ("custom_tags_2", JSON.stringify ["cool"; "cli"])];
     LocalStorage.quota := 5000 |}.

(** An import document whose note for repository 1 is not a string. *)
Definition bad_note : CustomData.document :=
  {| CustomData.doc_tags := Some [("1", CustomData.Tags ["a"])];
     CustomData.doc_notes := Some [("1", CustomData.NotText)] |}.

(** An import document without a [notes] section. *)
Definition no_notes : CustomData.document :=
  {| CustomData.doc_tags := Some [("1", CustomData.Tags ["a"])];
     CustomData.doc_notes := None |}.

(** A storage with annotations of repositories 3 and 7 and the theme
    preference. *)
Definition mixed : LocalStorage.t :=
  {| LocalStorage.items :=
       [("custom_tags_3", JSON.stringify ["cool"]);
        ("dark_mode", "dark");
        ("notes_3", "nice");
        ("notes_7", "read later")];
     LocalStorage.quota := 5000 |}.


Definition bad_tags : LocalStorage.t :=
  {| LocalStorage.items := [("custom_tags_1", "not json")];
     LocalStorage.quota := 5000 |}.


(** An import document whose tags for repository 3 are [null]. *)
Definition null_tags : CustomData.document :=
  {| CustomData.doc_tags := Some [("3", CustomData.NotTags "null")];
     CustomData.doc_notes := Some [] |}.


(** A host that knows two dates of January 2024, three days before and
    three days after noon of the seventh. *)
Definition january_host : Filters.host :=
  {| Filters.localeCompare := JS.default_compare;
     Filters.Date_time := fun text =>
       if String.eqb text "2024-01-04T12:00:00Z" then Some 1704369600000%Z
       else if String.eqb text "2024-01-10T12:00:00Z" then Some 1704888000000%Z
       else None |}.

Definition january_7_noon : Z := 1704628800000.

(** Two records, the first updated on the fourth and the second on the
    tenth of January 2024. *)
Definition dated (i : Z) (n date : string) : Repo.t :=
  {| Repo.id := i; Repo.name := n; Repo.full_name := "octo/" ++ n;
     Repo.owner := {| Repo.login := "octo"; Repo.avatar_url := "" |};
     Repo.description := Some ""; Repo.language := Some "Go";
     Repo.topics := Some []; Repo.stargazers_count := 1;
     Repo.updated_at := date; Repo.starred_at := None;
     Repo.html_url := ""; Repo.custom_tags := Some []; Repo.notes := Some "" |}.

Definition earlier : Repo.t := dated 1 "earlier" "2024-01-04T12:00:00Z".
Definition later : Repo.t := dated 2 "later" "2024-01-10T12:00:00Z".

(** A rendering of the host for the dates further away. *)
Definition iso_day (date : option Z) : string :=
  match date with
  | Some t => Num.toString (Num.Int (t / StorageService.MS_PER_DAY))
  | None => "Invalid Date"
  end.

(** The record of a card with one tag, and a storage that mirrors it and
    has no room left. *)
Definition tagged_card : Repo.t := Cards.set_custom_tags undescribed ["cool"].

Definition full : LocalStorage.t :=
  {| LocalStorage.items := [("custom_tags_3", JSON.stringify ["cool"])];
     LocalStorage.quota := 21 |}.

End Samples.

(** * Properties *)

(** Case analysis on the 256 code units. *)
Ltac by_code_unit c := destruct c as [[] [] [] [] [] [] [] []]; reflexivity.

(** ** Strings *)

Lemma prefix_app (p rest : string) : String.prefix p (p ++ rest) = true.
Proof.
  induction p as [|c p IH]; simpl.
  - now destruct rest.
  - destruct (ascii_dec c c) as [_|n]; [exact IH | now elim n].
Qed.

Lemma prefix_split (p s : string) :
  String.prefix p s = true -> exists rest, s = p ++ rest.
Proof.
  revert s; induction p as [|c p IH]; intros s H.
  - now exists s.
  - destruct s as [|d s]; simpl in H; [discriminate|].
    destruct (ascii_dec c d) as [->|]; [|discriminate].
    destruct (IH _ H) as [rest ->]. now exists rest.
Qed.

(** [s.includes(sub)] holds exactly when [sub] occurs in [s]. *)
Lemma includes_spec (s sub : string) :
  JS.includes s sub = true <-> exists pre post, s = pre ++ sub ++ post.
Proof.
  split.
  - induction s as [|c s IH]; intros H; cbn [JS.includes] in H.
    + rewrite orb_false_r in H. apply prefix_split in H as [rest H].
      exists "", rest. exact H.
    + apply orb_true_iff in H as [H|H].
      * apply prefix_split in H as [rest H]. exists "", rest. exact H.
      * destruct (IH H) as (pre & post & ->). now exists (String c pre), post.
  - intros (pre & post & ->). induction pre as [|c pre IH].
    + cbn [append]. destruct (sub ++ post) eqn:E; cbn [JS.includes];
        rewrite <- E, prefix_app; reflexivity.
    + cbn [append JS.includes]. rewrite IH. apply orb_true_r.
Qed.

Lemma is_space_lower (c : ascii) : JS.is_space (JS.lower_char c) = JS.is_space c.
Proof. by_code_unit c. Qed.

Lemma lower_char_idem (c : ascii) : JS.lower_char (JS.lower_char c) = JS.lower_char c.
Proof. by_code_unit c. Qed.

Lemma toLowerCase_idem (s : string) : JS.toLowerCase (JS.toLowerCase s) = JS.toLowerCase s.
Proof. induction s; simpl; [|rewrite lower_char_idem, IHs]; reflexivity. Qed.

Lemma trimStart_lower (s : string) :
  JS.trimStart (JS.toLowerCase s) = JS.toLowerCase (JS.trimStart s).
Proof.
  induction s as [|c s IH]; simpl; [reflexivity|].
  rewrite is_space_lower. destruct (JS.is_space c); [exact IH | reflexivity].
Qed.

Lemma trimEnd_lower (s : string) :
  JS.trimEnd (JS.toLowerCase s) = JS.toLowerCase (JS.trimEnd s).
Proof.
  induction s as [|c s IH]; simpl; [reflexivity|].
  rewrite IH, is_space_lower.
  destruct (JS.trimEnd s); simpl; [destruct (JS.is_space c)|]; reflexivity.
Qed.

Lemma trim_lower (s : string) : JS.trim (JS.toLowerCase s) = JS.toLowerCase (JS.trim s).
Proof. unfold JS.trim. now rewrite trimStart_lower, trimEnd_lower. Qed.

Lemma trimEnd_idem (s : string) : JS.trimEnd (JS.trimEnd s) = JS.trimEnd s.
Proof.
  induction s as [|c s IH]; simpl; [reflexivity|].
  destruct (JS.trimEnd s) as [|d t] eqn:E.
  - destruct (JS.is_space c) eqn:Hc; simpl; [|rewrite Hc]; reflexivity.
  - simpl in *. rewrite IH. reflexivity.
Qed.

Lemma trimStart_no_leading (s : string) : JS.no_leading_space (JS.trimStart s).
Proof.
  induction s as [|c s IH]; simpl; [exact I|].
  destruct (JS.is_space c) eqn:Hc; [exact IH | exact Hc].
Qed.

Lemma trimStart_trimEnd (t : string) :
  JS.no_leading_space t -> JS.trimStart (JS.trimEnd t) = JS.trimEnd t.
Proof.
  destruct t as [|c t]; simpl; [reflexivity|]. intros Hc.
  destruct (JS.trimEnd t); simpl; rewrite Hc; simpl; rewrite ?Hc; reflexivity.
Qed.

Lemma trim_idem (s : string) : JS.trim (JS.trim s) = JS.trim s.
Proof.
  unfold JS.trim.
  rewrite (trimStart_trimEnd _ (trimStart_no_leading s)). apply trimEnd_idem.
Qed.

(** What [value.toLowerCase().trim()] and [value.trim().toLowerCase()]
    produce is lowercase and trimmed. *)
Lemma lower_trim_normalized (v : string) :
  Filters.normalized_search (JS.toLowerCase (JS.trim v)).
Proof.
  split.
  - apply toLowerCase_idem.
  - now rewrite trim_lower, trim_idem.
Qed.

(** ** Sorting *)

Lemma insert_perm {A} (cmp : A -> A -> Z) (x : A) (l : list A) :
  Permutation (x :: l) (JS.insert cmp x l).
Proof.
  induction l as [|y r IH]; simpl; [reflexivity|].
  destruct (cmp x y <=? 0)%Z; [reflexivity|].
  rewrite perm_swap. now constructor.
Qed.

(** [sort] rearranges the array and neither adds nor drops an element. *)
Lemma sort_perm {A} (cmp : A -> A -> Z) (l : list A) :
  Permutation l (JS.sort cmp l).
Proof.
  induction l as [|x t IH]; simpl; [constructor|].
  rewrite <- insert_perm. now constructor.
Qed.

Lemma sortRepositories_perm (h : Filters.host) (repos : list Repo.t) (o : string) :
  Permutation repos (Filters.sortRepositories h repos o).
Proof.
  unfold Filters.sortRepositories.
  repeat match goal with |- context [if ?b then _ else _] => destruct b end;
    apply sort_perm.
Qed.

(** ** The filter engine *)

Lemma filter_throwing_In {A} (pred : A -> option bool) (l a : list A) :
  Filters.filter_throwing pred l = Some a ->
  forall x, In x a <-> In x l /\ pred x = Some true.
Proof.
  revert a; induction l as [|y t IH]; simpl; intros a H x.
  - injection H as <-. simpl. tauto.
  - destruct (pred y) as [b|] eqn:Hy; [|discriminate].
    destruct (Filters.filter_throwing pred t) as [r|]; [|discriminate].
    injection H as <-. specialize (IH r eq_refl x).
    destruct b; simpl; rewrite IH; intuition (subst; auto; congruence).
Qed.

(** The search filter evaluates on every record that has a description. *)
Lemma search_predicate_described (s : string) (repo : Repo.t) (d : string) :
  Repo.description repo = Some d ->
  Filters.search_predicate s repo =
  Some (JS.includes (JS.toLowerCase (Repo.name repo)) s
        || JS.includes (JS.toLowerCase d) s
        || JS.includes (JS.toLowerCase (Repo.full_name repo)) s
        || JS.includes (JS.toLowerCase (Repo.login (Repo.owner repo))) s).
Proof.
  intros Hd. unfold Filters.search_predicate. rewrite Hd. simpl.
  repeat match goal with |- context [JS.includes ?a ?b] =>
    destruct (JS.includes a b); simpl end; reflexivity.
Qed.

(** On a record without a description the search filter stops with a
    TypeError unless the name already matches. *)
Lemma search_predicate_null_description (s : string) (repo : Repo.t) :
  Repo.description repo = None ->
  Filters.search_predicate s repo =
  if JS.includes (JS.toLowerCase (Repo.name repo)) s then Some true else None.
Proof.
  intros Hd. unfold Filters.search_predicate. rewrite Hd. simpl.
  destruct (JS.includes _ s); reflexivity.
Qed.

(** Each of the steps 2 to 4 keeps the records that satisfy a condition
    on the record alone. *)
Section Steps.

Variable f : Filters.currentFilters_t.
Variable l : list Repo.t.
Variable r : Repo.t.

Lemma language_step_In :
  In r (Filters.language_step f l) <->
  In r l /\ (JS.truthy (Filters.language f) = true ->
             Filters.language_predicate (Filters.language f) r = true).
Proof.
  unfold Filters.language_step. destruct (JS.truthy (Filters.language f)).
  - rewrite filter_In. intuition.
  - intuition discriminate.
Qed.

Lemma topics_step_In :
  In r (Filters.topics_step f l) <->
  In r l /\ Filters.has_all (Repo.topics r) (Filters.topics f) = true.
Proof.
  unfold Filters.topics_step. destruct (Filters.topics f) eqn:E.
  - simpl. tauto.
  - rewrite filter_In. tauto.
Qed.

Lemma customTags_step_In :
  In r (Filters.customTags_step f l) <->
  In r l /\ Filters.has_all (Repo.custom_tags r) (Filters.customTags f) = true.
Proof.
  unfold Filters.customTags_step. destruct (Filters.customTags f) eqn:E.
  - simpl. tauto.
  - rewrite filter_In. tauto.
Qed.

End Steps.

(** [has_all arr selected]: the array is a superset of the selection. *)
Lemma has_all_superset (arr : option (list string)) (selected : list string) :
  Filters.has_all arr selected = true <->
  forall x, In x selected -> exists a, arr = Some a /\ In x a.
Proof.
  unfold Filters.has_all. rewrite forallb_forall.
  split; intros H x Hx; specialize (H x Hx).
  - destruct arr as [a|]; [|discriminate]. exists a. split; [reflexivity|].
    unfold JS.arr_includes in H. apply existsb_exists in H as (y & Hy & E).
    apply String.eqb_eq in E. now subst.
  - destruct H as (a & -> & Hin). unfold JS.arr_includes.
    apply existsb_exists. exists x. split; [exact Hin | apply String.eqb_refl].
Qed.

(** *** The steps against the predicates of the specification *)

Lemma filter_throwing_total {A} (pred : A -> option bool) (l a : list A) :
  Filters.filter_throwing pred l = Some a -> forall x, In x l -> pred x <> None.
Proof.
  revert a; induction l as [|y t IH]; simpl; intros a H x Hx; [destruct Hx|].
  destruct (pred y) as [b|] eqn:Hy; [|discriminate].
  destruct (Filters.filter_throwing pred t) as [r|]; [|discriminate].
  destruct Hx as [<-|Hx]; [congruence | exact (IH r eq_refl x Hx)].
Qed.

Lemma includes_lower (v S : string) :
  JS.includes (JS.toLowerCase v) S = true <->
  exists pre post, option_map JS.toLowerCase (Some v) = Some (pre ++ S ++ post).
Proof.
  rewrite includes_spec. simpl. split; intros (pre & post & E); exists pre, post; congruence.
Qed.

(** When the arrow function of the search filter returns, it returns
    whether one of the four fields matches. *)
Lemma search_predicate_matches (S : string) (r : Repo.t) (b : bool) :
  Filters.search_predicate S r = Some b ->
  (b = true <-> Filters.matches_search S r).
Proof.
  unfold Filters.search_predicate, Filters.matches_search, Filters.field_matches.
  destruct (JS.includes (JS.toLowerCase (Repo.name r)) S) eqn:E1; cbn [Filters.or_else].
  { intros [= <-]. split; [intros _|reflexivity].
    apply includes_lower in E1 as (pre & post & E). exists (Some (Repo.name r)), pre, post.
    split; [now left | exact E]. }
  destruct (Repo.description r) as [d|] eqn:Ed; [|discriminate].
  destruct (JS.includes (JS.toLowerCase d) S) eqn:E2; cbn [Filters.or_else].
  { intros [= <-]. split; [intros _|reflexivity].
    apply includes_lower in E2 as (pre & post & E). exists (Some d), pre, post.
    split; [right; now left | exact E]. }
  destruct (JS.includes (JS.toLowerCase (Repo.full_name r)) S) eqn:E3; cbn [Filters.or_else].
  { intros [= <-]. split; [intros _|reflexivity].
    apply includes_lower in E3 as (pre & post & E). exists (Some (Repo.full_name r)), pre, post.
    split; [right; right; now left | exact E]. }
  intros [= <-]. split; intros H.
  - destruct (JS.includes (JS.toLowerCase (Repo.login (Repo.owner r))) S) eqn:E4;
      [|discriminate].
    apply includes_lower in E4 as (pre & post & E).
    exists (Some (Repo.login (Repo.owner r))), pre, post.
    split; [right; right; right; now left | exact E].
  - destruct H as (field & pre & post & Hin & E).
    assert (Hm : exists v, field = Some v /\ JS.includes (JS.toLowerCase v) S = true).
    { destruct field as [v|]; [|discriminate E]. exists v. split; [reflexivity|].
      apply includes_lower. now exists pre, post. }
    destruct Hm as (v & -> & Hv).
    destruct Hin as [[= <-]|[[= <-]|[[= <-]|[[= <-]|[]]]]]; congruence.
Qed.

(** The empty search string matches every record. *)
Lemma matches_search_empty (r : Repo.t) : Filters.matches_search "" r.
Proof.
  exists (Some (Repo.name r)), "", (JS.toLowerCase (Repo.name r)).
  split; [now left | reflexivity].
Qed.

(** When the search step returns, it keeps the records that match. *)
Lemma search_step_In (f : Filters.currentFilters_t) (l a : list Repo.t) (r : Repo.t) :
  Filters.search_step f l = Some a ->
  (In r a <-> In r l /\ Filters.matches_search (Filters.search f) r).
Proof.
  unfold Filters.search_step. destruct (Filters.search f) as [|c S] eqn:Es; cbn [JS.truthy].
  - intros [= <-]. pose proof (matches_search_empty r). tauto.
  - intros H. rewrite (filter_throwing_In _ _ _ H).
    split; intros [Hin Hm]; (split; [exact Hin|]).
    + exact (proj1 (search_predicate_matches _ _ _ Hm) eq_refl).
    + destruct (Filters.search_predicate (String c S) r) as [b|] eqn:Eb.
      * now rewrite (proj2 (search_predicate_matches _ _ _ Eb) Hm).
      * elim (filter_throwing_total _ _ _ H r Hin Eb).
Qed.

Lemma language_step_matches (f : Filters.currentFilters_t) (l : list Repo.t) (r : Repo.t) :
  In r (Filters.language_step f l) <->
  In r l /\ Filters.matches_language (Filters.language f) r.
Proof.
  rewrite language_step_In. unfold Filters.matches_language, Filters.language_predicate.
  destruct (Filters.language f) as [|c L]; cbn [JS.truthy].
  - intuition discriminate.
  - split; intros [Hin H]; (split; [exact Hin|]).
    + right. specialize (H eq_refl). destruct (Repo.language r) as [v|]; [|discriminate].
      apply String.eqb_eq in H. now subst.
    + intros _. destruct H as [H|H]; [discriminate|]. rewrite H. apply String.eqb_refl.
Qed.

(** The list [applyFilters] renders holds the records that match the four
    predicates. *)
Lemma filtered_In (h : Filters.host) (f : Filters.currentFilters_t)
    (all l1 : list Repo.t) (r : Repo.t) :
  Filters.search_step f all = Some l1 ->
  In r (Filters.sortRepositories h
          (Filters.customTags_step f (Filters.topics_step f (Filters.language_step f l1)))
          (Filters.sort f)) <->
  In r all /\ Filters.matches_search (Filters.search f) r /\
  Filters.matches_language (Filters.language f) r /\
  Filters.matches_topics (Filters.topics f) r /\
  Filters.matches_tags (Filters.customTags f) r.
Proof.
  intros Hs.
  transitivity (In r (Filters.customTags_step f (Filters.topics_step f
                        (Filters.language_step f l1)))).
  - split; intros H.
    + eapply Permutation_in; [symmetry; apply sortRepositories_perm | exact H].
    + eapply Permutation_in; [apply sortRepositories_perm | exact H].
  - rewrite customTags_step_In, topics_step_In, language_step_matches,
      (search_step_In f all l1 r Hs), !has_all_superset.
    unfold Filters.matches_topics, Filters.matches_tags. tauto.
Qed.

(** [renderRepositories] throws exactly on a list with a record that has
    no [custom_tags]. *)
Lemma renderRepositories_None (l : list Repo.t) :
  Cards.renderRepositories l = None <->
  exists r, In r l /\ Repo.custom_tags r = None.
Proof.
  induction l as [|x l IH]; cbn [Cards.renderRepositories].
  - split; [discriminate | intros (r & H & _); destruct H].
  - unfold Cards.createRepoCard. destruct (Repo.custom_tags x) as [tags|] eqn:Ex.
    + destruct (Cards.renderRepositories l) as [cards|].
      * split; [discriminate|]. intros (r & [<-|Hr] & E); [congruence|].
        assert (H : Some cards = None) by (apply IH; now exists r). discriminate H.
      * split; [intros _|reflexivity].
        destruct (proj1 IH eq_refl) as (r & Hr & E). exists r. split; [now right | exact E].
    + split; [intros _|reflexivity]. exists x. split; [now left | exact Ex].
Qed.

(** [applyFilters] on an input on which the search step returns. *)
Lemma applyFilters_rendered (h : Filters.host) (f : Filters.currentFilters_t)
    (all l1 : list Repo.t) :
  Filters.search_step f all = Some l1 ->
  let filtered :=
    Filters.sortRepositories h
      (Filters.customTags_step f (Filters.topics_step f (Filters.language_step f l1)))
      (Filters.sort f) in
  ((exists r, In r filtered /\ Repo.custom_tags r = None) ->
   Filters.applyFilters h f all = None) /\
  ((forall r, In r filtered -> Repo.custom_tags r <> None) ->
   Filters.applyFilters h f all = Some filtered).
Proof.
  intros Hs filtered. unfold Filters.applyFilters. rewrite Hs. fold filtered.
  destruct (Cards.renderRepositories filtered) as [cards|] eqn:Er.
  - split; [|reflexivity]. intros H. apply renderRepositories_None in H. congruence.
  - split; [reflexivity|]. intros H. apply renderRepositories_None in Er as (r & Hr & E).
    elim (H r Hr E).
Qed.

(** When [applyFilters] returns, the records on the page are the records
    of the input that match the four predicates. *)
Lemma applyFilters_Some_In (h : Filters.host) (f : Filters.currentFilters_t)
    (all out : list Repo.t) (r : Repo.t) :
  Filters.applyFilters h f all = Some out ->
  In r out <->
  In r all /\ Filters.matches_search (Filters.search f) r /\
  Filters.matches_language (Filters.language f) r /\
  Filters.matches_topics (Filters.topics f) r /\
  Filters.matches_tags (Filters.customTags f) r.
Proof.
  unfold Filters.applyFilters.
  destruct (Filters.search_step f all) as [l1|] eqn:Hs; [|discriminate].
  cbv zeta. destruct (Cards.renderRepositories _); [|discriminate].
  intros [= <-]. exact (filtered_In h f all l1 r Hs).
Qed.

(** The search step returns when no search string is set, and when every
    record has a description. *)
Lemma search_step_returns (f : Filters.currentFilters_t) (all : list Repo.t) :
  Filters.search f = "" \/ (forall r, In r all -> Repo.description r <> None) ->
  exists l1, Filters.search_step f all = Some l1.
Proof.
  unfold Filters.search_step. intros [->|Hd]; [simpl; eauto|].
  destruct (JS.truthy (Filters.search f)); [|eauto].
  induction all as [|x t IH]; simpl; [eauto|].
  destruct (Repo.description x) as [d|] eqn:Ex; [|elim (Hd x (or_introl eq_refl) Ex)].
  rewrite (search_predicate_described _ _ _ Ex).
  destruct IH as [l1 ->]; [intros r Hr; apply Hd; now right|]. eauto.
Qed.

(** C2 (the claim as stated fails). With the search string [bet] the
    record [beta] matches the four predicates, yet on a list that also
    holds a record without a description [applyFilters] throws and shows
    no set; and it throws without any filter on a list with a record that
    the merge step has not given a [custom_tags] array. *)
Lemma applyFilters_produces_no_set :
  let f := Filters.set_search "bet" Filters.defaults in
  Filters.matches_search (Filters.search f) Samples.beta /\
  Filters.matches_language (Filters.language f) Samples.beta /\
  Filters.matches_topics (Filters.topics f) Samples.beta /\
  Filters.matches_tags (Filters.customTags f) Samples.beta /\
  Filters.applyFilters Samples.plain_host f [Samples.beta; Samples.undescribed] = None /\
  Filters.applyFilters Samples.plain_host Filters.defaults
    [Samples.alpha; Samples.unmerged] = None.
Proof.
  cbv zeta. split; [|split; [|split; [|split; [|split; reflexivity]]]].
  - exists (Some "beta"), "", "a". split; [now left | reflexivity].
  - now left.
  - intros t [].
  - intros t [].
Qed.

(** C2 (amended). Filtering is conjunctive: on a list of records that
    all have a [custom_tags] array, when no search string is set or every
    record has a description, [applyFilters] returns, and a record of the
    input is shown exactly when it matches each of the four predicates:
    the search string occurs in one of its four fields, the selected
    language (if any) is its language, its topics include every selected
    topic, and its custom tags include every selected tag. *)
Theorem applyFilters_conjunctive (h : Filters.host) (f : Filters.currentFilters_t)
    (allRepositories : list Repo.t) :
  (Filters.search f = "" \/
   forall r, In r allRepositories -> Repo.description r <> None) ->
  (forall r, In r allRepositories -> Repo.custom_tags r <> None) ->
  exists out,
    Filters.applyFilters h f allRepositories = Some out /\
    forall r, In r out <->
      In r allRepositories /\
      Filters.matches_search (Filters.search f) r /\
      Filters.matches_language (Filters.language f) r /\
      Filters.matches_topics (Filters.topics f) r /\
      Filters.matches_tags (Filters.customTags f) r.
Proof.
  intros Hd Ht. destruct (search_step_returns f allRepositories Hd) as [l1 Hs].
  destruct (applyFilters_rendered h f allRepositories l1 Hs) as [_ Hret].
  eexists. split.
  - apply Hret. intros r Hr. apply Ht.
    exact (proj1 (proj1 (filtered_In h f allRepositories l1 r Hs) Hr)).
  - intros r. exact (filtered_In h f allRepositories l1 r Hs).
Qed.

Lemma applyFilters_conjunctive_witness :
  exists out,
    Filters.applyFilters Samples.plain_host
      (Filters.set_topics ["cli"] (Filters.set_language "Go" Filters.defaults))
      [Samples.alpha; Samples.beta; Samples.gamma] = Some out /\
    forall r, In r out <->
      In r [Samples.alpha; Samples.beta; Samples.gamma] /\
      Filters.matches_search "" r /\
      Filters.matches_language "Go" r /\
      Filters.matches_topics ["cli"] r /\
      Filters.matches_tags [] r.
Proof.
  apply (applyFilters_conjunctive Samples.plain_host
           (Filters.set_topics ["cli"] (Filters.set_language "Go" Filters.defaults))
           [Samples.alpha; Samples.beta; Samples.gamma]).
  - left. reflexivity.
  - intros r [<-|[<-|[<-|[]]]]; discriminate.
Defined.

(** The scenarios of the filter engine. *)
Example filter_by_language_scenario :
  Filters.applyFilters Samples.plain_host
    (Filters.set_language "Go" Filters.defaults) [Samples.alpha; Samples.beta]
  = Some [Samples.alpha].
Proof. reflexivity. Qed.

Example sort_stars_desc_scenario :
  option_map (map Repo.stargazers_count)
    (Filters.applyFilters Samples.plain_host Filters.defaults
       [Samples.alpha; Samples.beta; Samples.gamma])
  = Some [50; 10; 5]%Z.
Proof. reflexivity. Qed.

(** C1 (evaluation at the failing input). A record without a description
    whose name does not contain the search string: the search step throws
    a TypeError instead of returning, and so does [applyFilters]. *)
Theorem search_step_throws_on_null_description :
  Repo.description Samples.undescribed = None /\
  Filters.search_predicate "zzz" Samples.undescribed = None /\
  Filters.search_step (Filters.set_search "zzz" Filters.defaults)
    [Samples.undescribed] = None /\
  forall h, Filters.applyFilters h (Filters.set_search "zzz" Filters.defaults)
              [Samples.undescribed] = None.
Proof. repeat split. Qed.

(** The debounced listener of the search box stores a lowercase, trimmed
    string. *)
Lemma SearchInput_normalized (value : string) (f : Filters.currentFilters_t) :
  Filters.normalized_search
    (Filters.search (Filters.handle (Filters.SearchInput value) f)).
Proof.
  simpl. rewrite trim_lower. apply lower_trim_normalized.
Qed.

(** Every listener other than the programmatic [updateFilters] keeps a
    lowercase, trimmed search string lowercase and trimmed. *)
Lemma handle_keeps_normalized (e : Filters.event) (f : Filters.currentFilters_t) :
  (forall p, e <> Filters.UpdateFilters p) ->
  Filters.normalized_search (Filters.search f) ->
  Filters.normalized_search (Filters.search (Filters.handle e f)).
Proof.
  intros Hp Hf. destruct e as [v|v|v|ty v|t|t|p|];
    [exact (SearchInput_normalized v f)| | | | | | |]; simpl; auto.
  - destruct ty; simpl; auto; split; reflexivity.
  - destruct (JS.arr_includes _ _); auto.
  - destruct (JS.arr_includes _ _); auto.
  - now elim (Hp p).
  - split; reflexivity.
Qed.

(** C9 (evaluation at the failing input). With the query [?search=Hello]
    the state [initURLFilters] leaves is reachable and its search string is
    the raw parameter, which is not lowercase. *)
Theorem initURLFilters_keeps_raw_search :
  let f := Filters.initURLFilters [("search", "Hello")] Filters.defaults in
  Filters.reachable f /\
  Filters.search f = "Hello" /\
  ~ Filters.normalized_search (Filters.search f).
Proof.
  repeat split.
  - apply Filters.reach_init.
  - intros [H _]. discriminate H.
Qed.

(** ** The data loader *)

(** C7 (counterexample). On a network error the loader returns a metadata
    object, not [null]. *)
Lemma network_error_metadata_not_null :
  StorageService.unreachable StorageService.Unreachable /\
  StorageService.metadata
    (StorageService.loadStarsData StorageService.Unreachable) <> None.
Proof. split; [exact I | discriminate]. Qed.

(** C7 (amended). For every malformed or unreachable fetch outcome the
    loader returns, without throwing, the fallback structure: an empty
    repository list and a default metadata object whose [lastUpdated] is
    [null]. *)
Theorem loadStarsData_fallback (o : StorageService.fetch_outcome) :
  StorageService.malformed o \/ StorageService.unreachable o ->
  StorageService.loadStarsData o = StorageService.fallback /\
  StorageService.repositories (StorageService.loadStarsData o) = [] /\
  exists m, StorageService.metadata (StorageService.loadStarsData o) = Some m /\
            StorageService.lastUpdated m = None /\
            StorageService.username m = CONFIG.USERNAME /\
            StorageService.totalStars m = 0%Z.
Proof.
  intros H.
  assert (E : StorageService.loadStarsData o = StorageService.fallback).
  { destruct o as [|[] status [| |d]]; simpl in *; try reflexivity.
    destruct H as [[H|H]|H]; [| |discriminate]; rewrite H;
      [|destruct (StorageService.d_metadata d)]; reflexivity. }
  rewrite E. repeat split. eexists. repeat split.
Qed.

Lemma loadStarsData_fallback_witness :
  StorageService.loadStarsData (StorageService.Response false 404 StorageService.InvalidJSON)
    = StorageService.fallback /\
  StorageService.repositories
    (StorageService.loadStarsData (StorageService.Response false 404 StorageService.InvalidJSON)) = [] /\
  exists m, StorageService.metadata
              (StorageService.loadStarsData (StorageService.Response false 404 StorageService.InvalidJSON)) = Some m /\
            StorageService.lastUpdated m = None /\
            StorageService.username m = CONFIG.USERNAME /\
            StorageService.totalStars m = 0%Z.
Proof.
  apply (loadStarsData_fallback (StorageService.Response false 404 StorageService.InvalidJSON)).
  right. reflexivity.
Defined.

(** ** localStorage *)

Lemma lookup_put_same (k v : string) (l : list (string * string)) :
  LocalStorage.lookup (LocalStorage.put k v l) k = Some v.
Proof.
  induction l as [|[k' v'] r IH]; simpl.
  - now rewrite String.eqb_refl.
  - destruct (String.eqb k' k) eqn:E; simpl.
    + now rewrite String.eqb_refl.
    + now rewrite E.
Qed.

Lemma lookup_put_other (k k' v : string) (l : list (string * string)) :
  k <> k' ->
  LocalStorage.lookup (LocalStorage.put k v l) k' = LocalStorage.lookup l k'.
Proof.
  intros Hne. induction l as [|[k0 v0] r IH]; simpl.
  - destruct (String.eqb_spec k k'); [contradiction | reflexivity].
  - destruct (String.eqb_spec k0 k) as [->|]; simpl.
    + destruct (String.eqb_spec k k'); [contradiction | reflexivity].
    + now rewrite IH.
Qed.

Lemma lookup_remove_same (k : string) (l : list (string * string)) :
  LocalStorage.lookup (LocalStorage.remove k l) k = None.
Proof.
  induction l as [|[k' v'] r IH]; simpl; [reflexivity|].
  destruct (String.eqb k' k) eqn:E; simpl; [exact IH | now rewrite E].
Qed.

Lemma lookup_remove_other (k k' : string) (l : list (string * string)) :
  k <> k' ->
  LocalStorage.lookup (LocalStorage.remove k l) k' = LocalStorage.lookup l k'.
Proof.
  intros Hne. induction l as [|[k0 v0] r IH]; simpl; [reflexivity|].
  destruct (String.eqb_spec k0 k) as [->|]; simpl.
  - rewrite IH. destruct (String.eqb_spec k k'); [contradiction | reflexivity].
  - now rewrite IH.
Qed.

Lemma setItem_getItem (st st' : LocalStorage.t) (k v : string) :
  LocalStorage.setItem st k v = Some st' -> LocalStorage.getItem st' k = Some v.
Proof.
  unfold LocalStorage.setItem, LocalStorage.getItem.
  destruct (_ <=? _)%nat; [|discriminate]. intros [= <-]. apply lookup_put_same.
Qed.

Lemma setItem_getItem_other (st st' : LocalStorage.t) (k k' v : string) :
  k <> k' -> LocalStorage.setItem st k v = Some st' ->
  LocalStorage.getItem st' k' = LocalStorage.getItem st k'.
Proof.
  unfold LocalStorage.setItem, LocalStorage.getItem.
  destruct (_ <=? _)%nat; [|discriminate]. intros Hne [= <-].
  now apply lookup_put_other.
Qed.

(** ** Notes *)

(** Blank notes delete the entry: afterwards the storage has no entry for
    the repository and [getNotes] gives the empty string. *)
Lemma setNotes_blank (st : LocalStorage.t) (repoId : Num.number) (s : string) :
  JS.trim s = "" ->
  let r := CustomData.setNotes st repoId (CustomData.Text s) in
  fst r = true /\
  LocalStorage.getItem (snd r) (CustomData.notes_key repoId) = None /\
  CustomData.getNotes (snd r) repoId = "".
Proof.
  intros Hs. unfold CustomData.setNotes, CustomData.getNotes. rewrite Hs. simpl.
  unfold LocalStorage.getItem, LocalStorage.removeItem. simpl.
  now rewrite lookup_remove_same.
Qed.

(** Notes with visible text are stored as they were given, when they fit. *)
Lemma setNotes_text (st st' : LocalStorage.t) (repoId : Num.number) (s : string) :
  JS.trim s <> "" ->
  LocalStorage.setItem st (CustomData.notes_key repoId) s = Some st' ->
  CustomData.setNotes st repoId (CustomData.Text s) = (true, st') /\
  CustomData.getNotes st' repoId = s.
Proof.
  intros Hs Hset. unfold CustomData.setNotes, CustomData.getNotes.
  destruct (JS.trim s); [contradiction|]. simpl. rewrite Hset.
  now rewrite (setItem_getItem _ _ _ _ Hset).
Qed.

(** C3 (evaluation at the failing input). [setNotes(3, " hi ")] stores the
    text with its surrounding spaces, which differs from the trimmed
    text. *)
Theorem setNotes_stores_untrimmed :
  let r := CustomData.setNotes (LocalStorage.empty 100) (Num.Int 3)
             (CustomData.Text " hi ") in
  fst r = true /\
  LocalStorage.getItem (snd r) "notes_3" = Some " hi " /\
  CustomData.getNotes (snd r) (Num.Int 3) = " hi " /\
  JS.trim " hi " = "hi".
Proof. repeat split. Qed.

(** ** The merge step and [init] *)

(** The value the promise of [mergeCustomData] is fulfilled with carries
    the stored tags and notes and the other fields of the record. *)
Lemma mergeCustomData_value (st : LocalStorage.t) (repo : Repo.t) :
  exists e, CustomData.mergeCustomData st repo = CustomData.fulfilled e /\
    Repo.custom_tags e = Some (CustomData.getCustomTags st (Num.Int (Repo.id repo))) /\
    Repo.notes e = Some (CustomData.getNotes st (Num.Int (Repo.id repo))) /\
    Repo.id e = Repo.id repo /\ Repo.name e = Repo.name repo /\
    Repo.full_name e = Repo.full_name repo /\ Repo.owner e = Repo.owner repo /\
    Repo.description e = Repo.description repo /\
    Repo.language e = Repo.language repo /\ Repo.topics e = Repo.topics repo /\
    Repo.stargazers_count e = Repo.stargazers_count repo /\
    Repo.updated_at e = Repo.updated_at repo /\
    Repo.starred_at e = Repo.starred_at repo /\
    Repo.html_url e = Repo.html_url repo.
Proof. eexists. repeat split. Qed.

(** C6 (evaluation at the failing input). With one record in the data file
    and a tag stored for it, the array [init] gives to [initFilters] holds
    a promise object: its [custom_tags] and [notes] are undefined, although
    the store has the tag [cool] and the note [nice] for the record. *)
Theorem init_hands_over_promises :
  let handed := snd (App.init Samples.one_record Samples.annotated []) in
  handed = [App.PromiseObject
              (CustomData.mergeCustomData Samples.annotated Samples.undescribed)] /\
  map App.get_custom_tags handed = [None] /\
  map App.get_notes handed = [None] /\
  CustomData.getCustomTags Samples.annotated (Num.Int 3) = ["cool"] /\
  CustomData.getNotes Samples.annotated (Num.Int 3) = "nice".
Proof. repeat split. Qed.

(** ** Import *)

(** C8 (counterexample). A document whose note is not a string is
    malformed, yet [importCustomData] reports success and has written the
    tags of the document but not its note. *)
Lemma importCustomData_accepts_bad_note :
  ~ CustomData.well_formed (Some Samples.bad_note) /\
  CustomData.importCustomData (LocalStorage.empty 100) (Some Samples.bad_note)
  = (true, {| LocalStorage.items := [("custom_tags_1", JSON.stringify ["a"])];
              LocalStorage.quota := 100 |}).
Proof.
  split; [|reflexivity].
  intros [_ H]. destruct (H "1" CustomData.NotText) as [s Hs].
  - left. reflexivity.
  - discriminate.
Qed.

(** C8 (amended). A payload that is [null] or lacks its [tags] or its
    [notes] section is rejected and the storage is left as it was. *)
Theorem importCustomData_rejects_missing_section
    (st : LocalStorage.t) (data : option CustomData.document) :
  CustomData.lacks_section data ->
  CustomData.importCustomData st data = (false, st).
Proof.
  destruct data as [d|]; simpl; [|reflexivity].
  intros [H|H]; rewrite H; [|destruct (CustomData.doc_tags d)]; reflexivity.
Qed.

Lemma importCustomData_rejects_missing_section_witness :
  CustomData.importCustomData Samples.annotated (Some Samples.no_notes)
  = (false, Samples.annotated).
Proof.
  apply importCustomData_rejects_missing_section. right. reflexivity.
Defined.

(** ** Numbers *)

Lemma digit_value_digit_char (d : N) :
  (d < 10)%N -> Num.digit_value (Num.digit_char d) = Some d.
Proof.
  intros H. unfold Num.digit_value, Num.digit_char.
  rewrite N_ascii_embedding by lia.
  replace ((48 <=? 48 + d)%N && (48 + d <=? 57)%N) with true.
  - f_equal. lia.
  - symmetry. apply andb_true_iff. split; apply N.leb_le; lia.
Qed.

Lemma parse_radix_digits (f : nat) :
  forall (n : N) (rest : string),
    (n < 2 ^ N.of_nat (S f))%N ->
    exists k, forall acc,
      Num.parse_radix Num.digit_value 10 (Num.digits_fuel (S f) n rest) acc =
      Num.parse_radix Num.digit_value 10 rest (Some (Num.acc_val acc * 10 ^ k + n)%N).
Proof.
  induction f as [|f IH]; intros n rest Hn.
  - exists 1%N. intros acc. cbn [Num.digits_fuel].
    assert (n < 10)%N by (simpl in Hn; lia).
    destruct (N.ltb_spec n 10); [|lia].
    simpl. rewrite N.mod_small by lia. rewrite digit_value_digit_char by lia.
    destruct acc; simpl; do 2 f_equal; lia.
  - cbn [Num.digits_fuel]. destruct (N.ltb_spec n 10).
    + exists 1%N. intros acc. simpl.
      rewrite N.mod_small by lia. rewrite digit_value_digit_char by lia.
      destruct acc; simpl; do 2 f_equal; lia.
    + destruct (IH (n / 10)%N (String (Num.digit_char (n mod 10)) rest)) as [k Hk].
      { rewrite Nat2N.inj_succ, N.pow_succ_r' in Hn.
        apply N.Div0.div_lt_upper_bound. lia. }
      exists (k + 1)%N. intros acc. rewrite Hk. simpl.
      rewrite digit_value_digit_char by (apply N.mod_lt; lia).
      do 2 f_equal. rewrite N.pow_add_r.
      pose proof (N.div_mod' n 10). lia.
Qed.

Lemma digits_fuel_nonempty (f : nat) (n : N) (rest : string) :
  exists c s, Num.digits_fuel (S f) n rest = String c s /\
              exists d, Num.digit_value c = Some d.
Proof.
  revert n rest. induction f as [|f IH]; intros n rest; cbn [Num.digits_fuel].
  - exists (Num.digit_char (n mod 10)), rest.
    split; [now destruct (n <? 10)%N|].
    eexists. apply digit_value_digit_char. apply N.mod_lt. lia.
  - destruct (n <? 10)%N.
    + exists (Num.digit_char (n mod 10)), rest. split; [reflexivity|].
      eexists. apply digit_value_digit_char. apply N.mod_lt. lia.
    + apply IH.
Qed.

Lemma digits_fuel_all_digits (f : nat) (n : N) (rest : string) :
  Obj.all_digits rest = true -> Obj.all_digits (Num.digits_fuel f n rest) = true.
Proof.
  revert n rest. induction f as [|f IH]; intros n rest H; cbn [Num.digits_fuel].
  - exact H.
  - assert (Obj.all_digits (String (Num.digit_char (n mod 10)) rest) = true).
    { simpl. rewrite digit_value_digit_char by (apply N.mod_lt; lia). exact H. }
    destruct (n <? 10)%N; [assumption | now apply IH].
Qed.

Lemma digits_all_digits (n : N) : Obj.all_digits (Num.digits n) = true.
Proof. now apply digits_fuel_all_digits. Qed.

Lemma log2_fuel (n : N) : (n < 2 ^ N.of_nat (S (N.to_nat (N.log2 n))))%N.
Proof.
  rewrite Nat2N.inj_succ, N2Nat.id.
  destruct n as [|p]; [reflexivity|].
  apply N.log2_spec. lia.
Qed.

(** Reading back the digits of a number gives the number. *)
Lemma parse_radix_digits_of (n : N) :
  Num.parse_radix Num.digit_value 10 (Num.digits n) None = Some n.
Proof.
  unfold Num.digits.
  destruct (parse_radix_digits _ n "" (log2_fuel n)) as [k Hk].
  rewrite Hk. simpl. reflexivity.
Qed.

(** A numeral is not taken for a hexadecimal literal. *)
Lemma parse_unsigned_all_digits (s : string) :
  Obj.all_digits s = true ->
  Num.parse_unsigned s = Num.parse_radix Num.digit_value 10 s None.
Proof.
  destruct s as [|c [|c2 s]]; [reflexivity| |].
  { intros _. destruct c as [[] [] [] [] [] [] [] []]; reflexivity. }
  intros H. simpl in H.
  destruct (Num.digit_value c) eqn:E1; [|discriminate].
  destruct (Num.digit_value c2) eqn:E2; [|discriminate].
  unfold Num.parse_unsigned.
  destruct c as [[] [] [] [] [] [] [] []]; try reflexivity;
  destruct c2 as [[] [] [] [] [] [] [] []]; try reflexivity; discriminate E2.
Qed.

Lemma parse_unsigned_digits (n : N) : Num.parse_unsigned (Num.digits n) = Some n.
Proof.
  rewrite parse_unsigned_all_digits by apply digits_all_digits.
  apply parse_radix_digits_of.
Qed.

(** A string that starts with a digit is neither trimmed nor signed. *)
Lemma parseInt_leading_digit (c : ascii) (s : string) (d : N) :
  Num.digit_value c = Some d ->
  Num.parseInt (String c s) = Num.signed false (Num.parse_unsigned (String c s)).
Proof.
  intros H. unfold Num.parseInt.
  destruct c as [[] [] [] [] [] [] [] []]; try discriminate H; reflexivity.
Qed.

(** [parseInt] reads back what [String] prints. *)
Lemma parseInt_toString (x : Num.number) : Num.parseInt (Num.toString x) = x.
Proof.
  destruct x as [|z]; [reflexivity|]. unfold Num.toString.
  destruct (Z.ltb_spec z 0).
  - unfold Num.parseInt. cbn [JS.trimStart].
    change (JS.is_space "-") with false. cbv iota.
    change (Num.signed true (Num.parse_unsigned (Num.digits (Z.to_N (- z)))) = Num.Int z).
    rewrite parse_unsigned_digits. simpl. f_equal. lia.
  - unfold Num.digits.
    destruct (digits_fuel_nonempty (N.to_nat (N.log2 (Z.to_N z))) (Z.to_N z) "")
      as (c & s & E & d & Hd).
    rewrite E, (parseInt_leading_digit _ _ _ Hd), <- E.
    fold (Num.digits (Z.to_N z)). rewrite parse_unsigned_digits. simpl. f_equal. lia.
Qed.

Lemma toString_inj (x y : Num.number) : Num.toString x = Num.toString y -> x = y.
Proof.
  intros H. rewrite <- (parseInt_toString x), <- (parseInt_toString y). now rewrite H.
Qed.

(** ** JSON *)

Lemma append_assoc (a b c : string) : (a ++ b) ++ c = a ++ (b ++ c).
Proof. induction a; simpl; [|rewrite IHa]; reflexivity. Qed.

Lemma parse_escape_char (c : ascii) (s : string) (done : list string) (cur : list ascii) :
  JSON.parse_run JSON.PInStr done cur (JSON.escape_char c ++ s) =
  JSON.parse_run JSON.PInStr done (c :: cur) s.
Proof. by_code_unit c. Qed.

Lemma parse_escape (s rest : string) (done : list string) (cur : list ascii) :
  JSON.parse_run JSON.PInStr done cur (JSON.escape s ++ rest) =
  JSON.parse_run JSON.PInStr done (rev (list_ascii_of_string s) ++ cur)%list rest.
Proof.
  revert cur. induction s as [|c s IH]; intros cur; [reflexivity|].
  cbn [JSON.escape list_ascii_of_string rev].
  rewrite append_assoc, parse_escape_char, IH, <- app_assoc. reflexivity.
Qed.

(** A quoted string is read back as the string. *)
Lemma parse_quoted (s rest : string) (done : list string) :
  JSON.parse_run JSON.PInStr done [] (JSON.escape s ++ String JSON.dquote rest) =
  JSON.parse_run JSON.PAfterStr (s :: done) [] rest.
Proof.
  rewrite parse_escape, app_nil_r. cbn [JSON.parse_run].
  change (Ascii.eqb JSON.dquote JSON.dquote) with true. cbv iota.
  now rewrite rev_involutive, string_of_list_ascii_of_string.
Qed.

Lemma quote_append (x rest : string) :
  JSON.quote x ++ rest = String JSON.dquote (JSON.escape x ++ String JSON.dquote rest).
Proof. unfold JSON.quote. simpl. now rewrite append_assoc. Qed.

Lemma parse_join_quoted (l : list string) :
  l <> [] ->
  forall done cur,
    JSON.parse_run JSON.POpen done cur (JSON.join_quoted l ++ "]") = Some (rev done ++ l)%list /\
    JSON.parse_run JSON.PAfterComma done cur (JSON.join_quoted l ++ "]") = Some (rev done ++ l)%list.
Proof.
  induction l as [|x t IH]; [congruence|]. intros _ done cur.
  destruct t as [|y t].
  - cbn [JSON.join_quoted]. rewrite quote_append. cbn [JSON.parse_run].
    change (JSON.ws JSON.dquote) with false.
    change (Ascii.eqb JSON.dquote "]") with false.
    change (Ascii.eqb JSON.dquote JSON.dquote) with true. cbv iota.
    rewrite parse_quoted. simpl. split; reflexivity.
  - assert (Hyt : y :: t <> []) by discriminate.
    specialize (IH Hyt (x :: done) []). destruct IH as [_ IH].
    change (JSON.join_quoted (x :: y :: t))
      with (JSON.quote x ++ String "," (JSON.join_quoted (y :: t))).
    rewrite append_assoc, quote_append. cbn [JSON.parse_run].
    change (JSON.ws JSON.dquote) with false.
    change (Ascii.eqb JSON.dquote "]") with false.
    change (Ascii.eqb JSON.dquote JSON.dquote) with true. cbv iota.
    rewrite parse_quoted.
    change (String "," (JSON.join_quoted (y :: t)) ++ "]")
      with (String "," (JSON.join_quoted (y :: t) ++ "]")).
    cbn [JSON.parse_run]. change (JSON.ws ",") with false.
    change (Ascii.eqb "," ",") with true. cbv iota.
    rewrite IH. simpl. rewrite <- app_assoc. split; reflexivity.
Qed.

(** [JSON.parse(JSON.stringify(tags))] is [tags] again. *)
Lemma parse_stringify (tags : list string) :
  JSON.parse (JSON.stringify tags) = Some tags.
Proof.
  destruct tags as [|x t]; [reflexivity|].
  unfold JSON.parse, JSON.stringify. cbn [JSON.parse_run].
  change (JSON.ws "[") with false. change (Ascii.eqb "[" "[") with true. cbv iota.
  apply (parse_join_quoted (x :: t)). discriminate.
Qed.

(** The text of a tag list is never the empty string. *)
Lemma stringify_truthy (tags : list string) : JS.truthy (JSON.stringify tags) = true.
Proof. reflexivity. Qed.

(** ** Tags *)

Lemma arr_includes_In (l : list string) (x : string) :
  JS.arr_includes l x = true <-> In x l.
Proof.
  unfold JS.arr_includes. rewrite existsb_exists. split.
  - intros (y & Hy & E). apply String.eqb_eq in E. now subst.
  - intros H. exists x. split; [exact H | apply String.eqb_refl].
Qed.

Lemma append_inj_r (p a b : string) : p ++ a = p ++ b -> a = b.
Proof. induction p; simpl; intros H; [exact H | injection H; auto]. Qed.

Lemma tags_key_inj (x y : Num.number) :
  CustomData.tags_key x = CustomData.tags_key y -> x = y.
Proof. intros H. apply toString_inj. exact (append_inj_r _ _ _ H). Qed.

Lemma notes_key_inj (x y : Num.number) :
  CustomData.notes_key x = CustomData.notes_key y -> x = y.
Proof. intros H. apply toString_inj. exact (append_inj_r _ _ _ H). Qed.

(** [setCustomTags] stores the list as it is given: a later
    [getCustomTags] returns that very list. *)
Lemma setCustomTags_verbatim (st st' : LocalStorage.t) (repoId : Num.number)
    (tags : list string) :
  CustomData.setCustomTags st repoId tags = (true, st') ->
  CustomData.getCustomTags st' repoId = tags.
Proof.
  unfold CustomData.setCustomTags, CustomData.getCustomTags.
  destruct (LocalStorage.setItem st _ _) as [st1|] eqn:E; [|discriminate].
  intros [= <-]. rewrite (setItem_getItem _ _ _ _ E).
  now rewrite stringify_truthy, parse_stringify.
Qed.

(** It leaves the tags of the other repositories alone, and the whole
    storage when the write is refused. *)
Lemma setCustomTags_other (st : LocalStorage.t) (repoId other : Num.number)
    (tags : list string) :
  other <> repoId ->
  CustomData.getCustomTags (snd (CustomData.setCustomTags st repoId tags)) other =
  CustomData.getCustomTags st other.
Proof.
  intros Hne. unfold CustomData.setCustomTags, CustomData.getCustomTags.
  destruct (LocalStorage.setItem st _ _) as [st1|] eqn:E; [|reflexivity].
  simpl.
  assert (Hk : CustomData.tags_key repoId <> CustomData.tags_key other).
  { intros H. apply Hne. symmetry. exact (tags_key_inj _ _ H). }
  now rewrite (setItem_getItem_other _ _ _ _ _ Hk E).
Qed.

Lemma toLowerCase_empty (s : string) : JS.toLowerCase s = "" -> s = "".
Proof. destruct s; [reflexivity | discriminate]. Qed.

Lemma newTag_idem (v : string) : Cards.newTag (Cards.newTag v) = Cards.newTag v.
Proof.
  destruct (lower_trim_normalized v) as [Hl Ht]. unfold Cards.newTag in *.
  now rewrite Ht, Hl.
Qed.

Lemma truthy_true (s : string) : s <> "" -> JS.truthy s = true.
Proof. destruct s; [contradiction | reflexivity]. Qed.

(** C4 (counterexample). [setCustomTags] stores a list with a repeated
    tag as it is. *)
Lemma setCustomTags_keeps_duplicates :
  let r := CustomData.setCustomTags (LocalStorage.empty 100) (Num.Int 1)
             ["cool"; "cool"] in
  fst r = true /\
  CustomData.getCustomTags (snd r) (Num.Int 1) = ["cool"; "cool"] /\
  ~ NoDup (CustomData.getCustomTags (snd r) (Num.Int 1)).
Proof.
  repeat split. intros H. simpl in H. inversion H as [|x l Hx _]. apply Hx. left. reflexivity.
Qed.

(** The listener on Enter with a value that is not blank. *)
Lemma tag_keydown_enter (st : LocalStorage.t) (repo : Repo.t) (v : string) :
  JS.trim v <> "" ->
  Cards.tag_keydown "Enter" v (st, repo) =
  if JS.arr_includes (Cards.currentTags repo) (Cards.newTag v) then (st, repo)
  else (snd (CustomData.setCustomTags st (Num.Int (Repo.id repo))
               (Cards.currentTags repo ++ [Cards.newTag v])),
        Cards.set_custom_tags repo (Cards.currentTags repo ++ [Cards.newTag v])).
Proof.
  intros Hv. unfold Cards.tag_keydown.
  rewrite String.eqb_refl, (truthy_true _ Hv). reflexivity.
Qed.

(** C4 (amended). The tag-add operation stores no duplicate: on a record
    whose tag list is duplicate-free and normalized and mirrors the store,
    entering the same normalized tag twice (for instance [cool], then
    [Cool ] with a trailing space) leaves, when the new list fits the
    storage, exactly one stored entry of that tag; the stored list is still
    duplicate-free and normalized and equal to the list of the record. *)
Theorem tag_added_twice_stored_once (st : LocalStorage.t) (repo : Repo.t)
    (v1 v2 : string) :
  Cards.normalized_tags (Cards.currentTags repo) ->
  CustomData.getCustomTags st (Num.Int (Repo.id repo)) = Cards.currentTags repo ->
  JS.trim v1 <> "" ->
  Cards.newTag v2 = Cards.newTag v1 ->
  LocalStorage.setItem st (CustomData.tags_key (Num.Int (Repo.id repo)))
    (JSON.stringify (Cards.currentTags repo ++ [Cards.newTag v1])) <> None ->
  let s2 := Cards.tag_keydown "Enter" v2 (Cards.tag_keydown "Enter" v1 (st, repo)) in
  let stored := CustomData.getCustomTags (fst s2) (Num.Int (Repo.id repo)) in
  count_occ string_dec stored (Cards.newTag v1) = 1 /\
  Cards.normalized_tags stored /\
  Cards.currentTags (snd s2) = stored.
Proof.
  intros [Hnd Hnorm] Hmirror Hv1 Hsame Hfits.
  assert (Hv2 : JS.trim v2 <> "").
  { intros E. unfold Cards.newTag in Hsame. rewrite E in Hsame. simpl in Hsame.
    symmetry in Hsame. apply toLowerCase_empty in Hsame. contradiction. }
  cbv zeta. rewrite (tag_keydown_enter st repo v1 Hv1).
  destruct (JS.arr_includes (Cards.currentTags repo) (Cards.newTag v1)) eqn:Hin.
  - rewrite (tag_keydown_enter st repo v2 Hv2), Hsame, Hin. cbn [fst snd].
    rewrite Hmirror. apply arr_includes_In in Hin.
    repeat split; auto. now apply NoDup_count_occ'.
  - destruct (LocalStorage.setItem st _ _) as [st1|] eqn:Hset; [|contradiction].
    assert (Hsc : CustomData.setCustomTags st (Num.Int (Repo.id repo))
                    (Cards.currentTags repo ++ [Cards.newTag v1]) = (true, st1)).
    { unfold CustomData.setCustomTags. now rewrite Hset. }
    rewrite Hsc. cbn [snd].
    rewrite (tag_keydown_enter _ _ v2 Hv2), Hsame.
    assert (Hcur : Cards.currentTags
              (Cards.set_custom_tags repo (Cards.currentTags repo ++ [Cards.newTag v1]))
              = (Cards.currentTags repo ++ [Cards.newTag v1])%list) by reflexivity.
    rewrite Hcur.
    assert (Hin2 : JS.arr_includes (Cards.currentTags repo ++ [Cards.newTag v1])
                     (Cards.newTag v1) = true).
    { apply arr_includes_In, in_or_app. right. left. reflexivity. }
    rewrite Hin2. cbn [fst snd].
    assert (Hstored : CustomData.getCustomTags st1 (Num.Int (Repo.id repo))
                      = (Cards.currentTags repo ++ [Cards.newTag v1])%list).
    { exact (setCustomTags_verbatim _ _ _ _ Hsc). }
    rewrite Hstored, ?Hcur.
    assert (Hnot : ~ In (Cards.newTag v1) (Cards.currentTags repo)).
    { intros H. apply arr_includes_In in H. congruence. }
    repeat split.
    + rewrite count_occ_app. rewrite (proj1 (count_occ_not_In string_dec _ _) Hnot).
      simpl. destruct (string_dec _ _); [reflexivity | contradiction].
    + apply NoDup_app; repeat split; auto.
      * constructor; [intros [] | constructor].
      * intros x Hx [<-|[]]. contradiction.
    + apply Forall_app. split; [exact Hnorm|]. constructor; [apply newTag_idem | constructor].
Qed.

Lemma tag_added_twice_stored_once_witness :
  let s2 := Cards.tag_keydown "Enter" "Cool "
              (Cards.tag_keydown "Enter" "cool"
                 (LocalStorage.empty 100, Samples.undescribed)) in
  let stored := CustomData.getCustomTags (fst s2) (Num.Int 3) in
  count_occ string_dec stored "cool" = 1 /\
  Cards.normalized_tags stored /\
  Cards.currentTags (snd s2) = stored.
Proof.
  apply (tag_added_twice_stored_once (LocalStorage.empty 100) Samples.undescribed
           "cool" "Cool ").
  - split; constructor.
  - reflexivity.
  - discriminate.
  - reflexivity.
  - vm_compute. discriminate.
Defined.

(** ** The set of all tags *)

Lemma fold_set_add (l seen : list string) :
  NoDup seen ->
  NoDup (fold_left CustomData.set_add l seen) /\
  forall t, In t (fold_left CustomData.set_add l seen) <-> In t seen \/ In t l.
Proof.
  revert seen. induction l as [|x l IH]; intros seen Hnd; simpl.
  - split; [exact Hnd | tauto].
  - assert (Hnd' : NoDup (CustomData.set_add seen x)).
    { unfold CustomData.set_add.
      destruct (JS.arr_includes seen x) eqn:E; [exact Hnd|].
      apply NoDup_app; repeat split; auto.
      - constructor; [intros [] | constructor].
      - intros y Hy [<-|[]]. apply arr_includes_In in Hy. congruence. }
    destruct (IH _ Hnd') as [H1 H2]. split; [exact H1|].
    intros t. rewrite H2. unfold CustomData.set_add.
    destruct (JS.arr_includes seen x) eqn:E.
    + apply arr_includes_In in E. intuition (subst; auto).
    + rewrite in_app_iff. simpl. tauto.
Qed.

Lemma fold_unique_entry (items : list (string * string)) :
  forall seen,
    (forall k v, In (k, v) items ->
       JS.startsWith k STORAGE_KEYS.CUSTOM_TAGS_PREFIX = true -> JSON.parse v <> None) ->
    NoDup seen ->
    exists out,
      fold_left CustomData.unique_entry items (Some seen) = Some out /\
      NoDup out /\
      forall t, In t out <->
        In t seen \/
        exists k v l, In (k, v) items /\
          JS.startsWith k STORAGE_KEYS.CUSTOM_TAGS_PREFIX = true /\
          JSON.parse v = Some l /\ In t l.
Proof.
  induction items as [|[k v] items IH]; intros seen Hp Hnd; simpl.
  - exists seen. repeat split; auto. intros [H|(k & v & l & [] & _)]. exact H.
  - destruct (JS.startsWith k STORAGE_KEYS.CUSTOM_TAGS_PREFIX) eqn:Hk.
    + destruct (JSON.parse v) as [l|] eqn:Hv.
      2:{ exfalso. apply (Hp k v); auto. now left. }
      destruct (fold_set_add l seen Hnd) as [Hnd' Hin'].
      destruct (IH _ (fun k' v' H => Hp k' v' (or_intror H)) Hnd') as (out & E & Ho & Hio).
      exists out. repeat split; auto.
      * rewrite Hio, Hin'. intros [[H|H]|(k' & v' & l' & H & R)]; auto.
        -- right. exists k, v, l. auto.
        -- right. exists k', v', l'. tauto.
      * rewrite Hio, Hin'. intros [H|(k' & v' & l' & [H|H] & Hk' & Hv' & Ht)]; auto.
        -- injection H as <- <-. rewrite Hv in Hv'. injection Hv' as <-. auto.
        -- right. exists k', v', l'. auto.
    + destruct (IH _ (fun k' v' H => Hp k' v' (or_intror H)) Hnd) as (out & E & Ho & Hio).
      exists out. repeat split; auto.
      * rewrite Hio. intros [H|(k' & v' & l' & H & R)]; auto.
        right. exists k', v', l'. tauto.
      * rewrite Hio. intros [H|(k' & v' & l' & [H|H] & Hk' & Hv' & Ht)]; auto.
        -- injection H as <- <-. congruence.
        -- right. exists k', v', l'. auto.
Qed.

Lemma default_compare_leb (x y : string) :
  (JS.default_compare x y <=? 0)%Z = (x <=? y)%string.
Proof.
  unfold JS.default_compare, String.leb. now destruct (x ?= y)%string.
Qed.

Lemma leb_false_flip (x y : string) : (x <=? y)%string = false -> (y <=? x)%string = true.
Proof. destruct (String.leb_total x y) as [H|H]; congruence. Qed.

Lemma insert_HdRel (a x : string) (l : list string) :
  (a <=? x)%string = true ->
  HdRel (fun a b => (a <=? b)%string = true) a l ->
  HdRel (fun a b => (a <=? b)%string = true) a (JS.insert JS.default_compare x l).
Proof.
  intros Hax Hl. destruct l as [|y r]; simpl; [now constructor|].
  rewrite default_compare_leb. destruct (x <=? y)%string; constructor; auto.
  now inversion Hl.
Qed.

Lemma insert_sorted (x : string) (l : list string) :
  Sorted (fun a b => (a <=? b)%string = true) l ->
  Sorted (fun a b => (a <=? b)%string = true) (JS.insert JS.default_compare x l).
Proof.
  induction l as [|y r IH]; intros Hs; simpl.
  - repeat constructor.
  - rewrite default_compare_leb. destruct (x <=? y)%string eqn:E.
    + constructor; [exact Hs | now constructor].
    + inversion Hs as [|? ? Hr Hy]; subst. constructor; [now apply IH|].
      apply insert_HdRel; [now apply leb_false_flip | exact Hy].
Qed.

(** [sort()] without a comparator puts strings in ascending order. *)
Lemma sort_sorted (l : list string) :
  Sorted (fun a b => (a <=? b)%string = true) (JS.sort JS.default_compare l).
Proof. induction l; simpl; [constructor | now apply insert_sorted]. Qed.

Lemma leb_neq_ltb (a b : string) :
  (a <=? b)%string = true -> a <> b -> (a <? b)%string = true.
Proof.
  unfold String.leb, String.ltb. destruct (a ?= b)%string eqn:E; try congruence.
  apply String.compare_eq_iff in E. contradiction.
Qed.

(** Without duplicates the order is strict. *)
Lemma sorted_strict (l : list string) :
  Sorted (fun a b => (a <=? b)%string = true) l -> NoDup l ->
  Sorted (fun a b => (a <? b)%string = true) l.
Proof.
  induction l as [|x l IH]; intros Hs Hnd; [constructor|].
  inversion Hs as [|? ? Hl Hx]; subst. inversion Hnd as [|? ? Hnx Hnl]; subst.
  constructor; [now apply IH|].
  destruct l as [|y r]; constructor. inversion Hx; subst.
  apply leb_neq_ltb; [assumption|]. intros ->. apply Hnx. now left.
Qed.

(** C10 (the claim as stated fails). On a storage with a tags entry that
    is not JSON the local [getAllUniqueTags] throws and returns no array;
    so it does on the storage that [importCustomData] leaves after a
    document whose tags for a repository are [null]. *)
Lemma getAllUniqueTags_throws_on_malformed_entry :
  CustomData.getAllUniqueTags Samples.bad_tags = None /\
  (let r := CustomData.importCustomData (LocalStorage.empty 5000)
              (Some Samples.null_tags) in
   fst r = true /\
   LocalStorage.getItem (snd r) "custom_tags_3" = Some "null" /\
   CustomData.getAllUniqueTags (snd r) = None).
Proof. repeat split. Qed.

(** C10 (amended). On a storage whose entries under the tags prefix all
    hold the JSON text of an array of strings, the local
    [getAllUniqueTags] returns an array without duplicates, in strictly
    ascending order, whose elements are exactly the tags that occur in the
    stored tag list of some repository. *)
Theorem getAllUniqueTags_spec (st : LocalStorage.t) :
  CustomData.tag_entries_parse st ->
  exists out,
    CustomData.getAllUniqueTags st = Some out /\
    NoDup out /\
    Sorted (fun a b => (a <? b)%string = true) out /\
    forall t, In t out <-> CustomData.stored_tag st t.
Proof.
  intros Hp. unfold CustomData.getAllUniqueTags.
  destruct (fold_unique_entry (LocalStorage.items st) [] Hp (NoDup_nil _))
    as (seen & E & Hnd & Hin).
  rewrite E. eexists. split; [reflexivity|].
  pose proof (sort_perm JS.default_compare seen) as Hperm.
  assert (Hnd' : NoDup (JS.sort JS.default_compare seen)).
  { eapply Permutation_NoDup; eassumption. }
  repeat split.
  - exact Hnd'.
  - apply sorted_strict; [apply sort_sorted | exact Hnd'].
  - intros H. apply (Permutation_in _ (Permutation_sym Hperm)) in H.
    apply Hin in H as [[]|H]. exact H.
  - intros H. apply (Permutation_in _ Hperm). apply Hin. right. exact H.
Qed.

Lemma getAllUniqueTags_spec_witness :
  exists out,
    CustomData.getAllUniqueTags Samples.two_tagged = Some out /\
    NoDup out /\
    Sorted (fun a b => (a <? b)%string = true) out /\
    forall t, In t out <-> CustomData.stored_tag Samples.two_tagged t.
Proof.
  apply (getAllUniqueTags_spec Samples.two_tagged).
  intros k v [H|[H|[H|[]]]] Hk; injection H as <- <-;
    try discriminate Hk; vm_compute; discriminate.
Defined.

(** ** Export and import *)

Lemma remove_first_eq (s p : string) :
  CustomData.remove_first s p =
  if String.prefix p s then CustomData.drop (String.length p) s
  else match s with
       | EmptyString => EmptyString
       | String c s' => String c (CustomData.remove_first s' p)
       end.
Proof. destruct s; reflexivity. Qed.

Lemma drop_append (p s : string) : CustomData.drop (String.length p) (p ++ s) = s.
Proof. induction p; simpl; [now destruct s | exact IHp]. Qed.

(** Removing the prefix a key starts with leaves the rest of the key. *)
Lemma remove_first_prefix (p s : string) : CustomData.remove_first (p ++ s) p = s.
Proof. rewrite remove_first_eq, prefix_app. apply drop_append. Qed.

Lemma startsWith_split (k p : string) :
  JS.startsWith k p = true -> p ++ CustomData.remove_first k p = k.
Proof.
  intros H. apply prefix_split in H as [rest ->]. now rewrite remove_first_prefix.
Qed.

Lemma Obj_set_fresh {V} (o : Obj.t V) (k : string) (v : V) :
  ~ In k (map fst o) -> Obj.set o k v = (o ++ [(k, v)])%list.
Proof.
  induction o as [|[k' v'] o IH]; simpl; intros H; [reflexivity|].
  destruct (String.eqb_spec k' k) as [->|]; [tauto|].
  rewrite IH; tauto.
Qed.





Lemma NoDup_app_disjoint {A} (l1 l2 : list A) (a : A) :
  NoDup (l1 ++ l2) -> In a l1 -> In a l2 -> False.
Proof.
  induction l1 as [|x l1 IH]; simpl; intros Hnd H1 H2; [exact H1|].
  inversion Hnd as [|? ? Hx Hl]; subst. destruct H1 as [->|H1].
  - apply Hx, in_or_app. now right.
  - exact (IH Hl H1 H2).
Qed.

Lemma In_map_fst_filter (p : string * string -> bool) (l : list (string * string)) (k : string) :
  In k (map fst (filter p l)) -> In k (map fst l).
Proof.
  rewrite !in_map_iff. intros (x & E & H). apply filter_In in H. exists x. tauto.
Qed.


(** With distinct keys, [lookup] finds exactly the entries of the list. *)
Lemma lookup_In (l : list (string * string)) (k v : string) :
  NoDup (map fst l) -> (LocalStorage.lookup l k = Some v <-> In (k, v) l).
Proof.
  induction l as [|[k' v'] l IH]; simpl; intros Hnd.
  - split; [discriminate | tauto].
  - inversion Hnd as [|? ? Hk Hl]; subst.
    destruct (String.eqb_spec k' k) as [->|Hne].
    + split.
      * intros [= ->]. now left.
      * intros [[= ->]|H]; [reflexivity|].
        exfalso. apply Hk. apply in_map_iff. now exists (k, v).
    + rewrite (IH Hl). split; [tauto|]. intros [[= -> ->]|H]; [contradiction | exact H].
Qed.





Lemma is_notes_startsWith (kv : string * string) :
  CustomData.is_notes kv = true ->
  JS.startsWith (fst kv) STORAGE_KEYS.NOTES_PREFIX = true.
Proof. unfold CustomData.is_notes. intros H. now apply andb_true_iff in H. Qed.

Lemma is_tags_not_notes (kv : string * string) :
  CustomData.is_tags kv = true -> CustomData.is_notes kv = false.
Proof. unfold CustomData.is_notes. now intros ->. Qed.

(** The export of a storage whose tag entries parse: one property per
    annotation entry, in the order of the entries. *)
Lemma export_fold (items : list (string * string)) :
  forall acc,
    (forall kv, In kv items -> CustomData.is_tags kv = true ->
       JSON.parse (snd kv) <> None) ->
    NoDup (map fst (CustomData.tags acc)
           ++ map fst (map CustomData.tags_entry (filter CustomData.is_tags items))) ->
    NoDup (map fst (CustomData.notes acc)
           ++ map fst (map CustomData.notes_entry (filter CustomData.is_notes items))) ->
    fold_left CustomData.export_entry items (Some acc) =
    Some {| CustomData.tags :=
              (CustomData.tags acc
               ++ map CustomData.tags_entry (filter CustomData.is_tags items))%list;
            CustomData.notes :=
              (CustomData.notes acc
               ++ map CustomData.notes_entry (filter CustomData.is_notes items))%list;
            CustomData.exportedAt := CustomData.exportedAt acc |}.
Proof.
  induction items as [|[k v] items IH]; intros acc Hp Ht Hn.
  - simpl. rewrite !app_nil_r. now destruct acc.
  - cbn [fold_left CustomData.export_entry]. cbn [filter] in Ht, Hn |- *.
    destruct (CustomData.is_tags (k, v)) eqn:Hk.
    + assert (Hk' : JS.startsWith k STORAGE_KEYS.CUSTOM_TAGS_PREFIX = true) by exact Hk.
      rewrite Hk', (is_tags_not_notes _ Hk) in *.
      destruct (JSON.parse v) as [l|] eqn:Hv.
      2:{ exfalso. apply (Hp (k, v)); [now left | exact Hk | exact Hv]. }
      cbn [map fst] in Ht.
      assert (Hfresh : ~ In (fst (CustomData.tags_entry (k, v)))
                         (map fst (CustomData.tags acc))).
      { intros H. apply (NoDup_app_disjoint _ _ _ Ht H). now left. }
      change (fst (CustomData.tags_entry (k, v)))
        with (CustomData.remove_first k STORAGE_KEYS.CUSTOM_TAGS_PREFIX) in Hfresh.
      rewrite (Obj_set_fresh _ _ _ Hfresh), IH; cbn [CustomData.tags CustomData.notes
        CustomData.exportedAt].
      * unfold CustomData.tags_entry at 2. cbn [fst snd map]. rewrite Hv.
        now rewrite <- app_assoc.
      * intros kv H. apply Hp. now right.
      * rewrite map_app, <- app_assoc. exact Ht.
      * exact Hn.
    + assert (Hk' : JS.startsWith k STORAGE_KEYS.CUSTOM_TAGS_PREFIX = false) by exact Hk.
      rewrite Hk'.
      assert (Hn' : JS.startsWith k STORAGE_KEYS.NOTES_PREFIX = CustomData.is_notes (k, v)).
      { unfold CustomData.is_notes. now rewrite Hk. }
      rewrite Hn'.
      destruct (CustomData.is_notes (k, v)) eqn:Hk2.
      * cbn [map fst] in Hn.
        assert (Hfresh : ~ In (fst (CustomData.notes_entry (k, v)))
                           (map fst (CustomData.notes acc))).
        { intros H. apply (NoDup_app_disjoint _ _ _ Hn H). now left. }
        change (fst (CustomData.notes_entry (k, v)))
          with (CustomData.remove_first k STORAGE_KEYS.NOTES_PREFIX) in Hfresh.
        rewrite (Obj_set_fresh _ _ _ Hfresh), IH; cbn [CustomData.tags CustomData.notes
          CustomData.exportedAt].
        -- unfold CustomData.notes_entry at 2. cbn [fst snd map].
           now rewrite <- app_assoc.
        -- intros kv H. apply Hp. now right.
        -- exact Ht.
        -- rewrite map_app, <- app_assoc. exact Hn.
      * rewrite IH; auto. intros kv H. apply Hp. now right.
Qed.

(** The names of the exported properties are distinct when the keys of the
    storage are. *)
Lemma NoDup_suffixes (p : string) (f : string * string -> bool)
    (l : list (string * string)) :
  (forall kv, f kv = true -> JS.startsWith (fst kv) p = true) ->
  NoDup (map fst l) ->
  NoDup (map (fun kv => CustomData.remove_first (fst kv) p) (filter f l)).
Proof.
  intros Hf Hnd.
  apply (NoDup_map_inv (fun s => p ++ s)).
  rewrite map_map.
  rewrite (map_ext_in _ fst).
  - clear Hf. induction l as [|x l IH]; simpl; [constructor|].
    inversion Hnd as [|? ? Hx Hl]; subst.
    destruct (f x); [|now apply IH]. simpl. constructor; [|now apply IH].
    intros H. apply In_map_fst_filter in H. contradiction.
  - intros kv H. apply filter_In in H as [_ H]. apply startsWith_split. now apply Hf.
Qed.






Lemma remove_first_tags_key (repoId : Num.number) :
  CustomData.remove_first (CustomData.tags_key repoId) STORAGE_KEYS.CUSTOM_TAGS_PREFIX
  = Num.toString repoId.
Proof. apply remove_first_prefix. Qed.

Lemma remove_first_notes_key (repoId : Num.number) :
  CustomData.remove_first (CustomData.notes_key repoId) STORAGE_KEYS.NOTES_PREFIX
  = Num.toString repoId.
Proof. apply remove_first_prefix. Qed.




Lemma tags_key_is_tags (repoId : Num.number) (v : string) :
  CustomData.is_tags (CustomData.tags_key repoId, v) = true.
Proof. apply prefix_app. Qed.

Lemma notes_key_is_notes (repoId : Num.number) (v : string) :
  CustomData.is_notes (CustomData.notes_key repoId, v) = true.
Proof.
  unfold CustomData.is_notes, CustomData.is_tags. cbn [fst].
  apply andb_true_iff. split; [reflexivity | apply prefix_app].
Qed.





(** ** The well-formed storages are those the backend produces *)

Lemma In_put (k0 v0 : string) (l : list (string * string)) (kv : string * string) :
  In kv (LocalStorage.put k0 v0 l) -> kv = (k0, v0) \/ In kv l.
Proof.
  induction l as [|[k' v'] l IH]; simpl.
  - intros [<-|[]]. now left.
  - destruct (String.eqb k' k0); simpl; intros [H|H]; auto.
    destruct (IH H); auto.
Qed.

Lemma keys_put (k0 v0 : string) (l : list (string * string)) (k : string) :
  In k (map fst (LocalStorage.put k0 v0 l)) -> k = k0 \/ In k (map fst l).
Proof.
  rewrite !in_map_iff. intros ([k' v'] & <- & H). apply In_put in H as [[= -> ->]|H].
  - now left.
  - right. now exists (k', v').
Qed.

Lemma NoDup_keys_put (k0 v0 : string) (l : list (string * string)) :
  NoDup (map fst l) -> NoDup (map fst (LocalStorage.put k0 v0 l)).
Proof.
  induction l as [|[k' v'] l IH]; simpl; intros Hnd.
  - repeat constructor. intros [].
  - inversion Hnd as [|? ? Hk Hl]; subst.
    destruct (String.eqb_spec k' k0) as [->|Hne]; simpl.
    + now constructor.
    + constructor; [|now apply IH].
      intros H. apply keys_put in H as [H|H]; contradiction.
Qed.


Lemma empty_well_formed (q : nat) : CustomData.well_formed_store (LocalStorage.empty q).
Proof.
  split; [constructor | split; [simpl; lia | intros k v []]].
Qed.

Lemma setItem_well_formed (st st' : LocalStorage.t) (k v : string) :
  CustomData.well_formed_store st ->
  LocalStorage.setItem st k v = Some st' ->
  (JS.startsWith k STORAGE_KEYS.CUSTOM_TAGS_PREFIX = true ->
     (exists repoId, k = CustomData.tags_key repoId) /\ exists l, v = JSON.stringify l) ->
  (JS.startsWith k STORAGE_KEYS.NOTES_PREFIX = true ->
     (exists repoId, k = CustomData.notes_key repoId) /\ JS.trim v <> "") ->
  CustomData.well_formed_store st'.
Proof.
  intros (Hnd & Hsz & Hent) Hset Ht Hn. unfold LocalStorage.setItem in Hset.
  destruct (Nat.leb_spec (LocalStorage.size (LocalStorage.put k v (LocalStorage.items st)))
              (LocalStorage.quota st)); [|discriminate].
  injection Hset as <-. split; [|split]; cbn [LocalStorage.items LocalStorage.quota].
  - now apply NoDup_keys_put.
  - assumption.
  - intros k' v' H'. apply In_put in H' as [[= -> ->]|H']; [split; assumption|].
    now apply Hent.
Qed.

(** [setCustomTags] keeps the storage well formed. *)
Lemma setCustomTags_well_formed (st : LocalStorage.t) (repoId : Num.number)
    (tags : list string) :
  CustomData.well_formed_store st ->
  CustomData.well_formed_store (snd (CustomData.setCustomTags st repoId tags)).
Proof.
  intros Hwf. unfold CustomData.setCustomTags.
  destruct (LocalStorage.setItem st _ _) as [st'|] eqn:E; [|exact Hwf].
  apply (setItem_well_formed _ _ _ _ Hwf E).
  - intros _. split; [now exists repoId | now exists tags].
  - intros H. discriminate H.
Qed.




(** And the tag listener of a card. *)
Lemma tag_keydown_well_formed (key value : string) (st : LocalStorage.t) (repo : Repo.t) :
  CustomData.well_formed_store st ->
  CustomData.well_formed_store (fst (Cards.tag_keydown key value (st, repo))).
Proof.
  intros Hwf. unfold Cards.tag_keydown.
  destruct (_ && _)%bool; [|exact Hwf].
  destruct (JS.arr_includes _ _); [exact Hwf|].
  cbn [fst]. now apply setCustomTags_well_formed.
Qed.

Lemma well_formed_tag_entries_parse (st : LocalStorage.t) :
  CustomData.well_formed_store st -> CustomData.tag_entries_parse st.
Proof.
  intros (_ & _ & Hent) k v Hin Hk. destruct (Hent k v Hin) as [Ht _].
  destruct (Ht Hk) as [_ [l ->]]. rewrite parse_stringify. discriminate.
Qed.


(** ** The search step on described records *)

(** X30. On records that all have a description, the search step returns,
    and it keeps a record exactly when the search string occurs in the
    lowercase form of its name, description, full name or owner login. *)
Lemma search_step_described (f : Filters.currentFilters_t) (l : list Repo.t) :
  Filters.search f <> "" ->
  (forall r, In r l -> Repo.description r <> None) ->
  exists out,
    Filters.search_step f l = Some out /\
    forall r, In r out <->
      In r l /\
      exists field pre post,
        In field [Some (Repo.name r); Repo.description r;
                  Some (Repo.full_name r); Some (Repo.login (Repo.owner r))] /\
        option_map JS.toLowerCase field = Some (pre ++ Filters.search f ++ post).
Proof.
  intros Hs Hd. unfold Filters.search_step. rewrite (truthy_true _ Hs).
  assert (Htot : exists out,
            Filters.filter_throwing (Filters.search_predicate (Filters.search f)) l = Some out).
  { induction l as [|r l IH]; simpl; [now eexists|].
    destruct (Repo.description r) as [d|] eqn:E; [|exfalso; apply (Hd r); simpl; auto].
    rewrite (search_predicate_described _ _ _ E).
    specialize (IH (fun r' H' => Hd r' (or_intror H'))).
    destruct IH as [out ->]. now eexists. }
  destruct Htot as [out Hout]. exists out. split; [exact Hout|].
  intros r. rewrite (filter_throwing_In _ _ _ Hout r).
  split; intros [Hin H]; (split; [exact Hin|]).
  - destruct (Repo.description r) as [d|] eqn:E; [|exfalso; apply (Hd r); simpl; auto].
    rewrite (search_predicate_described _ _ _ E) in H. injection H as H.
    apply orb_true_iff in H as [H|H];
      [apply orb_true_iff in H as [H|H]; [apply orb_true_iff in H as [H|H]|]|];
      apply includes_spec in H as (pre & post & H);
      [exists (Some (Repo.name r)) | exists (Some d)
      | exists (Some (Repo.full_name r)) | exists (Some (Repo.login (Repo.owner r)))];
      exists pre, post; (split; [simpl; tauto | simpl; now rewrite H]).
  - destruct (Repo.description r) as [d|] eqn:E; [|exfalso; apply (Hd r); simpl; auto].
    rewrite (search_predicate_described _ _ _ E). f_equal.
    destruct H as (field & pre & post & Hf & Hm).
    assert (Hinc : forall v, field = Some v ->
              JS.includes (JS.toLowerCase v) (Filters.search f) = true).
    { intros v ->. injection Hm as Hm. apply includes_spec. now exists pre, post. }
    simpl in Hf. destruct Hf as [<-|[<-|[<-|[<-|[]]]]];
      rewrite (Hinc _ eq_refl), ?orb_true_r; reflexivity.
Qed.

(** ** Further facts about the paths that diverge *)

(** Whatever the query holds under [search] becomes the search string. *)
Lemma initURLFilters_search (params : Filters.URLSearchParams)
    (f : Filters.currentFilters_t) (v : string) :
  Filters.params_get params "search" = Some v ->
  Filters.search (Filters.initURLFilters params f) = v.
Proof.
  intros H. unfold Filters.initURLFilters. rewrite H.
  destruct (Filters.params_get params "language");
    destruct (Filters.params_get params "topic");
    destruct (Filters.params_get params "sort"); reflexivity.
Qed.

(** Every value [init] hands to [initFilters] is a promise object, without
    [custom_tags] and without [notes]. *)
Lemma init_values_are_promises (o : StorageService.fetch_outcome)
    (st : LocalStorage.t) (params : Filters.URLSearchParams) :
  Forall (fun v => App.get_custom_tags v = None /\ App.get_notes v = None)
    (snd (App.init o st params)).
Proof.
  unfold App.init, App.repositoriesWithCustomData. cbn [snd].
  induction (StorageService.repositories (StorageService.loadStarsData o));
    simpl; constructor; auto.
Qed.

(** Removing a tag that the record does not have leaves its tag list as it
    is; removing any tag keeps the list duplicate-free and normalized. *)
Lemma removeTag_absent (tag : string) (st : LocalStorage.t) (repo : Repo.t)
    (l : list string) :
  Repo.custom_tags repo = Some l -> ~ In tag l ->
  exists st', Cards.removeTag tag (st, repo) = Some (st', Cards.set_custom_tags repo l).
Proof.
  intros Hl Hin. unfold Cards.removeTag. rewrite Hl.
  assert (E : filter (fun t => negb (String.eqb t tag)) l = l).
  { clear Hl. induction l as [|x l IH]; simpl; [reflexivity|].
    destruct (String.eqb_spec x tag) as [->|_]; simpl.
    - elim Hin. now left.
    - rewrite IH; [reflexivity|]. intros H. apply Hin. now right. }
  rewrite E. eexists. reflexivity.
Qed.

Lemma removeTag_normalized (tag : string) (st st' : LocalStorage.t)
    (repo repo' : Repo.t) :
  Cards.normalized_tags (Cards.currentTags repo) ->
  Cards.removeTag tag (st, repo) = Some (st', repo') ->
  Cards.normalized_tags (Cards.currentTags repo') /\
  ~ In tag (Cards.currentTags repo').
Proof.
  intros [Hnd Hn]. unfold Cards.removeTag, Cards.currentTags in *.
  destruct (Repo.custom_tags repo) as [l|]; [|discriminate].
  intros [= _ <-]. simpl. repeat split.
  - now apply NoDup_filter.
  - apply Forall_forall. intros x Hx. apply filter_In in Hx as [Hx _].
    revert x Hx. now apply Forall_forall.
  - intros H. apply filter_In in H as [_ H]. now rewrite String.eqb_refl in H.
Qed.

(** * Further properties of the sources *)

(** ** The local backend: reads after writes *)

Lemma tags_key_not_notes_key (a b : Num.number) :
  CustomData.tags_key a <> CustomData.notes_key b.
Proof. discriminate. Qed.

Lemma setCustomTags_notes (st : LocalStorage.t) (repoId any : Num.number)
    (tags : list string) :
  CustomData.getNotes (snd (CustomData.setCustomTags st repoId tags)) any =
  CustomData.getNotes st any.
Proof.
  unfold CustomData.setCustomTags, CustomData.getNotes.
  destruct (LocalStorage.setItem st _ _) as [st1|] eqn:E; [|reflexivity].
  simpl. now rewrite (setItem_getItem_other _ _ _ _ _ (tags_key_not_notes_key _ _) E).
Qed.

Lemma removeItem_getItem_other (st : LocalStorage.t) (k k' : string) :
  k <> k' ->
  LocalStorage.getItem (LocalStorage.removeItem st k) k' = LocalStorage.getItem st k'.
Proof. intros H. now apply lookup_remove_other. Qed.

Lemma setNotes_tags (st : LocalStorage.t) (repoId any : Num.number)
    (notes : CustomData.notes_arg) :
  CustomData.getCustomTags (snd (CustomData.setNotes st repoId notes)) any =
  CustomData.getCustomTags st any.
Proof.
  assert (Hk : CustomData.notes_key repoId <> CustomData.tags_key any).
  { intros H. symmetry in H. exact (tags_key_not_notes_key _ _ H). }
  unfold CustomData.setNotes, CustomData.getCustomTags.
  destruct notes as [s|]; [|reflexivity].
  destruct (JS.truthy (JS.trim s)).
  - destruct (LocalStorage.setItem st _ _) as [st1|] eqn:E; [|reflexivity].
    simpl. now rewrite (setItem_getItem_other _ _ _ _ _ Hk E).
  - simpl. now rewrite (removeItem_getItem_other _ _ _ Hk).
Qed.

Lemma setNotes_other (st : LocalStorage.t) (repoId other : Num.number)
    (notes : CustomData.notes_arg) :
  other <> repoId ->
  CustomData.getNotes (snd (CustomData.setNotes st repoId notes)) other =
  CustomData.getNotes st other.
Proof.
  intros Hne.
  assert (Hk : CustomData.notes_key repoId <> CustomData.notes_key other).
  { intros H. apply Hne. symmetry. exact (notes_key_inj _ _ H). }
  unfold CustomData.setNotes, CustomData.getNotes.
  destruct notes as [s|]; [|reflexivity].
  destruct (JS.truthy (JS.trim s)).
  - destruct (LocalStorage.setItem st _ _) as [st1|] eqn:E; [|reflexivity].
    simpl. now rewrite (setItem_getItem_other _ _ _ _ _ Hk E).
  - simpl. now rewrite (removeItem_getItem_other _ _ _ Hk).
Qed.

(** X1. When [setCustomTags] reports success, [getCustomTags] for the
    same repository returns the list that was written, element for
    element. *)
Theorem setCustomTags_round_trip (st st' : LocalStorage.t) (repoId : Num.number)
    (tags : list string) :
  CustomData.setCustomTags st repoId tags = (true, st') ->
  CustomData.getCustomTags st' repoId = tags.
Proof. apply setCustomTags_verbatim. Qed.

Lemma setCustomTags_round_trip_witness :
  CustomData.getCustomTags
    (snd (CustomData.setCustomTags Samples.mixed (Num.Int 7) ["b"; "a"; "b"]))
    (Num.Int 7) = ["b"; "a"; "b"].
Proof.
  apply (setCustomTags_round_trip Samples.mixed). reflexivity.
Defined.

(** X2. Writing the tags of one repository, accepted or refused, changes
    neither the tags of another repository nor the notes of any
    repository. *)
Theorem setCustomTags_frame (st : LocalStorage.t) (repoId other any : Num.number)
    (tags : list string) :
  other <> repoId ->
  CustomData.getCustomTags (snd (CustomData.setCustomTags st repoId tags)) other
    = CustomData.getCustomTags st other /\
  CustomData.getNotes (snd (CustomData.setCustomTags st repoId tags)) any
    = CustomData.getNotes st any.
Proof.
  intros Hne. split; [now apply setCustomTags_other | apply setCustomTags_notes].
Qed.

Lemma setCustomTags_frame_witness :
  CustomData.getCustomTags
    (snd (CustomData.setCustomTags Samples.mixed (Num.Int 7) ["x"])) (Num.Int 3)
    = CustomData.getCustomTags Samples.mixed (Num.Int 3) /\
  CustomData.getNotes
    (snd (CustomData.setCustomTags Samples.mixed (Num.Int 7) ["x"])) (Num.Int 7)
    = CustomData.getNotes Samples.mixed (Num.Int 7).
Proof.
  apply (setCustomTags_frame Samples.mixed (Num.Int 7) (Num.Int 3) (Num.Int 7) ["x"]).
  discriminate.
Defined.

(** X3. Notes with visible text: when [setNotes] reports success,
    [getNotes] returns the text exactly as it was given, surrounding white
    space included. *)
Theorem setNotes_round_trip (st st' : LocalStorage.t) (repoId : Num.number)
    (s : string) :
  JS.trim s <> "" ->
  CustomData.setNotes st repoId (CustomData.Text s) = (true, st') ->
  CustomData.getNotes st' repoId = s.
Proof.
  intros Hs. unfold CustomData.setNotes. rewrite (truthy_true _ Hs).
  destruct (LocalStorage.setItem st _ _) as [st1|] eqn:E; [|discriminate].
  intros [= <-]. unfold CustomData.getNotes. now rewrite (setItem_getItem _ _ _ _ E).
Qed.

Lemma setNotes_round_trip_witness :
  CustomData.getNotes
    (snd (CustomData.setNotes Samples.mixed (Num.Int 3) (CustomData.Text " new note ")))
    (Num.Int 3) = " new note ".
Proof.
  apply (setNotes_round_trip Samples.mixed); [discriminate | reflexivity].
Defined.

(** X4. Blank notes (empty, or white space only) make [setNotes] delete
    the entry of the repository: it reports success, no entry is left under
    the key and [getNotes] returns the empty string. *)
Theorem setNotes_blank_deletes (st : LocalStorage.t) (repoId : Num.number)
    (s : string) :
  JS.trim s = "" ->
  fst (CustomData.setNotes st repoId (CustomData.Text s)) = true /\
  LocalStorage.getItem (snd (CustomData.setNotes st repoId (CustomData.Text s)))
    (CustomData.notes_key repoId) = None /\
  CustomData.getNotes (snd (CustomData.setNotes st repoId (CustomData.Text s))) repoId
    = "".
Proof. intros Hs. exact (setNotes_blank st repoId s Hs). Qed.

Lemma setNotes_blank_deletes_witness :
  fst (CustomData.setNotes Samples.mixed (Num.Int 3) (CustomData.Text "   ")) = true /\
  LocalStorage.getItem
    (snd (CustomData.setNotes Samples.mixed (Num.Int 3) (CustomData.Text "   ")))
    (CustomData.notes_key (Num.Int 3)) = None /\
  CustomData.getNotes
    (snd (CustomData.setNotes Samples.mixed (Num.Int 3) (CustomData.Text "   ")))
    (Num.Int 3) = "".
Proof.
  apply (setNotes_blank_deletes Samples.mixed (Num.Int 3) "   "). reflexivity.
Defined.

(** X5. Writing or deleting the notes of one repository, whatever the
    argument and whether the write is accepted, changes neither the notes
    of another repository nor the tags of any repository. *)
Theorem setNotes_frame (st : LocalStorage.t) (repoId other any : Num.number)
    (notes : CustomData.notes_arg) :
  other <> repoId ->
  CustomData.getNotes (snd (CustomData.setNotes st repoId notes)) other
    = CustomData.getNotes st other /\
  CustomData.getCustomTags (snd (CustomData.setNotes st repoId notes)) any
    = CustomData.getCustomTags st any.
Proof.
  intros Hne. split; [now apply setNotes_other | apply setNotes_tags].
Qed.

Lemma setNotes_frame_witness :
  CustomData.getNotes
    (snd (CustomData.setNotes Samples.mixed (Num.Int 3) (CustomData.Text ""))) (Num.Int 7)
    = CustomData.getNotes Samples.mixed (Num.Int 7) /\
  CustomData.getCustomTags
    (snd (CustomData.setNotes Samples.mixed (Num.Int 3) (CustomData.Text ""))) (Num.Int 3)
    = CustomData.getCustomTags Samples.mixed (Num.Int 3).
Proof.
  apply (setNotes_frame Samples.mixed (Num.Int 3) (Num.Int 7) (Num.Int 3)
           (CustomData.Text "")).
  discriminate.
Defined.

(** ** Import as an upsert *)










(** ** Clearing the annotations *)

Lemma fold_removeItem (ks : list string) :
  forall st,
    fold_left LocalStorage.removeItem ks st =
    {| LocalStorage.items :=
         filter (fun kv => negb (existsb (String.eqb (fst kv)) ks)) (LocalStorage.items st);
       LocalStorage.quota := LocalStorage.quota st |}.
Proof.
  induction ks as [|k ks IH]; intros st; simpl.
  - destruct st as [items q]. simpl. f_equal.
    induction items as [|x l IHl]; simpl; [reflexivity | now rewrite <- IHl].
  - rewrite IH. unfold LocalStorage.removeItem, LocalStorage.remove. simpl. f_equal.
    induction (LocalStorage.items st) as [|x l IHl]; simpl; [reflexivity|].
    destruct (String.eqb (fst x) k); simpl; [exact IHl|].
    destruct (existsb (String.eqb (fst x)) ks); simpl; [exact IHl | now rewrite IHl].
Qed.

Lemma clear_items (st : LocalStorage.t) :
  LocalStorage.items (snd (CustomData.clearAllCustomData st)) =
  filter (fun kv => negb (CustomData.is_custom_key (fst kv))) (LocalStorage.items st).
Proof.
  unfold CustomData.clearAllCustomData. cbn [snd]. rewrite fold_removeItem.
  cbn [LocalStorage.items]. apply filter_ext_in. intros kv Hkv. f_equal.
  set (ks := map fst (filter (fun kv0 => CustomData.is_custom_key (fst kv0))
                        (LocalStorage.items st))).
  destruct (CustomData.is_custom_key (fst kv)) eqn:E.
  - apply existsb_exists. exists (fst kv). split; [|apply String.eqb_refl].
    apply in_map, filter_In. auto.
  - destruct (existsb (String.eqb (fst kv)) ks) eqn:E'; [|reflexivity].
    apply existsb_exists in E' as (k & Hk & Hkk). apply String.eqb_eq in Hkk. subst k.
    apply in_map_iff in Hk as (kv' & Hf & Hin). apply filter_In in Hin as [_ Hc].
    rewrite Hf in Hc. congruence.
Qed.

Lemma lookup_filter_key (q : string -> bool) (l : list (string * string)) (k : string) :
  LocalStorage.lookup (filter (fun kv => q (fst kv)) l) k =
  if q k then LocalStorage.lookup l k else None.
Proof.
  induction l as [|[k' v'] l IH]; simpl; [now destruct (q k)|].
  destruct (q k') eqn:Ek'; simpl; destruct (String.eqb_spec k' k) as [->|Hne]; auto.
  - now rewrite Ek'.
  - rewrite IH. now rewrite Ek'.
Qed.

(** X7. [clearAllCustomData] removes exactly the entries whose key starts
    with one of the two annotation prefixes: what stays are the other
    entries of the storage (the theme preference, for instance), in their
    order, and the capacity is the same. *)
Theorem clearAllCustomData_removes_exactly (st : LocalStorage.t) :
  fst (CustomData.clearAllCustomData st) = true /\
  LocalStorage.items (snd (CustomData.clearAllCustomData st)) =
    filter (fun kv => negb (CustomData.is_custom_key (fst kv))) (LocalStorage.items st) /\
  LocalStorage.quota (snd (CustomData.clearAllCustomData st)) = LocalStorage.quota st.
Proof.
  split; [reflexivity|]. split; [apply clear_items|].
  unfold CustomData.clearAllCustomData. cbn [snd]. now rewrite fold_removeItem.
Qed.

Lemma fold_unique_entry_none (l : list (string * string)) (seen : list string) :
  (forall kv, In kv l -> CustomData.is_custom_key (fst kv) = false) ->
  fold_left CustomData.unique_entry l (Some seen) = Some seen.
Proof.
  induction l as [|kv l IH]; intros H; simpl; [reflexivity|].
  assert (E : JS.startsWith (fst kv) STORAGE_KEYS.CUSTOM_TAGS_PREFIX = false).
  { specialize (H kv (or_introl eq_refl)). unfold CustomData.is_custom_key in H.
    now apply orb_false_iff in H. }
  rewrite E. apply IH. intros kv' H'. apply H. now right.
Qed.

Lemma fold_export_entry_none (l : list (string * string)) (d : CustomData.customData_t) :
  (forall kv, In kv l -> CustomData.is_custom_key (fst kv) = false) ->
  fold_left CustomData.export_entry l (Some d) = Some d.
Proof.
  induction l as [|[k v] l IH]; intros H; simpl; [reflexivity|].
  specialize (H (k, v) (or_introl eq_refl)) as Hk. unfold CustomData.is_custom_key in Hk.
  apply orb_false_iff in Hk as [E1 E2]. cbn [fst] in E1, E2. rewrite E1, E2.
  apply IH. intros kv' H'. apply H. now right.
Qed.

(** X8. After [clearAllCustomData], whatever the storage held, every
    repository reads as not annotated: [getCustomTags] gives the empty
    list and [getNotes] the empty string for every id, [getAllUniqueTags]
    gives the empty array and the export has no tags and no notes. *)
Theorem clearAllCustomData_clears (st : LocalStorage.t) (repoId : Num.number)
    (now : string) :
  CustomData.getCustomTags (snd (CustomData.clearAllCustomData st)) repoId = [] /\
  CustomData.getNotes (snd (CustomData.clearAllCustomData st)) repoId = "" /\
  CustomData.getAllUniqueTags (snd (CustomData.clearAllCustomData st)) = Some [] /\
  CustomData.getAllCustomData now (snd (CustomData.clearAllCustomData st)) =
    Some {| CustomData.tags := []; CustomData.notes := [];
            CustomData.exportedAt := now |}.
Proof.
  assert (Hnone : forall kv,
            In kv (LocalStorage.items (snd (CustomData.clearAllCustomData st))) ->
            CustomData.is_custom_key (fst kv) = false).
  { intros kv H. rewrite clear_items in H. apply filter_In in H as [_ H].
    now apply negb_true_iff in H. }
  assert (Hget : forall k, CustomData.is_custom_key k = true ->
            LocalStorage.getItem (snd (CustomData.clearAllCustomData st)) k = None).
  { intros k Hk. unfold LocalStorage.getItem. rewrite clear_items.
    rewrite (lookup_filter_key (fun k => negb (CustomData.is_custom_key k))).
    now rewrite Hk. }
  repeat split.
  - unfold CustomData.getCustomTags. rewrite Hget; [reflexivity|].
    unfold CustomData.is_custom_key. apply orb_true_iff. left. apply prefix_app.
  - unfold CustomData.getNotes. rewrite Hget; [reflexivity|].
    unfold CustomData.is_custom_key. apply orb_true_iff. right. apply prefix_app.
  - unfold CustomData.getAllUniqueTags. now rewrite (fold_unique_entry_none _ _ Hnone).
  - unfold CustomData.getAllCustomData. now apply fold_export_entry_none.
Qed.

(** ** The invariant of the storage and the contents of an export *)






Lemma Obj_get_In {V} (o : Obj.t V) (k : string) (v : V) :
  NoDup (map fst o) -> (Obj.get o k = Some v <-> In (k, v) o).
Proof.
  induction o as [|[k' v'] o IH]; simpl; intros Hnd.
  - split; [discriminate | tauto].
  - inversion Hnd as [|? ? Hk Ho]; subst.
    destruct (String.eqb_spec k' k) as [->|Hne].
    + split.
      * intros [= ->]. now left.
      * intros [[= ->]|H]; [reflexivity|].
        exfalso. apply Hk. apply in_map_iff. now exists (k, v).
    + rewrite (IH Ho). split; [tauto|]. intros [[= -> ->]|H]; [contradiction | exact H].
Qed.

Lemma Obj_get_None {V} (o : Obj.t V) (k : string) :
  Obj.get o k = None <-> ~ In k (map fst o).
Proof.
  induction o as [|[k' v'] o IH]; simpl; [tauto|].
  destruct (String.eqb_spec k' k) as [->|Hne].
  - split; [discriminate | tauto].
  - rewrite IH. tauto.
Qed.

(** The export of a well-formed storage, property by property. *)
Lemma export_of_well_formed (now : string) (st : LocalStorage.t) :
  CustomData.well_formed_store st ->
  CustomData.getAllCustomData now st =
  Some {| CustomData.tags :=
            map CustomData.tags_entry
              (filter CustomData.is_tags (LocalStorage.items st));
          CustomData.notes :=
            map CustomData.notes_entry
              (filter CustomData.is_notes (LocalStorage.items st));
          CustomData.exportedAt := now |} /\
  NoDup (map fst (map CustomData.tags_entry
                    (filter CustomData.is_tags (LocalStorage.items st)))) /\
  NoDup (map fst (map CustomData.notes_entry
                    (filter CustomData.is_notes (LocalStorage.items st)))).
Proof.
  intros (Hnd & _ & Hent).
  assert (H1 : NoDup (map fst (map CustomData.tags_entry
                 (filter CustomData.is_tags (LocalStorage.items st))))).
  { rewrite map_map. apply (NoDup_suffixes STORAGE_KEYS.CUSTOM_TAGS_PREFIX); auto. }
  assert (H2 : NoDup (map fst (map CustomData.notes_entry
                 (filter CustomData.is_notes (LocalStorage.items st))))).
  { rewrite map_map.
    apply (NoDup_suffixes STORAGE_KEYS.NOTES_PREFIX); [apply is_notes_startsWith | auto]. }
  split; [|split; assumption].
  unfold CustomData.getAllCustomData. rewrite export_fold; [reflexivity| | |]; simpl; auto.
  intros [k v] Hin Hk. destruct (Hent k v Hin) as [Ht _].
  destruct (Ht Hk) as [_ [l ->]]. cbn [snd]. rewrite parse_stringify. discriminate.
Qed.

Lemma getCustomTags_of_entry (st : LocalStorage.t) (repoId : Num.number) (l : list string) :
  LocalStorage.getItem st (CustomData.tags_key repoId) = Some (JSON.stringify l) ->
  CustomData.getCustomTags st repoId = l.
Proof.
  intros H. unfold CustomData.getCustomTags.
  now rewrite H, stringify_truthy, parse_stringify.
Qed.

(** X10. The export of a well-formed storage has, under the decimal id of
    each repository, the tag list [getCustomTags] returns if the storage
    has a tags entry for it (and no property otherwise), and the notes text
    if the storage has a notes entry for it; its time stamp is the current
    time. *)
Theorem getAllCustomData_contents (now : string) (st : LocalStorage.t)
    (repoId : Num.number) :
  CustomData.well_formed_store st ->
  exists d,
    CustomData.getAllCustomData now st = Some d /\
    CustomData.exportedAt d = now /\
    Obj.get (CustomData.tags d) (Num.toString repoId) =
      match LocalStorage.getItem st (CustomData.tags_key repoId) with
      | Some _ => Some (CustomData.getCustomTags st repoId)
      | None => None
      end /\
    Obj.get (CustomData.notes d) (Num.toString repoId) =
      LocalStorage.getItem st (CustomData.notes_key repoId).
Proof.
  intros Hwf. destruct (export_of_well_formed now st Hwf) as (Hd & HndT & HndN).
  destruct Hwf as (Hnd & _ & Hent).
  eexists. split; [exact Hd|]. cbn [CustomData.tags CustomData.notes CustomData.exportedAt].
  split; [reflexivity|]. unfold LocalStorage.getItem. split.
  - destruct (LocalStorage.lookup (LocalStorage.items st) (CustomData.tags_key repoId))
      as [v|] eqn:E.
    + pose proof E as Hin. apply (lookup_In _ _ _ Hnd) in Hin.
      destruct (Hent _ _ Hin) as [Ht _].
      destruct (Ht (tags_key_is_tags repoId v)) as [_ [l ->]].
      rewrite (getCustomTags_of_entry st repoId l E).
      apply (Obj_get_In _ _ _ HndT), in_map_iff.
      exists (CustomData.tags_key repoId, JSON.stringify l). split.
      * unfold CustomData.tags_entry. cbn [fst snd].
        now rewrite remove_first_tags_key, parse_stringify.
      * apply filter_In. split; [exact Hin | apply tags_key_is_tags].
    + apply Obj_get_None. intros H. rewrite map_map in H.
      apply in_map_iff in H as ([k v] & Hk & Hin). apply filter_In in Hin as [Hin Hp].
      destruct (Hent _ _ Hin) as [Ht _]. destruct (Ht Hp) as [[id ->] _].
      cbn [fst CustomData.tags_entry] in Hk. rewrite remove_first_tags_key in Hk.
      apply toString_inj in Hk. subst id.
      apply (lookup_In _ _ _ Hnd) in Hin. congruence.
  - destruct (LocalStorage.lookup (LocalStorage.items st) (CustomData.notes_key repoId))
      as [v|] eqn:E.
    + pose proof E as Hin. apply (lookup_In _ _ _ Hnd) in Hin.
      apply (Obj_get_In _ _ _ HndN), in_map_iff.
      exists (CustomData.notes_key repoId, v). split.
      * unfold CustomData.notes_entry. cbn [fst snd].
        now rewrite remove_first_notes_key.
      * apply filter_In. split; [exact Hin | apply notes_key_is_notes].
    + apply Obj_get_None. intros H. rewrite map_map in H.
      apply in_map_iff in H as ([k v] & Hk & Hin). apply filter_In in Hin as [Hin Hp].
      destruct (Hent _ _ Hin) as [_ Hn].
      destruct (Hn (is_notes_startsWith _ Hp)) as [[id ->] _].
      cbn [fst CustomData.notes_entry] in Hk. rewrite remove_first_notes_key in Hk.
      apply toString_inj in Hk. subst id.
      apply (lookup_In _ _ _ Hnd) in Hin. congruence.
Qed.

Lemma getAllCustomData_contents_witness :
  exists d,
    CustomData.getAllCustomData "2024-05-01T00:00:00.000Z" Samples.mixed = Some d /\
    CustomData.exportedAt d = "2024-05-01T00:00:00.000Z" /\
    Obj.get (CustomData.tags d) (Num.toString (Num.Int 7)) =
      match LocalStorage.getItem Samples.mixed (CustomData.tags_key (Num.Int 7)) with
      | Some _ => Some (CustomData.getCustomTags Samples.mixed (Num.Int 7))
      | None => None
      end /\
    Obj.get (CustomData.notes d) (Num.toString (Num.Int 7)) =
      LocalStorage.getItem Samples.mixed (CustomData.notes_key (Num.Int 7)).
Proof.
  apply (getAllCustomData_contents "2024-05-01T00:00:00.000Z" Samples.mixed (Num.Int 7)).
  split; [|split].
  - simpl. repeat constructor; simpl; intuition discriminate.
  - vm_compute. lia.
  - intros k v [H|[H|[H|[H|[]]]]]; injection H as <- <-; split; intros Hk;
      try discriminate Hk.
    + split; [exists (Num.Int 3) | exists ["cool"]]; reflexivity.
    + split; [exists (Num.Int 3); reflexivity | discriminate].
    + split; [exists (Num.Int 7); reflexivity | discriminate].
Defined.

(** ** Sorting the repositories *)

Section SortBy.

Context {A : Type}.
Variable cmp : A -> A -> Z.
Variable R : A -> A -> Prop.
Variable P : A -> Prop.
Hypothesis cmp_le : forall x y, P x -> P y -> (cmp x y <= 0)%Z -> R x y.
Hypothesis cmp_gt : forall x y, P x -> P y -> (cmp x y > 0)%Z -> R y x.

Lemma insert_HdRel_by (a x : A) (l : list A) :
  R a x -> HdRel R a l -> HdRel R a (JS.insert cmp x l).
Proof.
  intros Hax Hl. destruct l as [|y r]; simpl; [now constructor|].
  destruct (cmp x y <=? 0)%Z; constructor; auto. now inversion Hl.
Qed.

Lemma insert_sorted_by (x : A) (l : list A) :
  P x -> Forall P l -> Sorted R l -> Sorted R (JS.insert cmp x l).
Proof.
  intros Hx. induction l as [|y r IH]; intros HP Hs; simpl.
  - repeat constructor.
  - inversion HP as [|? ? Hy HPr]; subst.
    destruct (Z.leb_spec (cmp x y) 0).
    + constructor; [exact Hs|]. constructor. now apply cmp_le.
    + inversion Hs as [|? ? Hr Hhd]; subst. constructor; [now apply IH|].
      apply insert_HdRel_by; [|exact Hhd]. apply cmp_gt; auto. lia.
Qed.

Lemma insert_Forall (x : A) (l : list A) :
  P x -> Forall P l -> Forall P (JS.insert cmp x l).
Proof.
  intros Hx Hl. apply Forall_forall. intros y Hy.
  apply (Permutation_in _ (Permutation_sym (insert_perm cmp x l))) in Hy.
  destruct Hy as [<-|Hy]; [exact Hx|]. revert y Hy. now apply Forall_forall.
Qed.

Lemma sort_sorted_by (l : list A) : Forall P l -> Sorted R (JS.sort cmp l).
Proof.
  induction l as [|x l IH]; intros HP; simpl; [constructor|].
  inversion HP as [|? ? Hx Hl]; subst.
  apply insert_sorted_by; auto.
  clear IH. induction l as [|y l IHl]; simpl; [constructor|].
  inversion Hl; subst. apply insert_Forall; auto.
Qed.

End SortBy.

Section Stable.

Context {A : Type}.
Variable cmp : A -> A -> Z.
Variable key : A -> Z.
Hypothesis cmp_gt_key : forall x y, (cmp x y > 0)%Z -> key x <> key y.

Lemma insert_filter_key (k : Z) (x : A) (l : list A) :
  filter (fun a => (key a =? k)%Z) (JS.insert cmp x l) =
  filter (fun a => (key a =? k)%Z) (x :: l).
Proof.
  induction l as [|y r IH]; [reflexivity|]. cbn [JS.insert].
  destruct (Z.leb_spec (cmp x y) 0); [reflexivity|].
  cbn [filter] in *. rewrite IH.
  assert (Hne : key x <> key y) by (apply cmp_gt_key; lia).
  destruct (Z.eqb_spec (key x) k), (Z.eqb_spec (key y) k); try reflexivity.
  congruence.
Qed.

Lemma sort_filter_key (k : Z) (l : list A) :
  filter (fun a => (key a =? k)%Z) (JS.sort cmp l) =
  filter (fun a => (key a =? k)%Z) l.
Proof.
  induction l as [|x l IH]; [reflexivity|]. cbn [JS.sort].
  rewrite insert_filter_key. cbn [filter]. now rewrite IH.
Qed.

End Stable.

Lemma sorts_by_stars_cases (h : Filters.host) (repos : list Repo.t) (o : string) :
  Filters.sorts_by_stars o ->
  Filters.sortRepositories h repos o =
  if String.eqb o SORT_OPTIONS.STARS_ASC
  then JS.sort (fun a b => (Repo.stargazers_count a - Repo.stargazers_count b)%Z) repos
  else JS.sort Filters.by_stars_desc repos.
Proof.
  intros (H1 & H2 & H3 & H4). unfold Filters.sortRepositories.
  destruct (String.eqb_spec o SORT_OPTIONS.STARS_DESC) as [->|_]; [reflexivity|].
  destruct (String.eqb_spec o SORT_OPTIONS.STARS_ASC) as [->|_]; [reflexivity|].
  destruct (String.eqb_spec o SORT_OPTIONS.NAME_ASC); [contradiction|].
  destruct (String.eqb_spec o SORT_OPTIONS.NAME_DESC); [contradiction|].
  destruct (String.eqb_spec o SORT_OPTIONS.UPDATED_DESC); [contradiction|].
  destruct (String.eqb_spec o SORT_OPTIONS.UPDATED_ASC); [contradiction|].
  reflexivity.
Qed.

(** X11. Sorting loses nothing: for every sort option, every
    [localeCompare] and every reading of dates, even inconsistent ones,
    the result of [sortRepositories] is a rearrangement of its argument,
    with the same length. *)
Theorem sortRepositories_keeps_records (h : Filters.host) (repos : list Repo.t)
    (sortOption : string) :
  Permutation repos (Filters.sortRepositories h repos sortOption) /\
  length (Filters.sortRepositories h repos sortOption) = length repos.
Proof.
  pose proof (sortRepositories_perm h repos sortOption) as H.
  split; [exact H | symmetry; now apply Permutation_length].
Qed.

(** X12. Star order: with [stars-desc], and with every sort option the
    switch does not know, each record of the result has at least as many
    stars as every record after it; with [stars-asc] it has at most as
    many. *)
Theorem sortRepositories_by_stars (h : Filters.host) (repos : list Repo.t)
    (sortOption : string) :
  Filters.sorts_by_stars sortOption ->
  if String.eqb sortOption SORT_OPTIONS.STARS_ASC
  then StronglySorted
         (fun a b => (Repo.stargazers_count a <= Repo.stargazers_count b)%Z)
         (Filters.sortRepositories h repos sortOption)
  else StronglySorted
         (fun a b => (Repo.stargazers_count b <= Repo.stargazers_count a)%Z)
         (Filters.sortRepositories h repos sortOption).
Proof.
  intros Ho. rewrite (sorts_by_stars_cases h repos sortOption Ho).
  destruct (String.eqb sortOption SORT_OPTIONS.STARS_ASC).
  - apply Sorted_StronglySorted; [intros a b c; lia|].
    apply (sort_sorted_by _ _ (fun _ => True)); try (intros; lia).
    apply Forall_forall. auto.
  - apply Sorted_StronglySorted; [intros a b c; lia|].
    apply (sort_sorted_by _ _ (fun _ => True));
      try (unfold Filters.by_stars_desc; intros; lia).
    apply Forall_forall. auto.
Qed.

Lemma sortRepositories_by_stars_witness :
  StronglySorted (fun a b => (Repo.stargazers_count b <= Repo.stargazers_count a)%Z)
    (Filters.sortRepositories Samples.plain_host
       [Samples.alpha; Samples.beta; Samples.gamma] "most-forked").
Proof.
  apply (sortRepositories_by_stars Samples.plain_host
           [Samples.alpha; Samples.beta; Samples.gamma] "most-forked").
  repeat split; discriminate.
Defined.

(** X13. The star sorts are stable: records with the same star count keep
    the order they have in the argument. *)
Theorem sortRepositories_stars_stable (h : Filters.host) (repos : list Repo.t)
    (sortOption : string) (stars : Z) :
  Filters.sorts_by_stars sortOption ->
  filter (fun r => (Repo.stargazers_count r =? stars)%Z)
    (Filters.sortRepositories h repos sortOption) =
  filter (fun r => (Repo.stargazers_count r =? stars)%Z) repos.
Proof.
  intros Ho. rewrite (sorts_by_stars_cases h repos sortOption Ho).
  destruct (String.eqb sortOption SORT_OPTIONS.STARS_ASC);
    apply (sort_filter_key _ Repo.stargazers_count);
    unfold Filters.by_stars_desc; intros x y Hgt E; rewrite E in Hgt; lia.
Qed.

Lemma sortRepositories_stars_stable_witness :
  filter (fun r => (Repo.stargazers_count r =? 10)%Z)
    (Filters.sortRepositories Samples.plain_host
       [Samples.alpha; Samples.beta; Samples.alpha_fork] SORT_OPTIONS.STARS_DESC) =
  filter (fun r => (Repo.stargazers_count r =? 10)%Z)
    [Samples.alpha; Samples.beta; Samples.alpha_fork].
Proof.
  apply (sortRepositories_stars_stable Samples.plain_host
           [Samples.alpha; Samples.beta; Samples.alpha_fork] SORT_OPTIONS.STARS_DESC 10).
  repeat split; discriminate.
Defined.

(** X14. Date order: when the [updated_at] of every record is a valid
    date, [updated-desc] puts each record in front of the records updated
    earlier, and [updated-asc] behind them. *)
Theorem sortRepositories_by_update (h : Filters.host) (repos : list Repo.t) :
  Forall (Filters.valid_date h) repos ->
  StronglySorted (fun a b => (Filters.updated_time h b <= Filters.updated_time h a)%Z)
    (Filters.sortRepositories h repos SORT_OPTIONS.UPDATED_DESC) /\
  StronglySorted (fun a b => (Filters.updated_time h a <= Filters.updated_time h b)%Z)
    (Filters.sortRepositories h repos SORT_OPTIONS.UPDATED_ASC).
Proof.
  intros Hv.
  assert (Hd : forall x y, Filters.valid_date h x -> Filters.valid_date h y ->
            Filters.date_diff h (Repo.updated_at x) (Repo.updated_at y)
            = (Filters.updated_time h x - Filters.updated_time h y)%Z).
  { intros x y Hx Hy. unfold Filters.valid_date, Filters.date_diff, Filters.updated_time in *.
    destruct (Filters.Date_time h (Repo.updated_at x)); [|contradiction].
    destruct (Filters.Date_time h (Repo.updated_at y)); [reflexivity | contradiction]. }
  split; apply Sorted_StronglySorted; try (intros a b c; lia).
  - change (Filters.sortRepositories h repos SORT_OPTIONS.UPDATED_DESC)
      with (JS.sort (fun a b => Filters.date_diff h (Repo.updated_at b) (Repo.updated_at a))
              repos).
    apply (sort_sorted_by _ _ (Filters.valid_date h)); auto;
      intros x y Hx Hy; rewrite (Hd y x Hy Hx); lia.
  - change (Filters.sortRepositories h repos SORT_OPTIONS.UPDATED_ASC)
      with (JS.sort (fun a b => Filters.date_diff h (Repo.updated_at a) (Repo.updated_at b))
              repos).
    apply (sort_sorted_by _ _ (Filters.valid_date h)); auto;
      intros x y Hx Hy; rewrite (Hd x y Hx Hy); lia.
Qed.

Lemma sortRepositories_by_update_witness :
  (StronglySorted
     (fun a b => (Filters.updated_time Samples.january_host b
                  <= Filters.updated_time Samples.january_host a)%Z)
     (Filters.sortRepositories Samples.january_host
        [Samples.earlier; Samples.later] SORT_OPTIONS.UPDATED_DESC) /\
   StronglySorted
     (fun a b => (Filters.updated_time Samples.january_host a
                  <= Filters.updated_time Samples.january_host b)%Z)
     (Filters.sortRepositories Samples.january_host
        [Samples.earlier; Samples.later] SORT_OPTIONS.UPDATED_ASC)) /\
  (Filters.updated_time Samples.january_host Samples.earlier
   < Filters.updated_time Samples.january_host Samples.later)%Z /\
  Filters.sortRepositories Samples.january_host
    [Samples.earlier; Samples.later] SORT_OPTIONS.UPDATED_DESC
  = [Samples.later; Samples.earlier] /\
  Filters.sortRepositories Samples.january_host
    [Samples.later; Samples.earlier] SORT_OPTIONS.UPDATED_ASC
  = [Samples.earlier; Samples.later].
Proof.
  split; [|split; [reflexivity | split; reflexivity]].
  apply (sortRepositories_by_update Samples.january_host [Samples.earlier; Samples.later]).
  repeat constructor; discriminate.
Defined.

(** ** When the filter engine throws, and what a click narrows *)

Lemma filter_throwing_None {A} (pred : A -> option bool) (l : list A) :
  Filters.filter_throwing pred l = None <-> exists x, In x l /\ pred x = None.
Proof.
  induction l as [|y t IH]; simpl.
  - split; [discriminate | intros (x & H & _); destruct H].
  - destruct (pred y) as [b|] eqn:Hy.
    + destruct (Filters.filter_throwing pred t) as [r|].
      * split; [discriminate|]. intros (x & [<-|Hx] & Hp); [congruence|].
        assert (E : Some r = None) by (apply IH; now exists x). discriminate E.
      * split; [|reflexivity]. intros _.
        destruct IH as [IH _]. destruct (IH eq_refl) as (x & Hx & Hp).
        exists x. auto.
    + split; [|reflexivity]. intros _. exists y. auto.
Qed.

Lemma search_predicate_None (s : string) (repo : Repo.t) :
  Filters.search_predicate s repo = None <->
  Repo.description repo = None /\
  JS.includes (JS.toLowerCase (Repo.name repo)) s = false.
Proof.
  destruct (Repo.description repo) as [d|] eqn:E.
  - rewrite (search_predicate_described _ _ _ E). split; [discriminate | intros [H _]; discriminate].
  - rewrite (search_predicate_null_description _ _ E).
    destruct (JS.includes _ s); split; try discriminate; auto.
    intros [_ H]. discriminate.
Qed.

(** X15. [applyFilters] throws in exactly two situations.  Either a
    search string is set and some record of the list has a [null]
    description and a name that does not contain the search string: the
    search step throws.  Or some record of the list matches the four
    predicates and has no [custom_tags] array: [createRepoCard] throws
    while the list is rendered. *)
Theorem applyFilters_throws_iff (h : Filters.host) (f : Filters.currentFilters_t)
    (allRepositories : list Repo.t) :
  Filters.applyFilters h f allRepositories = None <->
  (Filters.search f <> "" /\
   exists repo, In repo allRepositories /\
     Repo.description repo = None /\
     JS.includes (JS.toLowerCase (Repo.name repo)) (Filters.search f) = false) \/
  (exists repo, In repo allRepositories /\
     Repo.custom_tags repo = None /\
     Filters.matches_search (Filters.search f) repo /\
     Filters.matches_language (Filters.language f) repo /\
     Filters.matches_topics (Filters.topics f) repo /\
     Filters.matches_tags (Filters.customTags f) repo).
Proof.
  destruct (Filters.search_step f allRepositories) as [l1|] eqn:Hs.
  - destruct (applyFilters_rendered h f allRepositories l1 Hs) as [Hthrow Hret].
    split.
    + intros Hn. right.
      destruct (Cards.renderRepositories
                  (Filters.sortRepositories h
                     (Filters.customTags_step f
                        (Filters.topics_step f (Filters.language_step f l1)))
                     (Filters.sort f))) as [cards|] eqn:Er.
      * unfold Filters.applyFilters in Hn. rewrite Hs in Hn. cbv zeta in Hn.
        rewrite Er in Hn. discriminate Hn.
      * apply renderRepositories_None in Er as (r & Hr & E).
        apply (filtered_In h f allRepositories l1 r Hs) in Hr. exists r. tauto.
    + intros [(Hne & repo & Hin & Hd & Hn)|(repo & Hin & E & Hm)].
      * exfalso. unfold Filters.search_step in Hs.
        rewrite (truthy_true _ Hne) in Hs.
        assert (Hx : Filters.filter_throwing
                       (Filters.search_predicate (Filters.search f)) allRepositories
                     = None).
        { apply filter_throwing_None. exists repo. split; [exact Hin|].
          apply search_predicate_None. auto. }
        congruence.
      * apply Hthrow. exists repo. split; [|exact E].
        apply (filtered_In h f allRepositories l1 repo Hs). tauto.
  - assert (Hn : Filters.applyFilters h f allRepositories = None).
    { unfold Filters.applyFilters. now rewrite Hs. }
    split; [intros _ | intros _; exact Hn]. left.
    unfold Filters.search_step in Hs.
    destruct (Filters.search f) as [|c S] eqn:Es; cbn [JS.truthy] in Hs; [discriminate|].
    split; [discriminate|].
    apply filter_throwing_None in Hs as (repo & Hin & Hp).
    apply search_predicate_None in Hp. exists repo. tauto.
Qed.

Lemma matches_topics_app (T : list string) (topic : string) (r : Repo.t) :
  Filters.matches_topics (T ++ [topic]) r <->
  Filters.matches_topics T r /\ exists a, Repo.topics r = Some a /\ In topic a.
Proof.
  unfold Filters.matches_topics. split.
  - intros H. split.
    + intros y Hy. apply H, in_or_app. now left.
    + apply H, in_or_app. right. now left.
  - intros [H1 H2] y Hy. apply in_app_or in Hy as [Hy|[<-|[]]]; auto.
Qed.

(** X16. A click on a topic badge narrows the view to the records that
    have the topic: when [applyFilters] returns before the 'filterByTopic'
    event, it returns after it, and the records it shows then are those it
    showed before that carry the topic. *)
Theorem filterByTopic_narrows (h : Filters.host) (f : Filters.currentFilters_t)
    (topic : string) (allRepositories before : list Repo.t) :
  Filters.applyFilters h f allRepositories = Some before ->
  exists after,
    Filters.applyFilters h (Filters.handle (Filters.FilterByTopic topic) f)
      allRepositories = Some after /\
    forall r, In r after <->
              In r before /\ exists a, Repo.topics r = Some a /\ In topic a.
Proof.
  intros Hb. set (f' := Filters.handle (Filters.FilterByTopic topic) f).
  assert (Hf : Filters.search f' = Filters.search f /\
               Filters.language f' = Filters.language f /\
               Filters.customTags f' = Filters.customTags f /\
               forall r, Filters.matches_topics (Filters.topics f') r <->
                 Filters.matches_topics (Filters.topics f) r /\
                 exists a, Repo.topics r = Some a /\ In topic a).
  { unfold f'. simpl. destruct (JS.arr_includes (Filters.topics f) topic) eqn:Ei.
    - split; [reflexivity|]. split; [reflexivity|]. split; [reflexivity|].
      intros r. apply arr_includes_In in Ei. split; [|tauto].
      intros H. split; [exact H | exact (H topic Ei)].
    - split; [reflexivity|]. split; [reflexivity|]. split; [reflexivity|].
      intros r. apply matches_topics_app. }
  destruct Hf as (Hsearch & Hlang & Htags & Htopics).
  assert (Hs : exists l1, Filters.search_step f allRepositories = Some l1).
  { unfold Filters.applyFilters in Hb.
    destruct (Filters.search_step f allRepositories) as [l1|]; [eauto | discriminate]. }
  destruct Hs as [l1 Hs].
  assert (Hs' : Filters.search_step f' allRepositories = Some l1).
  { unfold Filters.search_step in *. now rewrite Hsearch. }
  assert (Hin : forall r,
            In r (Filters.sortRepositories h
                    (Filters.customTags_step f'
                       (Filters.topics_step f' (Filters.language_step f' l1)))
                    (Filters.sort f')) <->
            In r before /\ exists a, Repo.topics r = Some a /\ In topic a).
  { intros r. rewrite (filtered_In h f' allRepositories l1 r Hs'),
      (applyFilters_Some_In h f allRepositories before r Hb),
      Hsearch, Hlang, Htags, Htopics. tauto. }
  destruct (applyFilters_rendered h f' allRepositories l1 Hs') as [_ Hret].
  eexists. split; [|exact Hin].
  apply Hret. intros r Hr. apply Hin in Hr as [Hr _].
  unfold Filters.applyFilters in Hb. rewrite Hs in Hb. cbv zeta in Hb.
  destruct (Cards.renderRepositories _) as [cards|] eqn:Er; [|discriminate].
  injection Hb as <-. intros E.
  assert (Hx : Cards.renderRepositories
                 (Filters.sortRepositories h
                    (Filters.customTags_step f
                       (Filters.topics_step f (Filters.language_step f l1)))
                    (Filters.sort f)) = None).
  { apply renderRepositories_None. now exists r. }
  congruence.
Qed.

Lemma filterByTopic_narrows_witness :
  exists after,
    Filters.applyFilters Samples.plain_host
      (Filters.handle (Filters.FilterByTopic "cli") Filters.defaults)
      [Samples.alpha; Samples.beta; Samples.gamma] = Some after /\
    forall r, In r after <->
              In r [Samples.beta; Samples.alpha; Samples.gamma] /\
              exists a, Repo.topics r = Some a /\ In "cli" a.
Proof.
  apply (filterByTopic_narrows Samples.plain_host Filters.defaults "cli"
           [Samples.alpha; Samples.beta; Samples.gamma]
           [Samples.beta; Samples.alpha; Samples.gamma]).
  reflexivity.
Defined.

(** X17. The listeners keep the selections free of repetitions: when the
    selected topics and the selected custom tags have no repeated element,
    they have none after any event other than the programmatic
    [updateFilters]. *)
Theorem handle_keeps_selections_distinct (e : Filters.event)
    (f : Filters.currentFilters_t) :
  (forall p, e <> Filters.UpdateFilters p) ->
  NoDup (Filters.topics f) -> NoDup (Filters.customTags f) ->
  NoDup (Filters.topics (Filters.handle e f)) /\
  NoDup (Filters.customTags (Filters.handle e f)).
Proof.
  intros Hp Ht Hc.
  assert (Hadd : forall l x, NoDup l -> JS.arr_includes l x = false -> NoDup (l ++ [x])).
  { intros l x Hl Hx. apply NoDup_app; auto.
    - constructor; [intros [] | constructor].
    - intros y Hy [<-|[]]. apply arr_includes_In in Hy. congruence. }
  destruct e as [v|v|v|ty v|t|t|p|]; simpl; auto.
  - destruct ty; simpl; auto; split; auto; now apply NoDup_filter.
  - destruct (JS.arr_includes _ _) eqn:E; simpl; auto.
  - destruct (JS.arr_includes _ _) eqn:E; simpl; auto.
  - now elim (Hp p).
  - split; constructor.
Qed.

Lemma handle_keeps_selections_distinct_witness :
  NoDup (Filters.topics
           (Filters.handle (Filters.FilterByTopic "cli")
              (Filters.set_topics ["cli"; "web"] Filters.defaults))) /\
  NoDup (Filters.customTags
           (Filters.handle (Filters.FilterByTopic "cli")
              (Filters.set_topics ["cli"; "web"] Filters.defaults))).
Proof.
  apply (handle_keeps_selections_distinct (Filters.FilterByTopic "cli")
           (Filters.set_topics ["cli"; "web"] Filters.defaults)).
  - discriminate.
  - simpl. repeat constructor; simpl; intuition discriminate.
  - constructor.
Defined.

(** ** The query of the address bar *)

Lemma no_comma_cons (c : ascii) (s : string) :
  Filters.no_comma (String c s) -> Ascii.eqb c "," = false /\ Filters.no_comma s.
Proof.
  unfold Filters.no_comma. cbn [JS.includes]. intros H.
  apply orb_false_iff in H as [H1 H2]. split; [|exact H2].
  destruct (Ascii.eqb_spec c ","%char) as [->|]; [|reflexivity].
  exfalso. cbn [String.prefix] in H1.
  destruct (ascii_dec "," ",") as [_|n]; [|now elim n].
  destruct s; discriminate H1.
Qed.

Lemma append_nil_r (s : string) : s ++ "" = s.
Proof. induction s; simpl; [|rewrite IHs]; reflexivity. Qed.

Lemma split_aux_no_comma (x rest cur : string) :
  Filters.no_comma x ->
  Filters.split_comma_aux (x ++ rest) cur = Filters.split_comma_aux rest (cur ++ x).
Proof.
  revert cur. induction x as [|c x IH]; intros cur Hx; simpl.
  - now rewrite append_nil_r.
  - apply no_comma_cons in Hx as [Hc Hx]. rewrite Hc, (IH _ Hx), append_assoc.
    reflexivity.
Qed.

(** [split(',')] undoes [join(',')] on topics without a comma. *)
Lemma split_join (l : list string) :
  l <> [] -> Forall Filters.no_comma l ->
  Filters.split_comma (Filters.join_comma l) = l.
Proof.
  unfold Filters.split_comma.
  induction l as [|x t IH]; [congruence|]. intros _ Hl.
  inversion Hl as [|? ? Hx Ht]; subst. destruct t as [|y t].
  - cbn [Filters.join_comma]. rewrite <- (append_nil_r x) at 1.
    now rewrite (split_aux_no_comma _ _ _ Hx).
  - change (Filters.join_comma (x :: y :: t))
      with (x ++ String "," (Filters.join_comma (y :: t))).
    rewrite (split_aux_no_comma _ _ _ Hx). cbn [Filters.split_comma_aux append].
    change (Ascii.eqb "," ",") with true. cbv iota.
    rewrite IH; [reflexivity | discriminate | exact Ht].
Qed.

(** X18. The query round trip: the filter state [initURLFilters] reads
    from the query [updateURL] writes is the state that was written, except
    that the selected custom tags are not part of the query and come back
    empty.  It holds when no selected topic contains a comma and the sort
    option is not the empty string. *)
Theorem url_round_trip (f : Filters.currentFilters_t) :
  Forall Filters.no_comma (Filters.topics f) ->
  Filters.sort f <> "" ->
  Filters.initURLFilters (Filters.updateURL f) Filters.defaults
  = Filters.set_customTags [] f.
Proof.
  destruct f as [s l t c so]. cbn [Filters.topics Filters.sort]. intros Ht Hso.
  assert (Hsplit : forall x t', Forall Filters.no_comma (x :: t') ->
            Filters.split_comma (Filters.join_comma (x :: t')) = x :: t').
  { intros x t' H. apply split_join; [discriminate | exact H]. }
  unfold Filters.updateURL, Filters.initURLFilters, Filters.set_customTags.
  cbn [Filters.search Filters.language Filters.topics Filters.sort Filters.customTags].
  rewrite (truthy_true _ Hso). cbn [andb].
  destruct (String.eqb_spec so SORT_OPTIONS.STARS_DESC) as [->|Hne];
    destruct s as [|cs s]; destruct l as [|cl l]; destruct t as [|x t];
    cbn [JS.truthy negb app Filters.params_get String.eqb Ascii.eqb Bool.eqb
         Filters.set_search Filters.set_language Filters.set_topics Filters.set_sort
         Filters.search Filters.language Filters.topics Filters.sort Filters.customTags
         Filters.defaults];
    rewrite ?(Hsplit _ _ Ht); reflexivity.
Qed.

Lemma url_round_trip_witness :
  Filters.initURLFilters
    (Filters.updateURL
       {| Filters.search := "parser"; Filters.language := "Go";
          Filters.topics := ["cli"; "web"]; Filters.customTags := ["cool"];
          Filters.sort := SORT_OPTIONS.NAME_ASC |})
    Filters.defaults
  = Filters.set_customTags []
      {| Filters.search := "parser"; Filters.language := "Go";
         Filters.topics := ["cli"; "web"]; Filters.customTags := ["cool"];
         Filters.sort := SORT_OPTIONS.NAME_ASC |}.
Proof.
  apply url_round_trip.
  - repeat constructor.
  - discriminate.
Defined.

(** ** The chips of the active filters *)

Lemma activeFilters_In (f : Filters.currentFilters_t) (c : Components.chip) :
  In c (Components.activeFilters f) <->
  (Filters.search f <> "" /\ c = Components.search_chip (Filters.search f)) \/
  (Filters.language f <> "" /\ c = Components.language_chip (Filters.language f)) \/
  (exists t, In t (Filters.topics f) /\ c = Components.topic_chip t).
Proof.
  unfold Components.activeFilters. rewrite !in_app_iff, in_map_iff.
  assert (H : forall s (x : Components.chip),
            In c (if JS.truthy s then [x] else []) <-> s <> "" /\ c = x).
  { intros s x. destruct s; simpl.
    - split; [tauto | intros [H _]; now elim H].
    - split; [intros [<-|[]]; split; [discriminate | reflexivity]
             | intros [_ ->]; now left]. }
  rewrite !H. split.
  - intros [?|[?|(t & E & Ht)]]; auto. right. right. now exists t.
  - intros [?|[?|(t & Ht & E)]]; auto. right. right. now exists t.
Qed.

Lemma chip_eqb_refl (c : Components.chip) : Components.chip_eqb c c = true.
Proof.
  unfold Components.chip_eqb. rewrite String.eqb_refl.
  destruct (Components.type c); destruct (Components.value c); simpl;
    rewrite ?String.eqb_refl; reflexivity.
Qed.

Lemma chip_eqb_topic (t' t : string) :
  Components.chip_eqb (Components.topic_chip t') (Components.topic_chip t)
  = String.eqb t' t.
Proof.
  unfold Components.chip_eqb. cbn [Components.type Components.value Components.label
    Components.topic_chip Components.filter_type_eqb andb].
  destruct (String.eqb_spec t' t) as [->|_]; [apply String.eqb_refl | reflexivity].
Qed.

Lemma filter_other_type (c : Components.chip) (chips : list Components.chip) :
  (forall c', In c' chips -> Components.type c' <> Components.type c) ->
  filter (fun c' => negb (Components.chip_eqb c' c)) chips = chips.
Proof.
  intros H. induction chips as [|x l IH]; simpl; [reflexivity|].
  assert (E : Components.chip_eqb x c = false).
  { unfold Components.chip_eqb. specialize (H x (or_introl eq_refl)).
    destruct (Components.type x); destruct (Components.type c);
      try reflexivity; now elim H. }
  rewrite E. simpl. rewrite IH; [reflexivity|]. intros c' Hc. apply H. now right.
Qed.

Lemma filter_topic_chips (t : string) (T : list string) :
  filter (fun c' => negb (Components.chip_eqb c' (Components.topic_chip t)))
    (map Components.topic_chip T)
  = map Components.topic_chip (filter (Filters.differs t) T).
Proof.
  induction T as [|x T IH]; simpl; [reflexivity|].
  rewrite chip_eqb_topic. unfold Filters.differs at 1.
  destruct (String.eqb x t); simpl; now rewrite IH.
Qed.

Lemma filter_differs_absent (t : string) (T : list string) :
  ~ In t T -> filter (Filters.differs t) T = T.
Proof.
  induction T as [|x T IH]; intros Hin; simpl; [reflexivity|].
  unfold Filters.differs at 1. destruct (String.eqb_spec x t) as [->|_]; simpl.
  - elim Hin. now left.
  - rewrite IH; [reflexivity|]. intros H. apply Hin. now right.
Qed.

Lemma length_filter_differs (t : string) (T : list string) :
  NoDup T -> In t T -> length T = S (length (filter (Filters.differs t) T)).
Proof.
  induction T as [|x T IH]; intros Hnd Hin; [destruct Hin|].
  inversion Hnd as [|? ? Hx HT]; subst. simpl. unfold Filters.differs at 1.
  destruct (String.eqb_spec x t) as [->|Hne]; simpl.
  - now rewrite (filter_differs_absent t T Hx).
  - f_equal. apply IH; [exact HT|]. destruct Hin as [E|H]; [now elim Hne | exact H].
Qed.

(** X19. The button of a chip removes the chips equal to it and keeps the
    others in their order: after the 'removeFilter' event of a chip that is
    shown, the chips are the chips shown before without those of the same
    type, label and value.  When no topic is selected twice, that is
    exactly one chip; a topic that is selected twice (the query
    [?topic=cli,cli] does that) has two equal chips, and one click removes
    both.  The selected custom tags and the sort option are as before. *)
Theorem chip_click_removes_chip (f : Filters.currentFilters_t) (c : Components.chip) :
  In c (Components.activeFilters f) ->
  let f' := Filters.handle (Components.chip_click c) f in
  Components.activeFilters f'
    = filter (fun c' => negb (Components.chip_eqb c' c)) (Components.activeFilters f) /\
  (NoDup (Filters.topics f) ->
   length (Components.activeFilters f) = S (length (Components.activeFilters f'))) /\
  Filters.customTags f' = Filters.customTags f /\
  Filters.sort f' = Filters.sort f.
Proof.
  intros Hc. cbv zeta.
  apply activeFilters_In in Hc as [[Hs ->]|[[Hl ->]|(t & Ht & ->)]].
  - change (Filters.handle (Components.chip_click (Components.search_chip (Filters.search f))) f)
      with (Filters.set_search "" f).
    unfold Components.activeFilters.
    cbn [Filters.search Filters.language Filters.topics Filters.customTags Filters.sort
           Filters.set_search JS.truthy].
    rewrite (truthy_true _ Hs). split; [|split; [|split; reflexivity]].
    + rewrite !filter_app. cbn [filter]. rewrite chip_eqb_refl. cbn [negb app].
      rewrite !filter_other_type; [reflexivity| |].
      * intros c' H. apply in_map_iff in H as (x & <- & _). discriminate.
      * intros c' H. destruct (JS.truthy (Filters.language f)); [|destruct H].
        destruct H as [<-|[]]. discriminate.
    + intros _. reflexivity.
  - change (Filters.handle (Components.chip_click
              (Components.language_chip (Filters.language f))) f)
      with (Filters.set_language "" f).
    unfold Components.activeFilters.
    cbn [Filters.search Filters.language Filters.topics Filters.customTags Filters.sort
           Filters.set_language JS.truthy].
    rewrite (truthy_true _ Hl). split; [|split; [|split; reflexivity]].
    + rewrite !filter_app. cbn [filter]. rewrite chip_eqb_refl. cbn [negb app].
      rewrite !filter_other_type; [reflexivity| |].
      * intros c' H. apply in_map_iff in H as (x & <- & _). discriminate.
      * intros c' H. destruct (JS.truthy (Filters.search f)); [|destruct H].
        destruct H as [<-|[]]. discriminate.
    + intros _. rewrite !length_app. simpl. lia.
  - change (Filters.handle (Components.chip_click (Components.topic_chip t)) f)
      with (Filters.set_topics (filter (Filters.differs t) (Filters.topics f)) f).
    unfold Components.activeFilters.
    cbn [Filters.search Filters.language Filters.topics Filters.customTags Filters.sort
           Filters.set_topics].
    split; [|split; [|split; reflexivity]].
    + rewrite !filter_app, filter_topic_chips, !filter_other_type; [reflexivity| |].
      * intros c' H. destruct (JS.truthy (Filters.language f)); [|destruct H].
        destruct H as [<-|[]]. discriminate.
      * intros c' H. destruct (JS.truthy (Filters.search f)); [|destruct H].
        destruct H as [<-|[]]. discriminate.
    + intros Hnd. rewrite !length_app, !length_map,
        (length_filter_differs t (Filters.topics f) Hnd Ht). lia.
Qed.

Lemma chip_click_removes_chip_witness :
  let f := {| Filters.search := "parser"; Filters.language := "Go";
              Filters.topics := ["cli"; "web"; "cli"]; Filters.customTags := ["cool"];
              Filters.sort := SORT_OPTIONS.NAME_ASC |} in
  let c := Components.topic_chip "cli" in
  let f' := Filters.handle (Components.chip_click c) f in
  (Components.activeFilters f'
     = filter (fun c' => negb (Components.chip_eqb c' c)) (Components.activeFilters f) /\
   (NoDup (Filters.topics f) ->
    length (Components.activeFilters f) = S (length (Components.activeFilters f'))) /\
   Filters.customTags f' = Filters.customTags f /\
   Filters.sort f' = Filters.sort f) /\
  length (Components.activeFilters f) = 5 /\
  length (Components.activeFilters f') = 3.
Proof.
  cbv zeta. split; [|split; reflexivity].
  apply (chip_click_removes_chip
           {| Filters.search := "parser"; Filters.language := "Go";
              Filters.topics := ["cli"; "web"; "cli"]; Filters.customTags := ["cool"];
              Filters.sort := SORT_OPTIONS.NAME_ASC |} (Components.topic_chip "cli")).
  simpl. tauto.
Defined.

(** X20. A selected custom tag never gets a chip: the chips are the same
    whatever custom tags are selected, and no chip that is shown dispatches
    'removeFilter' for a custom tag. *)
Theorem no_chip_for_custom_tags (f : Filters.currentFilters_t) (tags : list string)
    (c : Components.chip) :
  Components.activeFilters (Filters.set_customTags tags f) = Components.activeFilters f /\
  (In c (Components.activeFilters f) -> Components.type c <> Filters.FCustomTag).
Proof.
  split; [reflexivity|]. rewrite activeFilters_In.
  intros [[_ ->]|[[_ ->]|(t & _ & ->)]]; discriminate.
Qed.

(** ** The languages and topics offered for filtering *)

Lemma set_add_spec (seen : list string) (x : string) :
  NoDup seen ->
  NoDup (CustomData.set_add seen x) /\
  forall t, In t (CustomData.set_add seen x) <-> In t seen \/ t = x.
Proof.
  intros Hnd. pose proof (fold_set_add [x] seen Hnd) as [H1 H2]. simpl in H1, H2.
  split; [exact H1|]. intros t. rewrite H2. intuition.
Qed.

Lemma fold_add_language (l : list Repo.t) :
  forall seen, NoDup seen ->
    NoDup (fold_left StorageService.add_language l seen) /\
    forall t, In t (fold_left StorageService.add_language l seen) <->
      In t seen \/
      exists repo, In repo l /\ Repo.language repo = Some t /\ t <> "" /\ t <> "Unknown".
Proof.
  induction l as [|r l IH]; intros seen Hnd; simpl.
  - split; [exact Hnd|]. intros t. split; [tauto | intros [H|(x & H & _)]; [exact H | destruct H]].
  - assert (Hstep : NoDup (StorageService.add_language seen r) /\
        forall t, In t (StorageService.add_language seen r) <->
          In t seen \/ (Repo.language r = Some t /\ t <> "" /\ t <> "Unknown")).
    { unfold StorageService.add_language. destruct (Repo.language r) as [lang|].
      - destruct lang as [|c lang]; cbn [JS.truthy andb].
        + split; [exact Hnd|]. intros t. split; [tauto|].
          intros [H|([= <-] & H & _)]; [exact H | now elim H].
        + destruct (String.eqb_spec (String c lang) "Unknown") as [E|E]; cbn [negb].
          * split; [exact Hnd|]. intros t. split; [tauto|].
            intros [H|([= <-] & _ & H)]; [exact H | contradiction].
          * destruct (set_add_spec seen (String c lang) Hnd) as [H1 H2].
            split; [exact H1|]. intros t. rewrite H2. split.
            -- intros [H | ->]; [tauto|]. right. repeat split; [discriminate | exact E].
            -- intros [H|([= <-] & _)]; tauto.
      - split; [exact Hnd|]. intros t. split; [tauto|].
        intros [H|(H & _)]; [exact H | discriminate H]. }
    destruct Hstep as [Hnd' Hin']. destruct (IH _ Hnd') as [H1 H2].
    split; [exact H1|]. intros t. rewrite H2, Hin'. split.
    + intros [[H|H]|(x & Hx & R)]; auto.
      * right. exists r. tauto.
      * right. exists x. tauto.
    + intros [H|(x & [<-|Hx] & R)]; auto. right. exists x. tauto.
Qed.

Lemma fold_add_topics (l : list Repo.t) :
  forall seen, NoDup seen ->
    NoDup (fold_left StorageService.add_topics l seen) /\
    forall t, In t (fold_left StorageService.add_topics l seen) <->
      In t seen \/ exists repo tp, In repo l /\ Repo.topics repo = Some tp /\ In t tp.
Proof.
  induction l as [|r l IH]; intros seen Hnd; simpl.
  - split; [exact Hnd|]. intros t. split; [tauto | intros [H|(x & tp & H & _)]; [exact H | destruct H]].
  - assert (Hstep : NoDup (StorageService.add_topics seen r) /\
        forall t, In t (StorageService.add_topics seen r) <->
          In t seen \/ exists tp, Repo.topics r = Some tp /\ In t tp).
    { unfold StorageService.add_topics. destruct (Repo.topics r) as [tp|].
      - destruct (fold_set_add tp seen Hnd) as [H1 H2]. split; [exact H1|].
        intros t. rewrite H2. split.
        + intros [H|H]; [tauto|]. right. now exists tp.
        + intros [H|(tp' & [= <-] & H)]; tauto.
      - split; [exact Hnd|]. intros t. split; [tauto|].
        intros [H|(tp & H & _)]; [exact H | discriminate H]. }
    destruct Hstep as [Hnd' Hin']. destruct (IH _ Hnd') as [H1 H2].
    split; [exact H1|]. intros t. rewrite H2, Hin'. split.
    + intros [[H|(tp & E & H)]|(x & tp & Hx & R)]; auto.
      * right. exists r, tp. tauto.
      * right. exists x, tp. tauto.
    + intros [H|(x & tp & [<-|Hx] & R)]; auto.
      * left. right. exists tp. tauto.
      * right. exists x, tp. tauto.
Qed.

(** X21. [getUniqueLanguages] returns, in strictly ascending order and
    without repetition, exactly the languages of the records that are
    neither missing, nor empty, nor the placeholder [Unknown]. *)
Theorem getUniqueLanguages_spec (repositories : list Repo.t) :
  NoDup (StorageService.getUniqueLanguages repositories) /\
  Sorted (fun a b => (a <? b)%string = true)
    (StorageService.getUniqueLanguages repositories) /\
  forall lang, In lang (StorageService.getUniqueLanguages repositories) <->
    exists repo, In repo repositories /\ Repo.language repo = Some lang /\
                 lang <> "" /\ lang <> "Unknown".
Proof.
  unfold StorageService.getUniqueLanguages.
  destruct (fold_add_language repositories [] (NoDup_nil _)) as [Hnd Hin].
  pose proof (sort_perm JS.default_compare
                (fold_left StorageService.add_language repositories [])) as Hperm.
  assert (Hnd' : NoDup (JS.sort JS.default_compare
                          (fold_left StorageService.add_language repositories []))).
  { eapply Permutation_NoDup; eassumption. }
  split; [exact Hnd'|]. split; [apply sorted_strict; [apply sort_sorted | exact Hnd']|].
  intros lang. split.
  - intros H. apply (Permutation_in _ (Permutation_sym Hperm)), Hin in H.
    destruct H as [[]|H]. exact H.
  - intros H. apply (Permutation_in _ Hperm), Hin. now right.
Qed.

(** X22. [getUniqueTopics] returns, in strictly ascending order and
    without repetition, exactly the topics that occur in the topic list of
    some record; a record without a topic list contributes nothing. *)
Theorem getUniqueTopics_spec (repositories : list Repo.t) :
  NoDup (StorageService.getUniqueTopics repositories) /\
  Sorted (fun a b => (a <? b)%string = true)
    (StorageService.getUniqueTopics repositories) /\
  forall topic, In topic (StorageService.getUniqueTopics repositories) <->
    exists repo tp, In repo repositories /\ Repo.topics repo = Some tp /\ In topic tp.
Proof.
  unfold StorageService.getUniqueTopics.
  destruct (fold_add_topics repositories [] (NoDup_nil _)) as [Hnd Hin].
  pose proof (sort_perm JS.default_compare
                (fold_left StorageService.add_topics repositories [])) as Hperm.
  assert (Hnd' : NoDup (JS.sort JS.default_compare
                          (fold_left StorageService.add_topics repositories []))).
  { eapply Permutation_NoDup; eassumption. }
  split; [exact Hnd'|]. split; [apply sorted_strict; [apply sort_sorted | exact Hnd']|].
  intros topic. split.
  - intros H. apply (Permutation_in _ (Permutation_sym Hperm)), Hin in H.
    destruct H as [[]|H]. exact H.
  - intros H. apply (Permutation_in _ Hperm), Hin. now right.
Qed.

(** ** The loader and the relative dates of storage.js *)

(** X23. [loadStarsData] always resolves to an object whose metadata is
    not null, and that object is either the empty structure of the [catch]
    branch or the metadata and the repository array of a document that
    was fetched with an ok status. *)
Theorem loadStarsData_usable (o : StorageService.fetch_outcome) :
  StorageService.metadata (StorageService.loadStarsData o) <> None /\
  (StorageService.loadStarsData o = StorageService.fallback \/
   exists status m repos,
     o = StorageService.Response true status
           (StorageService.Document
              {| StorageService.d_metadata := Some m;
                 StorageService.d_repositories := Some repos |}) /\
     StorageService.loadStarsData o =
       {| StorageService.metadata := Some m;
          StorageService.repositories := repos |}).
Proof.
  destruct o as [|[|] status [| |[[m|] [repos|]]]]; simpl;
    (split; [discriminate|]); try (left; reflexivity).
  right. exists status, m, repos. split; reflexivity.
Qed.

Lemma formatDate_valid (h : Filters.host) (loc : option Z -> string)
    (now date : Z) (s : string) :
  s <> "" -> Filters.Date_time h s = Some date ->
  StorageService.formatDate h loc now (Some s) =
  let diffDays := (Z.abs (now - date) / StorageService.MS_PER_DAY)%Z in
  if (diffDays =? 0)%Z then "Today"
  else if (diffDays =? 1)%Z then "Yesterday"
  else if (diffDays <? 7)%Z then StorageService.ago diffDays "days"
  else if (diffDays <? 30)%Z then StorageService.ago (diffDays / 7) "weeks"
  else if (diffDays <? 365)%Z then StorageService.ago (diffDays / 30) "months"
  else loc (Some date).
Proof.
  intros Hs Hd. unfold StorageService.formatDate.
  rewrite (truthy_true _ Hs), Hd. reflexivity.
Qed.

(** X24. For a valid date less than 365 days away from now,
    [formatDate] answers [Today], [Yesterday], 2 to 6 days, 1 to 4 weeks
    or 1 to 12 months ago, and does not consult the locale. *)
Theorem formatDate_within_year (h : Filters.host) (loc : option Z -> string)
    (now date : Z) (s : string) :
  s <> "" -> Filters.Date_time h s = Some date ->
  (Z.abs (now - date) < 365 * StorageService.MS_PER_DAY)%Z ->
  let out := StorageService.formatDate h loc now (Some s) in
  out = "Today" \/ out = "Yesterday" \/
  (exists n, (2 <= n <= 6)%Z /\ out = StorageService.ago n "days") \/
  (exists n, (1 <= n <= 4)%Z /\ out = StorageService.ago n "weeks") \/
  (exists n, (1 <= n <= 12)%Z /\ out = StorageService.ago n "months").
Proof.
  intros Hs Hd Hlt. cbv zeta. rewrite (formatDate_valid h loc now date s Hs Hd).
  cbv zeta. set (d := (Z.abs (now - date) / StorageService.MS_PER_DAY)%Z).
  assert (Hd0 : (0 <= d < 365)%Z).
  { unfold d, StorageService.MS_PER_DAY in *. split.
    - apply Z.div_pos; lia.
    - apply Z.div_lt_upper_bound; lia. }
  destruct (Z.eqb_spec d 0); [now left|].
  destruct (Z.eqb_spec d 1); [now right; left|].
  destruct (Z.ltb_spec d 7).
  { right; right; left. exists d. split; [lia | reflexivity]. }
  destruct (Z.ltb_spec d 30).
  { right; right; right; left. exists (d / 7)%Z. split; [|reflexivity].
    split; [apply Z.div_le_lower_bound; lia|].
    apply Z.lt_succ_r, Z.div_lt_upper_bound; lia. }
  destruct (Z.ltb_spec d 365); [|lia].
  right; right; right; right. exists (d / 30)%Z. split; [|reflexivity].
  split; [apply Z.div_le_lower_bound; lia|].
  apply Z.lt_succ_r, Z.div_lt_upper_bound; lia.
Qed.

Lemma formatDate_within_year_witness :
  let out := StorageService.formatDate Samples.january_host Samples.iso_day
               Samples.january_7_noon (Some "2024-01-04T12:00:00Z") in
  out = "Today" \/ out = "Yesterday" \/
  (exists n, (2 <= n <= 6)%Z /\ out = StorageService.ago n "days") \/
  (exists n, (1 <= n <= 4)%Z /\ out = StorageService.ago n "weeks") \/
  (exists n, (1 <= n <= 12)%Z /\ out = StorageService.ago n "months").
Proof.
  apply (formatDate_within_year Samples.january_host Samples.iso_day
           Samples.january_7_noon 1704369600000 "2024-01-04T12:00:00Z").
  - discriminate.
  - reflexivity.
  - vm_compute. reflexivity.
Defined.

(** X25. [formatDate] takes the absolute value of the difference: less
    than 365 days away, a date in the future reads exactly like the date
    equally far in the past, for instance [3 days ago]. *)
Theorem formatDate_ignores_direction (h : Filters.host) (loc : option Z -> string)
    (now k : Z) (past future : string) :
  past <> "" -> future <> "" ->
  (0 <= k < 365 * StorageService.MS_PER_DAY)%Z ->
  Filters.Date_time h past = Some (now - k)%Z ->
  Filters.Date_time h future = Some (now + k)%Z ->
  StorageService.formatDate h loc now (Some future) =
  StorageService.formatDate h loc now (Some past).
Proof.
  intros Hp Hf Hk Ep Ef.
  rewrite (formatDate_valid h loc now _ _ Hp Ep), (formatDate_valid h loc now _ _ Hf Ef).
  cbv zeta.
  replace (Z.abs (now - (now + k))) with k by lia.
  replace (Z.abs (now - (now - k))) with k by lia.
  set (d := (k / StorageService.MS_PER_DAY)%Z).
  assert (Hd0 : (d < 365)%Z).
  { unfold d, StorageService.MS_PER_DAY in *. apply Z.div_lt_upper_bound; lia. }
  destruct (d =? 0)%Z; [reflexivity|]. destruct (d =? 1)%Z; [reflexivity|].
  destruct (d <? 7)%Z; [reflexivity|]. destruct (d <? 30)%Z; [reflexivity|].
  destruct (Z.ltb_spec d 365); [reflexivity | lia].
Qed.

Lemma formatDate_ignores_direction_witness :
  StorageService.formatDate Samples.january_host Samples.iso_day
    Samples.january_7_noon (Some "2024-01-10T12:00:00Z") =
  StorageService.formatDate Samples.january_host Samples.iso_day
    Samples.january_7_noon (Some "2024-01-04T12:00:00Z") /\
  StorageService.formatDate Samples.january_host Samples.iso_day
    Samples.january_7_noon (Some "2024-01-10T12:00:00Z") = "3 days ago".
Proof.
  split; [|reflexivity].
  apply (formatDate_ignores_direction Samples.january_host Samples.iso_day
           Samples.january_7_noon 259200000).
  - discriminate.
  - discriminate.
  - vm_compute. split; [discriminate | reflexivity].
  - reflexivity.
  - reflexivity.
Defined.

(** ** Removing a tag on a card *)

Lemma length_append (a b : string) :
  String.length (a ++ b) = String.length a + String.length b.
Proof. induction a as [|c a IH]; simpl; [reflexivity | now rewrite IH]. Qed.

Lemma length_join_quoted_cons (x : string) (t : list string) :
  String.length (JSON.join_quoted (x :: t)) =
  String.length (JSON.quote x) +
  match t with [] => 0 | _ :: _ => 1 + String.length (JSON.join_quoted t) end.
Proof.
  destruct t as [|y t]; [simpl; lia|].
  change (JSON.join_quoted (x :: y :: t))
    with (JSON.quote x ++ String "," (JSON.join_quoted (y :: t))).
  rewrite length_append. reflexivity.
Qed.

Lemma length_join_quoted_filter (p : string -> bool) (l : list string) :
  String.length (JSON.join_quoted (filter p l)) <= String.length (JSON.join_quoted l).
Proof.
  induction l as [|x t IH]; [simpl; lia|].
  rewrite (length_join_quoted_cons x t). cbn [filter]. destruct (p x).
  - rewrite length_join_quoted_cons. destruct (filter p t) as [|y r] eqn:E.
    + lia.
    + destruct t as [|z t]; [discriminate E|]. lia.
  - destruct t as [|z t]; [simpl; lia|]. lia.
Qed.

Lemma length_stringify_filter (p : string -> bool) (l : list string) :
  String.length (JSON.stringify (filter p l)) <= String.length (JSON.stringify l).
Proof.
  unfold JSON.stringify. cbn [String.length]. rewrite !length_append.
  pose proof (length_join_quoted_filter p l). lia.
Qed.

Lemma size_put_replace (k v v' : string) (l : list (string * string)) :
  LocalStorage.lookup l k = Some v -> String.length v' <= String.length v ->
  LocalStorage.size (LocalStorage.put k v' l) <= LocalStorage.size l.
Proof.
  intros Hl Hle. induction l as [|[k0 v0] l IH]; [discriminate Hl|].
  simpl in Hl |- *. destruct (String.eqb_spec k0 k) as [->|_].
  - injection Hl as ->. simpl. lia.
  - specialize (IH Hl). simpl. lia.
Qed.

Lemma filter_out_fresh (tag : string) (l : list string) :
  ~ In tag l -> filter (fun t => negb (String.eqb t tag)) (l ++ [tag]) = l.
Proof.
  intros Hin. rewrite filter_app. cbn [filter]. rewrite String.eqb_refl. cbn [negb].
  rewrite app_nil_r. induction l as [|x l IH]; simpl; [reflexivity|].
  destruct (String.eqb_spec x tag) as [->|_]; simpl.
  - elim Hin. now left.
  - rewrite IH; [reflexivity|]. intros H. apply Hin. now right.
Qed.

Lemma shorter_write_fits (st : LocalStorage.t) (k v v' : string) :
  LocalStorage.size (LocalStorage.items st) <= LocalStorage.quota st ->
  LocalStorage.getItem st k = Some v -> String.length v' <= String.length v ->
  exists st', LocalStorage.setItem st k v' = Some st'.
Proof.
  intros Hq Hl Hle. unfold LocalStorage.setItem.
  pose proof (size_put_replace k v v' _ Hl Hle) as Hs.
  destruct (Nat.leb_spec (LocalStorage.size (LocalStorage.put k v' (LocalStorage.items st)))
              (LocalStorage.quota st)) as [_|Hgt]; [eauto | lia].
Qed.

Lemma setItem_within_quota (st st' : LocalStorage.t) (k v : string) :
  LocalStorage.setItem st k v = Some st' ->
  LocalStorage.size (LocalStorage.items st') <= LocalStorage.quota st'.
Proof.
  unfold LocalStorage.setItem.
  destruct (Nat.leb_spec (LocalStorage.size (LocalStorage.put k v (LocalStorage.items st)))
              (LocalStorage.quota st)) as [H|_]; [|discriminate].
  intros [= <-]. exact H.
Qed.

Lemma removeTag_step (tag : string) (st : LocalStorage.t) (repo : Repo.t)
    (l : list string) :
  LocalStorage.size (LocalStorage.items st) <= LocalStorage.quota st ->
  Repo.custom_tags repo = Some l ->
  LocalStorage.getItem st (CustomData.tags_key (Num.Int (Repo.id repo)))
    = Some (JSON.stringify l) ->
  exists st',
    Cards.removeTag tag (st, repo)
      = Some (st', Cards.set_custom_tags repo
                     (filter (fun t => negb (String.eqb t tag)) l)) /\
    CustomData.getCustomTags st' (Num.Int (Repo.id repo))
      = filter (fun t => negb (String.eqb t tag)) l.
Proof.
  intros Hq Hl Hget. unfold Cards.removeTag. rewrite Hl.
  set (kept := filter (fun t => negb (String.eqb t tag)) l).
  destruct (shorter_write_fits st _ _ (JSON.stringify kept) Hq Hget
              (length_stringify_filter _ l)) as [st' Hset].
  assert (Hsc : CustomData.setCustomTags st (Num.Int (Repo.id repo)) kept = (true, st')).
  { unfold CustomData.setCustomTags. now rewrite Hset. }
  rewrite Hsc. exists st'. cbn [snd].
  split; [reflexivity | exact (setCustomTags_verbatim _ _ _ _ Hsc)].
Qed.

(** X26. [removeTag] is never refused by the storage: when the storage is
    within its quota and holds the tag list of the record, the shorter
    list is written, and afterwards the stored list and the list of the
    record are both the old list without the tag. *)
Theorem removeTag_always_stored (tag : string) (st : LocalStorage.t) (repo : Repo.t)
    (l : list string) :
  LocalStorage.size (LocalStorage.items st) <= LocalStorage.quota st ->
  Repo.custom_tags repo = Some l ->
  LocalStorage.getItem st (CustomData.tags_key (Num.Int (Repo.id repo)))
    = Some (JSON.stringify l) ->
  exists st' repo',
    Cards.removeTag tag (st, repo) = Some (st', repo') /\
    CustomData.getCustomTags st' (Num.Int (Repo.id repo))
      = filter (fun t => negb (String.eqb t tag)) l /\
    Cards.currentTags repo'
      = CustomData.getCustomTags st' (Num.Int (Repo.id repo)) /\
    ~ In tag (Cards.currentTags repo').
Proof.
  intros Hq Hl Hget.
  destruct (removeTag_step tag st repo l Hq Hl Hget) as (st' & E & Hst').
  exists st', (Cards.set_custom_tags repo (filter (fun t => negb (String.eqb t tag)) l)).
  split; [exact E|]. split; [exact Hst'|]. split; [now rewrite Hst'|].
  change (~ In tag (filter (fun t => negb (String.eqb t tag)) l)).
  intros H. apply filter_In in H as [_ H]. now rewrite String.eqb_refl in H.
Qed.

Lemma removeTag_always_stored_witness :
  exists st' repo',
    Cards.removeTag "cool" (Samples.full, Samples.tagged_card) = Some (st', repo') /\
    CustomData.getCustomTags st' (Num.Int (Repo.id Samples.tagged_card))
      = filter (fun t => negb (String.eqb t "cool")) ["cool"] /\
    Cards.currentTags repo'
      = CustomData.getCustomTags st' (Num.Int (Repo.id Samples.tagged_card)) /\
    ~ In "cool" (Cards.currentTags repo').
Proof.
  apply (removeTag_always_stored "cool" Samples.full Samples.tagged_card ["cool"]).
  - vm_compute. lia.
  - reflexivity.
  - reflexivity.
Defined.

(** X27. When the storage accepts the longer list, adding a tag that the
    record does not have and removing it again gives back the tag list of
    the record, both on the record and in the storage. *)
Theorem tag_add_then_remove (st : LocalStorage.t) (repo : Repo.t) (v : string) :
  JS.trim v <> "" ->
  ~ In (Cards.newTag v) (Cards.currentTags repo) ->
  LocalStorage.setItem st (CustomData.tags_key (Num.Int (Repo.id repo)))
    (JSON.stringify (Cards.currentTags repo ++ [Cards.newTag v])) <> None ->
  exists st' repo',
    Cards.removeTag (Cards.newTag v) (Cards.tag_keydown "Enter" v (st, repo))
      = Some (st', repo') /\
    Cards.currentTags repo' = Cards.currentTags repo /\
    CustomData.getCustomTags st' (Num.Int (Repo.id repo)) = Cards.currentTags repo.
Proof.
  intros Hv Hfresh Hfits. rewrite (tag_keydown_enter st repo v Hv).
  destruct (JS.arr_includes (Cards.currentTags repo) (Cards.newTag v)) eqn:Hin.
  { apply arr_includes_In in Hin. contradiction. }
  set (l := Cards.currentTags repo) in *. set (t := Cards.newTag v) in *.
  destruct (LocalStorage.setItem st _ _) as [st1|] eqn:Hset; [|contradiction].
  assert (Hsc : CustomData.setCustomTags st (Num.Int (Repo.id repo)) (l ++ [t])
                = (true, st1)).
  { unfold CustomData.setCustomTags. now rewrite Hset. }
  rewrite Hsc. cbn [snd].
  destruct (removeTag_step t st1 (Cards.set_custom_tags repo (l ++ [t])) (l ++ [t]))
    as (st' & E & Hst').
  - exact (setItem_within_quota _ _ _ _ Hset).
  - reflexivity.
  - exact (setItem_getItem _ _ _ _ Hset).
  - rewrite (filter_out_fresh t l Hfresh) in E, Hst'.
    exists st', (Cards.set_custom_tags (Cards.set_custom_tags repo (l ++ [t])) l).
    split; [exact E|]. split; [reflexivity | exact Hst'].
Qed.

Lemma tag_add_then_remove_witness :
  exists st' repo',
    Cards.removeTag (Cards.newTag " Go ")
      (Cards.tag_keydown "Enter" " Go " (Samples.annotated, Samples.tagged_card))
      = Some (st', repo') /\
    Cards.currentTags repo' = Cards.currentTags Samples.tagged_card /\
    CustomData.getCustomTags st' (Num.Int (Repo.id Samples.tagged_card))
      = Cards.currentTags Samples.tagged_card.
Proof.
  apply (tag_add_then_remove Samples.annotated Samples.tagged_card " Go ").
  - discriminate.
  - vm_compute. intros [H|[]]. discriminate H.
  - discriminate.
Defined.

(** X28. When the storage refuses the longer tag list, the tag listener
    still puts the new tag on the record: the storage stays as it was, so
    that a storage that held the list of the record no longer does, and
    the next [getCustomTags] does not return the tag. *)
Theorem tag_keydown_refused_write (st : LocalStorage.t) (repo : Repo.t) (v : string) :
  JS.trim v <> "" ->
  ~ In (Cards.newTag v) (Cards.currentTags repo) ->
  CustomData.getCustomTags st (Num.Int (Repo.id repo)) = Cards.currentTags repo ->
  LocalStorage.setItem st (CustomData.tags_key (Num.Int (Repo.id repo)))
    (JSON.stringify (Cards.currentTags repo ++ [Cards.newTag v])) = None ->
  let s' := Cards.tag_keydown "Enter" v (st, repo) in
  fst s' = st /\
  In (Cards.newTag v) (Cards.currentTags (snd s')) /\
  ~ In (Cards.newTag v) (CustomData.getCustomTags (fst s') (Num.Int (Repo.id repo))).
Proof.
  intros Hv Hfresh Hmirror Hset. cbv zeta. rewrite (tag_keydown_enter st repo v Hv).
  destruct (JS.arr_includes (Cards.currentTags repo) (Cards.newTag v)) eqn:Hin.
  { apply arr_includes_In in Hin. contradiction. }
  unfold CustomData.setCustomTags. rewrite Hset. cbn [fst snd].
  split; [reflexivity|]. split.
  - change (In (Cards.newTag v) (Cards.currentTags repo ++ [Cards.newTag v])).
    apply in_or_app. right. now left.
  - now rewrite Hmirror.
Qed.

Lemma tag_keydown_refused_write_witness :
  let s' := Cards.tag_keydown "Enter" "new" (Samples.full, Samples.tagged_card) in
  fst s' = Samples.full /\
  In (Cards.newTag "new") (Cards.currentTags (snd s')) /\
  ~ In (Cards.newTag "new")
      (CustomData.getCustomTags (fst s') (Num.Int (Repo.id Samples.tagged_card))).
Proof.
  apply (tag_keydown_refused_write Samples.full Samples.tagged_card "new").
  - discriminate.
  - vm_compute. intros [H|[]]. discriminate H.
  - reflexivity.
  - reflexivity.
Defined.

(** ** Clearing the filters *)

(** X29. After [clearFilters], whatever the filters were, on records that
    all have a [custom_tags] array [applyFilters] returns and shows every
    repository, also the records without a description, ordered by stars
    from most to fewest. *)
Theorem clearFilters_shows_everything (h : Filters.host) (f : Filters.currentFilters_t)
    (allRepositories : list Repo.t) :
  (forall r, In r allRepositories -> Repo.custom_tags r <> None) ->
  exists out,
    Filters.applyFilters h (Filters.handle Filters.ClearFilters f) allRepositories
      = Some out /\
    Permutation allRepositories out /\
    StronglySorted (fun a b => (Repo.stargazers_count b <= Repo.stargazers_count a)%Z) out.
Proof.
  intros Ht. exists (JS.sort Filters.by_stars_desc allRepositories).
  split; [|split; [apply sort_perm|]].
  - destruct (applyFilters_rendered h Filters.defaults allRepositories allRepositories
                eq_refl) as [_ Hret].
    apply Hret. intros r Hr. apply Ht.
    eapply Permutation_in; [symmetry; apply sort_perm | exact Hr].
  - apply Sorted_StronglySorted; [intros a b c; lia|].
    apply (sort_sorted_by _ _ (fun _ => True));
      try (unfold Filters.by_stars_desc; intros; lia).
    apply Forall_forall. auto.
Qed.

Lemma clearFilters_shows_everything_witness :
  exists out,
    Filters.applyFilters Samples.plain_host
      (Filters.handle Filters.ClearFilters (Filters.set_search "zzz" Filters.defaults))
      [Samples.tagged_card; Samples.beta] = Some out /\
    Permutation [Samples.tagged_card; Samples.beta] out /\
    StronglySorted (fun a b => (Repo.stargazers_count b <= Repo.stargazers_count a)%Z) out.
Proof.
  apply (clearFilters_shows_everything Samples.plain_host
           (Filters.set_search "zzz" Filters.defaults)
           [Samples.tagged_card; Samples.beta]).
  intros r [<-|[<-|[]]]; discriminate.
Defined.

Lemma search_step_described_witness :
  exists out,
    Filters.search_step (Filters.set_search "alp" Filters.defaults)
      [Samples.alpha; Samples.beta] = Some out /\
    forall r, In r out <->
      In r [Samples.alpha; Samples.beta] /\
      exists field pre post,
        In field [Some (Repo.name r); Repo.description r;
                  Some (Repo.full_name r); Some (Repo.login (Repo.owner r))] /\
        option_map JS.toLowerCase field = Some (pre ++ "alp" ++ post).
Proof.
  apply (search_step_described (Filters.set_search "alp" Filters.defaults)
           [Samples.alpha; Samples.beta]).
  - discriminate.
  - intros r [<-|[<-|[]]]; discriminate.
Defined.
